(** * NFC wallet storage: PIN encryption, envelopes and seed derivation

    A shallow embedding of the owned cryptographic core of the NFC wallet
    application:

    - [src/app/lib/crypto.ts]  (AES-256-GCM variant, [Module Crypto]);
    - the second document of [src/app/lib/swig.ts] (XOR variant,
      [Module XorCrypto]) and [keypairFromSeed] of its first document
      ([Module Swig]);
    - [src/unnamed/part_000], imported by the pages as [../lib/seed]
      ([Module Seed]);
    - the writers of [src/app/lib/nfc.ts] ([Module NFC]);
    - the reading loop and the decryption step of the sign handlers of
      [src/app/smartaccounts/page.tsx] ([Module SmartAccountsPage]).

    The source functions are thin compositions of platform calls
    ([crypto.subtle], [crypto.getRandomValues], [TextEncoder],
    [TextDecoder], [btoa], [atob], [encodeURIComponent],
    [String.prototype.trim]).  The platform is modelled from its
    standards (FIPS 180-4, RFC 2104, RFC 8018, RFC 5869, FIPS 197,
    NIST SP 800-38D, RFC 4648 and the WHATWG forgiving-base64 decoder,
    the WHATWG Encoding standard, ECMA-262, W3C Web Cryptography API) as
    executable definitions, which are checked against published test
    vectors.

    Data representation:
    - a [Uint8Array] is a [list byte];
    - a JavaScript string is the list of its UTF-16 code units ([list Z]);
    - 32-bit words, bytes inside primitives and 128-bit blocks are [Z]
      with the wrap-around written out;
    - an [async] function is a computation in the monad [Async]: it
      threads the state of the platform's random source and either
      resolves to a value or rejects with an exception;
    - the writers of [nfc.ts] thread a [Browser] instead: whether it
      has Web NFC, how the tag in range answers a write, and what has
      been written. *)

From Stdlib Require Import ZArith NArith String Ascii List Lia Bool.
From Stdlib.Strings Require Import Byte.
Import ListNotations.

Local Open Scope Z_scope.

(* ================================================================== *)
(** * Bytes and words *)

Definition bytes := list byte.

(** A value together with an opaque copy of it. *)
Record sealed {A : Type} (a : A) := mkSealed { unseal : A; seal_eq : unseal = a }.
Arguments unseal {A a} _.
Arguments seal_eq {A a} _.

Definition byte_to_Z (b : byte) : Z := Z.of_N (Byte.to_N b).

(** Storing a number into a [Uint8Array] keeps its low eight bits. *)
Definition Z_to_byte (z : Z) : byte :=
  match Byte.of_N (Z.to_N (z mod 256)) with
  | Some b => b
  | None => x00
  end.

Definition byte_xor (a b : byte) : byte :=
  Z_to_byte (Z.lxor (byte_to_Z a) (byte_to_Z b)).

(** Big-endian serialisation of the low [8 * n] bits of [z]. *)
Fixpoint be_bytes (n : nat) (z : Z) : bytes :=
  match n with
  | O => []
  | S n' => Z_to_byte (Z.shiftr z (8 * Z.of_nat n')) :: be_bytes n' z
  end.

Definition be_value (bs : bytes) : Z :=
  fold_left (fun acc b => acc * 256 + byte_to_Z b) bs 0.

(** [chunks size count l]: the first [count] consecutive pieces of [l] of
    [size] elements each. *)
Fixpoint chunks {A} (size count : nat) (l : list A) : list (list A) :=
  match count with
  | O => []
  | S c => firstn size l :: chunks size c (skipn size l)
  end.

(** Pointwise xor of [data] with a mask at least as long; the result has
    the length of [data]. *)
Fixpoint xor_bytes (data mask : bytes) : bytes :=
  match data, mask with
  | d :: ds, m :: ms => byte_xor d m :: xor_bytes ds ms
  | d :: ds, [] => d :: xor_bytes ds []
  | [], _ => []
  end.

Definition bytes_eqb (a b : bytes) : bool :=
  if list_eq_dec Byte.byte_eq_dec a b then true else false.

(** Bytes written in hexadecimal, for test vectors. *)
Definition hex_digit (c : ascii) : Z :=
  let n := Z.of_nat (nat_of_ascii c) in
  if (48 <=? n) && (n <=? 57) then n - 48
  else if (97 <=? n) && (n <=? 102) then n - 87
  else if (65 <=? n) && (n <=? 70) then n - 55
  else 0.

Fixpoint hex (s : string) : bytes :=
  match s with
  | String a (String b rest) =>
      Z_to_byte (16 * hex_digit a + hex_digit b) :: hex rest
  | _ => []
  end.

(* ================================================================== *)
(** * SHA-256 (FIPS 180-4) *)

Module SHA256.

Definition wrap32 (x : Z) : Z := x mod 2 ^ 32.
Definition add32 (x y : Z) : Z := wrap32 (x + y).
Definition rotr (n x : Z) : Z :=
  Z.lor (Z.shiftr x n) (wrap32 (Z.shiftl x (32 - n))).
Definition not32 (x : Z) : Z := Z.lxor x (Z.ones 32).

Definition Ch (x y z : Z) := Z.lxor (Z.land x y) (Z.land (not32 x) z).
Definition Maj (x y z : Z) :=
  Z.lxor (Z.lxor (Z.land x y) (Z.land x z)) (Z.land y z).
Definition Sigma0 x := Z.lxor (Z.lxor (rotr 2 x) (rotr 13 x)) (rotr 22 x).
Definition Sigma1 x := Z.lxor (Z.lxor (rotr 6 x) (rotr 11 x)) (rotr 25 x).
Definition sigma0 x := Z.lxor (Z.lxor (rotr 7 x) (rotr 18 x)) (Z.shiftr x 3).
Definition sigma1 x := Z.lxor (Z.lxor (rotr 17 x) (rotr 19 x)) (Z.shiftr x 10).

(** The constants are defined as the standard defines them: the first
    32 bits of the fractional parts of the square roots (initial hash
    value) and cube roots (round constants) of the first primes. *)
Definition is_prime (n : nat) : bool :=
  forallb (fun d => negb (Nat.eqb (n mod d) 0)) (seq 2 (n - 2)).

Definition primes (count : nat) : list Z :=
  map Z.of_nat (firstn count (filter is_prime (seq 2 400))).

(** Integer cube root of a number below [2 ^ 120], by bisection on the
    bits of the root. *)
Definition cube_root (n : Z) : Z :=
  fold_left
    (fun r b => let c := r + 2 ^ Z.of_nat b in
                if c * c * c <=? n then c else r)
    (rev (seq 0 40)) 0.

Definition K : list Z :=
  Eval vm_compute in
    map (fun p => wrap32 (cube_root (p * 2 ^ 96))) (primes 64).

Definition H0 : list Z :=
  Eval vm_compute in
    map (fun p => wrap32 (Z.sqrt (p * 2 ^ 64))) (primes 8).

(** Padding: a one bit, zero bits up to 56 modulo 64 bytes, then the
    bit length on 64 bits. *)
Definition pad (msg : bytes) : bytes :=
  let len := Z.of_nat (length msg) in
  msg ++ x80 :: repeat x00 (Z.to_nat ((55 - len) mod 64))
      ++ be_bytes 8 (8 * len).

Definition words_of_block (block : bytes) : list Z :=
  map be_value (chunks 4 16 block).

Definition schedule (block : bytes) : list Z :=
  fold_left
    (fun W t =>
       W ++ [add32 (add32 (sigma1 (nth (t - 2) W 0)) (nth (t - 7) W 0))
                   (add32 (sigma0 (nth (t - 15) W 0)) (nth (t - 16) W 0))])
    (seq 16 48) (words_of_block block).

Record state := mkState { sa : Z; sb : Z; sc : Z; sd : Z;
                          se : Z; sf : Z; sg : Z; sh : Z }.

Definition round (s : state) (kw : Z * Z) : state :=
  let (k, w) := kw in
  let T1 := add32 (add32 (add32 (sh s) (Sigma1 (se s)))
                         (add32 (Ch (se s) (sf s) (sg s)) k)) w in
  let T2 := add32 (Sigma0 (sa s)) (Maj (sa s) (sb s) (sc s)) in
  mkState (add32 T1 T2) (sa s) (sb s) (sc s)
          (add32 (sd s) T1) (se s) (sf s) (sg s).

Definition compress (h : state) (block : bytes) : state :=
  let s := fold_left round (combine K (schedule block)) h in
  mkState (add32 (sa h) (sa s)) (add32 (sb h) (sb s))
          (add32 (sc h) (sc s)) (add32 (sd h) (sd s))
          (add32 (se h) (se s)) (add32 (sf h) (sf s))
          (add32 (sg h) (sg s)) (add32 (sh h) (sh s)).

Definition init : state :=
  mkState (nth 0 H0 0) (nth 1 H0 0) (nth 2 H0 0) (nth 3 H0 0)
          (nth 4 H0 0) (nth 5 H0 0) (nth 6 H0 0) (nth 7 H0 0).

Definition digest_of (s : state) : bytes :=
  be_bytes 4 (sa s) ++ be_bytes 4 (sb s) ++ be_bytes 4 (sc s)
    ++ be_bytes 4 (sd s) ++ be_bytes 4 (se s) ++ be_bytes 4 (sf s)
    ++ be_bytes 4 (sg s) ++ be_bytes 4 (sh s).

Definition hash (msg : bytes) : bytes :=
  let padded := pad msg in
  digest_of (fold_left compress
               (chunks 64 (Nat.div (length padded) 64) padded) init).

End SHA256.

Definition ascii_bytes (s : string) : bytes :=
  map (fun c => Z_to_byte (Z.of_nat (nat_of_ascii c))) (list_ascii_of_string s).

(* ================================================================== *)
(** * HMAC-SHA-256 (RFC 2104) *)

Module HMAC.

Definition block_size : nat := 64.

(** Keys longer than a block are hashed first; the key is then padded
    with zero bytes to a full block. *)
Definition block_key (key : bytes) : bytes :=
  let k := if Nat.ltb block_size (length key) then SHA256.hash key else key in
  k ++ repeat x00 (block_size - length k).

Definition ipad : bytes := repeat x36 block_size.
Definition opad : bytes := repeat x5c block_size.

Definition hmac (key msg : bytes) : bytes :=
  let k := block_key key in
  SHA256.hash (xor_bytes k opad ++ SHA256.hash (xor_bytes k ipad ++ msg)).

End HMAC.

(* ================================================================== *)
(** * PBKDF2 with HMAC-SHA-256 (RFC 8018, section 5.2) *)

Module PBKDF2.

Definition hLen : nat := 32.

(** One output block, computed the way implementations do: a running
    xor [T] and the last PRF output [U], stepped [c - 1] times. *)
Definition step (P : bytes) (TU : bytes * bytes) : bytes * bytes :=
  let U' := HMAC.hmac P (snd TU) in (xor_bytes (fst TU) U', U').

Definition F (P S : bytes) (c : N) (i : nat) : bytes :=
  let U1 := HMAC.hmac P (S ++ be_bytes 4 (Z.of_nat i)) in
  fst (N.iter (c - 1) (step P) (U1, U1)).

Definition blocks_needed (dkLen : nat) : nat :=
  Nat.div (dkLen + hLen - 1) hLen.

Definition derive (P S : bytes) (c : N) (dkLen : nat) : bytes :=
  firstn dkLen
    (concat (map (F P S c) (seq 1 (blocks_needed dkLen)))).

End PBKDF2.

(* ================================================================== *)
(** * HKDF with HMAC-SHA-256 (RFC 5869) *)

Module HKDF.

Definition hashLen : nat := 32.

Definition extract (salt ikm : bytes) : bytes := HMAC.hmac salt ikm.

(** [expand_blocks prk info prev i n] is [T(i) ++ ... ++ T(i+n-1)]
    where [prev] is [T(i-1)]. *)
Fixpoint expand_blocks (prk info prev : bytes) (i n : nat) : bytes :=
  match n with
  | O => []
  | S n' =>
      let t := HMAC.hmac prk (prev ++ info ++ [Z_to_byte (Z.of_nat i)]) in
      t ++ expand_blocks prk info t (S i) n'
  end.

Definition expand (prk info : bytes) (L : nat) : bytes :=
  firstn L
    (expand_blocks prk info [] 1 (Nat.div (L + hashLen - 1) hashLen)).

Definition derive (salt ikm info : bytes) (L : nat) : bytes :=
  expand (extract salt ikm) info L.

End HKDF.

(* ================================================================== *)
(** * AES (FIPS 197) *)

Module AES.

(** Arithmetic of GF(2^8) modulo x^8 + x^4 + x^3 + x + 1. *)
Definition xtime (a : Z) : Z :=
  let d := Z.shiftl a 1 in
  if Z.testbit a 7 then Z.lxor (Z.land d 255) 27 else d.

Fixpoint gmul_aux (n : nat) (a b : Z) : Z :=
  match n with
  | O => 0
  | S n' =>
      Z.lxor (if Z.testbit b 0 then a else 0)
             (gmul_aux n' (xtime a) (Z.shiftr b 1))
  end.

Definition gmul (a b : Z) : Z := gmul_aux 8 a b.

Fixpoint gpow (a : Z) (n : nat) : Z :=
  match n with
  | O => 1
  | S n' => gmul a (gpow a n')
  end.

(** The multiplicative inverse is the 254th power (zero maps to zero). *)
Definition ginv (a : Z) : Z := gpow a 254.

Definition rotl8 (x n : Z) : Z :=
  Z.land (Z.lor (Z.shiftl x n) (Z.shiftr x (8 - n))) 255.

Definition affine (b : Z) : Z :=
  Z.lxor (Z.lxor (Z.lxor (Z.lxor (Z.lxor b (rotl8 b 1)) (rotl8 b 2))
                         (rotl8 b 3)) (rotl8 b 4)) 99.

Definition sbox_table : list Z :=
  Eval vm_compute in
    map (fun n => affine (ginv (Z.of_nat n))) (seq 0 256).

Definition sbox (a : Z) : Z := nth (Z.to_nat a) sbox_table 0.

(** The state and the round keys are lists of sixteen bytes in input
    order: the byte of row [r] and column [c] is at index [r + 4 * c]. *)
Definition sub_bytes (s : list Z) : list Z := map sbox s.

Definition shift_rows (s : list Z) : list Z :=
  map (fun i => let r := Nat.modulo i 4 in
                let c := Nat.div i 4 in
                nth (r + 4 * Nat.modulo (c + r) 4) s 0)
      (seq 0 16).

Definition mix_column (col : list Z) : list Z :=
  let a0 := nth 0 col 0 in let a1 := nth 1 col 0 in
  let a2 := nth 2 col 0 in let a3 := nth 3 col 0 in
  [ Z.lxor (Z.lxor (gmul a0 2) (gmul a1 3)) (Z.lxor a2 a3);
    Z.lxor (Z.lxor a0 (gmul a1 2)) (Z.lxor (gmul a2 3) a3);
    Z.lxor (Z.lxor a0 a1) (Z.lxor (gmul a2 2) (gmul a3 3));
    Z.lxor (Z.lxor (gmul a0 3) a1) (Z.lxor a2 (gmul a3 2)) ].

Definition mix_columns (s : list Z) : list Z :=
  concat (map mix_column (chunks 4 4 s)).

Definition add_round_key (s rk : list Z) : list Z :=
  map (fun i => Z.lxor (nth i s 0) (nth i rk 0)) (seq 0 16).

(** Key expansion, on a flat list of bytes: word [i] is bytes
    [4 * i .. 4 * i + 3]. *)
Definition word_at (w : list Z) (i : nat) : list Z :=
  firstn 4 (skipn (4 * i) w).

Definition rot_word (t : list Z) : list Z := skipn 1 t ++ firstn 1 t.
Definition sub_word (t : list Z) : list Z := map sbox t.
Definition rcon (j : nat) : list Z := [gpow 2 (j - 1); 0; 0; 0].
Definition xor_word (a b : list Z) : list Z :=
  map (fun i => Z.lxor (nth i a 0) (nth i b 0)) (seq 0 4).

Definition expand_step (Nk : nat) (w : list Z) (i : nat) : list Z :=
  let temp := word_at w (i - 1) in
  let temp' :=
    if Nat.eqb (Nat.modulo i Nk) 0
    then xor_word (sub_word (rot_word temp)) (rcon (Nat.div i Nk))
    else if Nat.ltb 6 Nk && Nat.eqb (Nat.modulo i Nk) 4
         then sub_word temp
         else temp in
  w ++ xor_word (word_at w (i - Nk)) temp'.

Definition key_expansion (key : list Z) : list Z :=
  let Nk := Nat.div (length key) 4 in
  let Nr := (Nk + 6)%nat in
  fold_left (expand_step Nk) (seq Nk (4 * (Nr + 1) - Nk)) key.

Definition round_key (w : list Z) (r : nat) : list Z :=
  firstn 16 (skipn (16 * r) w).

Definition cipher_round (w : list Z) (s : list Z) (r : nat) : list Z :=
  add_round_key (mix_columns (shift_rows (sub_bytes s))) (round_key w r).

Definition cipher (key block : list Z) : list Z :=
  let Nr := (Nat.div (length key) 4 + 6)%nat in
  let w := key_expansion key in
  let s := fold_left (cipher_round w) (seq 1 (Nr - 1))
                     (add_round_key block (round_key w 0)) in
  add_round_key (shift_rows (sub_bytes s)) (round_key w Nr).

(** The forward cipher on byte strings. *)
Definition encrypt_block (key block : bytes) : bytes :=
  map Z_to_byte (cipher (map byte_to_Z key) (map byte_to_Z block)).

End AES.

(* ================================================================== *)
(** * Galois/Counter Mode (NIST SP 800-38D) *)

Module GCM.

(** Blocks of 128 bits are numbers whose most significant bit is the
    leftmost bit of the block. *)
Definition R : Z := Z.shiftl 225 120.

Definition mul_step (x : Z) (zv : Z * Z) (i : nat) : Z * Z :=
  let z := fst zv in
  let v := snd zv in
  (if Z.testbit x (127 - Z.of_nat i) then Z.lxor z v else z,
   if Z.testbit v 0 then Z.lxor (Z.shiftr v 1) R else Z.shiftr v 1).

Definition gf_mul (x y : Z) : Z :=
  fst (fold_left (mul_step x) (seq 0 128) (0, y)).

Definition ghash (H : Z) (X : bytes) : Z :=
  fold_left (fun y blk => gf_mul (Z.lxor y (be_value blk)) H)
            (chunks 16 (Nat.div (length X) 16) X) 0.

Definition pad16 (X : bytes) : bytes :=
  X ++ repeat x00 (Nat.modulo (16 - Nat.modulo (length X) 16) 16).

Definition bit_length (X : bytes) : bytes :=
  be_bytes 8 (8 * Z.of_nat (length X)).

(** The counter increments in its rightmost 32 bits, modulo 2^32. *)
Definition inc32 (cb : bytes) : bytes :=
  firstn 12 cb ++ be_bytes 4 (be_value (skipn 12 cb) + 1).

Fixpoint keystream (key cb : bytes) (nblocks : nat) : bytes :=
  match nblocks with
  | O => []
  | S n => AES.encrypt_block key cb ++ keystream key (inc32 cb) n
  end.

Definition gctr (key icb X : bytes) : bytes :=
  xor_bytes X (keystream key icb (Nat.div (length X + 15) 16)).

Definition hash_subkey (key : bytes) : Z :=
  be_value (AES.encrypt_block key (repeat x00 16)).

Definition J0 (key iv : bytes) : bytes :=
  if Nat.eqb (length iv) 12
  then iv ++ [x00; x00; x00; x01]
  else be_bytes 16
         (ghash (hash_subkey key)
                (pad16 iv ++ repeat x00 8 ++ bit_length iv)).

(** The authentication tag of [t] bytes over associated data [A] and
    ciphertext [C]. *)
Definition tag (key iv A C : bytes) (t : nat) : bytes :=
  let S := ghash (hash_subkey key)
                 (pad16 A ++ pad16 C ++ bit_length A ++ bit_length C) in
  firstn t (gctr key (J0 key iv) (be_bytes 16 S)).

(** GCM-AE: ciphertext and tag. *)
Definition encrypt (key iv A P : bytes) (t : nat) : bytes * bytes :=
  let C := gctr key (inc32 (J0 key iv)) P in
  (C, tag key iv A C t).

(** GCM-AD: the plaintext, or [None] (FAIL) when the tag does not
    verify. *)
Definition decrypt (key iv A C T : bytes) : option bytes :=
  if bytes_eqb T (tag key iv A C (length T))
  then Some (gctr key (inc32 (J0 key iv)) C)
  else None.

End GCM.

(* ================================================================== *)
(** * JavaScript strings and exceptions *)

(** A string is the sequence of its UTF-16 code units. *)
Definition jsstring := list Z.

(** A literal of ASCII characters. *)
Definition str (s : string) : jsstring :=
  map (fun c => Z.of_N (N_of_ascii c)) (list_ascii_of_string s).

Inductive exn :=
| Error (message : string)      (* [throw new Error(message)] *)
| DOMException (name : string). (* raised by the platform *)

Inductive result (A : Type) :=
| Ok (value : A)
| Throw (e : exn).
Arguments Ok {A} value.
Arguments Throw {A} e.

Definition is_ok {A} (r : result A) : bool :=
  match r with Ok _ => true | Throw _ => false end.

Module JS.

(** ECMA-262 [WhiteSpace] and [LineTerminator] code points, the ones
    [String.prototype.trim] removes. *)
Definition is_white_space (c : Z) : bool :=
  (c =? 9) || (c =? 10) || (c =? 11) || (c =? 12) || (c =? 13)
  || (c =? 32) || (c =? 160) || (c =? 5760)
  || ((8192 <=? c) && (c <=? 8202))
  || (c =? 8232) || (c =? 8233) || (c =? 8239) || (c =? 8287)
  || (c =? 12288) || (c =? 65279).

Fixpoint trimStart (s : jsstring) : jsstring :=
  match s with
  | c :: rest => if is_white_space c then trimStart rest else s
  | [] => []
  end.

Definition trimEnd (s : jsstring) : jsstring := rev (trimStart (rev s)).

Definition trim (s : jsstring) : jsstring := trimEnd (trimStart s).

Fixpoint startsWith (s prefix : jsstring) {struct prefix} : bool :=
  match prefix, s with
  | [], _ => true
  | p :: prefix', c :: s' => (c =? p) && startsWith s' prefix'
  | _ :: _, [] => false
  end.

(** [s.slice(n)] for [0 <= n]. *)
Definition slice_from (s : jsstring) (n : nat) : jsstring := skipn n s.

(** [String.fromCharCode(...bytes)]. *)
Definition fromCharCode (bs : bytes) : jsstring := map byte_to_Z bs.

(** [new Uint8Array(s.split('').map((c) => c.charCodeAt(0)))]: each
    code unit is stored modulo 256. *)
Definition charCodes (s : jsstring) : bytes := map Z_to_byte s.

(** ** [TextEncoder.encode]: UTF-8, lone surrogates become U+FFFD *)

Definition is_high_surrogate (c : Z) : bool := (55296 <=? c) && (c <=? 56319).
Definition is_low_surrogate (c : Z) : bool := (56320 <=? c) && (c <=? 57343).

Fixpoint code_points (s : jsstring) : list Z :=
  match s with
  | [] => []
  | c :: rest =>
      if is_high_surrogate c then
        match rest with
        | d :: rest' =>
            if is_low_surrogate d
            then (65536 + (c - 55296) * 1024 + (d - 56320)) :: code_points rest'
            else 65533 :: code_points rest
        | [] => [65533]
        end
      else if is_low_surrogate c then 65533 :: code_points rest
      else c :: code_points rest
  end.

Definition utf8 (cp : Z) : bytes :=
  if cp <? 128 then [Z_to_byte cp]
  else if cp <? 2048 then
    [Z_to_byte (192 + cp / 64); Z_to_byte (128 + cp mod 64)]
  else if cp <? 65536 then
    [Z_to_byte (224 + cp / 4096); Z_to_byte (128 + (cp / 64) mod 64);
     Z_to_byte (128 + cp mod 64)]
  else
    [Z_to_byte (240 + cp / 262144); Z_to_byte (128 + (cp / 4096) mod 64);
     Z_to_byte (128 + (cp / 64) mod 64); Z_to_byte (128 + cp mod 64)].

Definition TextEncoder_encode (s : jsstring) : bytes :=
  flat_map utf8 (code_points s).

(** ** [btoa] and [atob] *)

Definition InvalidCharacterError : exn := DOMException "InvalidCharacterError".

Definition b64_char (n : Z) : Z :=
  if n <? 26 then 65 + n
  else if n <? 52 then 97 + (n - 26)
  else if n <? 62 then 48 + (n - 52)
  else if n =? 62 then 43
  else 47.

Definition b64_value (c : Z) : option Z :=
  if (65 <=? c) && (c <=? 90) then Some (c - 65)
  else if (97 <=? c) && (c <=? 122) then Some (c - 97 + 26)
  else if (48 <=? c) && (c <=? 57) then Some (c - 48 + 52)
  else if c =? 43 then Some 62
  else if c =? 47 then Some 63
  else None.

(** Groups of three bytes become four six-bit values; a final group of
    one or two bytes becomes two or three. *)
Fixpoint to_sextets (bs : list Z) : list Z :=
  match bs with
  | a :: b :: c :: rest =>
      a / 4 :: (a mod 4) * 16 + b / 16 :: (b mod 16) * 4 + c / 64
        :: c mod 64 :: to_sextets rest
  | [a; b] => [a / 4; (a mod 4) * 16 + b / 16; (b mod 16) * 4]
  | [a] => [a / 4; (a mod 4) * 16]
  | [] => []
  end.

Definition padding (n : nat) : jsstring :=
  repeat 61 (Nat.modulo (3 - Nat.modulo n 3) 3).

(** [btoa] rejects code units above 255. *)
Definition btoa (s : jsstring) : result jsstring :=
  if forallb (fun c => (0 <=? c) && (c <=? 255)) s
  then Ok (map b64_char (to_sextets s) ++ padding (length s))
  else Throw InvalidCharacterError.

Definition is_ascii_whitespace (c : Z) : bool :=
  (c =? 9) || (c =? 10) || (c =? 12) || (c =? 13) || (c =? 32).

(** When the length is a multiple of four, one or two trailing [=] are
    removed. *)
Definition strip_padding (s : jsstring) : jsstring :=
  if Nat.eqb (Nat.modulo (length s) 4) 0 then
    match rev s with
    | c1 :: c2 :: r =>
        if c1 =? 61 then (if c2 =? 61 then rev r else rev (c2 :: r)) else s
    | [c1] => if c1 =? 61 then [] else s
    | [] => s
    end
  else s.

Fixpoint sextet_values (s : jsstring) : option (list Z) :=
  match s with
  | [] => Some []
  | c :: rest =>
      match b64_value c, sextet_values rest with
      | Some v, Some vs => Some (v :: vs)
      | _, _ => None
      end
  end.

(** Four six-bit values give three bytes; a final group of three or two
    values gives two bytes or one, the unused low bits being dropped. *)
Fixpoint of_sextets (v : list Z) : list Z :=
  match v with
  | a :: b :: c :: d :: rest =>
      a * 4 + b / 16 :: (b mod 16) * 16 + c / 4 :: (c mod 4) * 64 + d
        :: of_sextets rest
  | [a; b; c] => [a * 4 + b / 16; (b mod 16) * 16 + c / 4]
  | [a; b] => [a * 4 + b / 16]
  | _ => []
  end.

(** The forgiving base64 decoder of the WHATWG Infra standard. *)
Definition atob (s : jsstring) : result jsstring :=
  let data := strip_padding (filter (fun c => negb (is_ascii_whitespace c)) s) in
  if Nat.eqb (Nat.modulo (length data) 4) 1 then Throw InvalidCharacterError
  else match sextet_values data with
       | Some v => Ok (of_sextets v)
       | None => Throw InvalidCharacterError
       end.

(** [target.set(source, offset)] on typed arrays. *)
Definition typed_set (target source : bytes) (offset : nat) : result bytes :=
  if Nat.ltb (length target) (offset + length source)
  then Throw (DOMException "RangeError")
  else Ok (firstn offset target ++ source
             ++ skipn (offset + length source) target).

(** ** [Number.prototype.toString(16)] and [padStart] *)

Definition hex_char (d : Z) : Z := if d <? 10 then 48 + d else 87 + d.

(** [n.toString(16)] for [0 <= n < 256], the range of the elements of a
    [Uint8Array]: one or two lowercase digits. *)
Definition toString16 (n : Z) : jsstring :=
  if n <? 16 then [hex_char n] else [hex_char (n / 16); hex_char (n mod 16)].

(** [s.padStart(target, fill)] for a fill string of one code unit. *)
Definition padStart (s : jsstring) (target : nat) (fill : Z) : jsstring :=
  repeat fill (target - length s) ++ s.

(** ** [encodeURIComponent] (ECMA-262, [Encode] with the unreserved set
       of URI components) *)

Definition is_unreserved (c : Z) : bool :=
  ((65 <=? c) && (c <=? 90)) || ((97 <=? c) && (c <=? 122))
  || ((48 <=? c) && (c <=? 57))
  || (c =? 45) || (c =? 95) || (c =? 46) || (c =? 33) || (c =? 126)
  || (c =? 42) || (c =? 39) || (c =? 40) || (c =? 41).

Definition upper_hex_char (d : Z) : Z := if d <? 10 then 48 + d else 55 + d.

Definition percent (b : byte) : jsstring :=
  [37; upper_hex_char (byte_to_Z b / 16); upper_hex_char (byte_to_Z b mod 16)].

(** A [URIError] is an [Error]; the message is the one of V8, the only
    engine with Web NFC. *)
Definition URIError : exn := Error "URI malformed".

Fixpoint encodeURIComponent (s : jsstring) : result jsstring :=
  match s with
  | [] => Ok []
  | c :: rest =>
      if is_unreserved c then
        match encodeURIComponent rest with
        | Ok r => Ok (c :: r)
        | Throw x => Throw x
        end
      else if is_low_surrogate c then Throw URIError
      else if is_high_surrogate c then
        match rest with
        | d :: rest' =>
            if is_low_surrogate d then
              match encodeURIComponent rest' with
              | Ok r =>
                  Ok (flat_map percent
                        (utf8 (65536 + (c - 55296) * 1024 + (d - 56320))) ++ r)
              | Throw x => Throw x
              end
            else Throw URIError
        | [] => Throw URIError
        end
      else
        match encodeURIComponent rest with
        | Ok r => Ok (flat_map percent (utf8 c) ++ r)
        | Throw x => Throw x
        end
  end.

(** [parts.join(separator)]. *)
Fixpoint join (parts : list jsstring) (separator : jsstring) : jsstring :=
  match parts with
  | [] => []
  | [p] => p
  | p :: rest => p ++ separator ++ join rest separator
  end.

(** ** [TextDecoder.decode]: the UTF-8 decoder of the WHATWG Encoding
       standard, in replacement mode *)

(** A pending sequence: code point so far, continuation bytes still
    needed, and the bounds of the next byte. *)
Definition utf8_pending : Type := (Z * nat * Z * Z)%type.

Definition utf8_start (b : Z) : list Z * option utf8_pending :=
  if b <=? 127 then ([b], None)
  else if (194 <=? b) && (b <=? 223) then ([], Some (Z.land b 31, 1%nat, 128, 191))
  else if (224 <=? b) && (b <=? 239) then
    ([], Some (Z.land b 15, 2%nat,
               (if b =? 224 then 160 else 128), (if b =? 237 then 159 else 191)))
  else if (240 <=? b) && (b <=? 244) then
    ([], Some (Z.land b 7, 3%nat,
               (if b =? 240 then 144 else 128), (if b =? 244 then 143 else 191)))
  else ([65533], None).

(** A byte outside the bounds ends the pending sequence with U+FFFD and
    is then read again as the start of a sequence; a sequence cut short
    by the end of the input gives U+FFFD. *)
Fixpoint utf8_decode (pending : option utf8_pending) (bs : list Z) : list Z :=
  match bs with
  | [] => match pending with None => [] | Some _ => [65533] end
  | b :: rest =>
      match pending with
      | None => fst (utf8_start b) ++ utf8_decode (snd (utf8_start b)) rest
      | Some (cp, n, lo, hi) =>
          if (lo <=? b) && (b <=? hi) then
            match n with
            | S (S n') =>
                utf8_decode (Some (cp * 64 + Z.land b 63, S n', 128, 191)) rest
            | _ => (cp * 64 + Z.land b 63) :: utf8_decode None rest
            end
          else 65533 :: fst (utf8_start b)
                     ++ utf8_decode (snd (utf8_start b)) rest
      end
  end.

Definition code_units (cp : Z) : jsstring :=
  if cp <? 65536 then [cp]
  else [55296 + (cp - 65536) / 1024; 56320 + (cp - 65536) mod 1024].

(** [new TextDecoder().decode(data)]: a leading byte order mark is
    dropped. *)
Definition TextDecoder_decode (data : bytes) : jsstring :=
  let zs := map byte_to_Z data in
  let zs' := match zs with
             | b0 :: b1 :: b2 :: rest =>
                 if (b0 =? 239) && (b1 =? 187) && (b2 =? 191) then rest else zs
             | _ => zs
             end in
  flat_map code_units (utf8_decode None zs').

End JS.

(* ================================================================== *)
(** * Asynchronous computations over the platform's random source *)

(** The random source is an unbounded supply of bytes; a draw consumes a
    prefix of it. *)
Definition Entropy := nat -> byte.

Definition Async (A : Type) := Entropy -> result A * Entropy.

Definition ret {A} (a : A) : Async A := fun e => (Ok a, e).

Definition throw {A} (x : exn) : Async A := fun e => (Throw x, e).

(** [await]: a rejection propagates to the caller. *)
Definition bind {A B} (m : Async A) (k : A -> Async B) : Async B :=
  fun e => match m e with
           | (Ok a, e') => k a e'
           | (Throw x, e') => (Throw x, e')
           end.

(** A synchronous call that may throw, or an already settled promise. *)
Definition lift {A} (r : result A) : Async A := fun e => (r, e).

(** [try { body } catch (error) { handler }]. *)
Definition try_catch {A} (body : Async A) (handler : exn -> Async A) : Async A :=
  fun e => match body e with
           | (Ok a, e') => (Ok a, e')
           | (Throw x, e') => handler x e'
           end.

Notation "x <- m ;; k" := (bind m (fun x => k))
  (at level 61, m at next level, right associativity).

(** [crypto.getRandomValues(new Uint8Array(n))]. *)
Definition getRandomValues (n : nat) : Async bytes :=
  fun e => (Ok (map e (seq 0 n)), fun i => e (i + n)%nat).

Definition run {A} (m : Async A) (e : Entropy) : result A := fst (m e).

(* ================================================================== *)
(** * The Web Cryptography API, as far as the application calls it *)

Module WebCrypto.

Inductive KeyUsage := encrypt_usage | decrypt_usage | deriveBits_usage | deriveKey_usage.

Inductive AlgorithmName := PBKDF2_name | HKDF_name | AES_GCM_name.

Definition usage_eqb (a b : KeyUsage) : bool :=
  match a, b with
  | encrypt_usage, encrypt_usage | decrypt_usage, decrypt_usage
  | deriveBits_usage, deriveBits_usage | deriveKey_usage, deriveKey_usage => true
  | _, _ => false
  end.

Definition name_eqb (a b : AlgorithmName) : bool :=
  match a, b with
  | PBKDF2_name, PBKDF2_name | HKDF_name, HKDF_name
  | AES_GCM_name, AES_GCM_name => true
  | _, _ => false
  end.

Definition has_usage (u : KeyUsage) (us : list KeyUsage) : bool :=
  existsb (usage_eqb u) us.

Record CryptoKey := mkKey {
  key_algorithm : AlgorithmName;
  key_extractable : bool;
  key_usages : list KeyUsage;
  key_data : bytes
}.

(** The hash of every derivation in the application is SHA-256, the
    only one modelled. *)
Inductive DeriveParams :=
| Pbkdf2Params (salt : bytes) (iterations : N)
| HkdfParams (salt info : bytes).

Definition params_name (p : DeriveParams) : AlgorithmName :=
  match p with
  | Pbkdf2Params _ _ => PBKDF2_name
  | HkdfParams _ _ => HKDF_name
  end.

Definition SyntaxError := DOMException "SyntaxError".
Definition DataError := DOMException "DataError".
Definition OperationError := DOMException "OperationError".
Definition InvalidAccessError := DOMException "InvalidAccessError".

Definition allowed_usage (alg : AlgorithmName) (u : KeyUsage) : bool :=
  match alg with
  | AES_GCM_name => usage_eqb u encrypt_usage || usage_eqb u decrypt_usage
  | _ => usage_eqb u deriveBits_usage || usage_eqb u deriveKey_usage
  end.

(** [crypto.subtle.importKey('raw', data, alg, extractable, usages)]. *)
Definition importKey (data : bytes) (alg : AlgorithmName)
           (extractable : bool) (usages : list KeyUsage) : result CryptoKey :=
  if negb (forallb (allowed_usage alg) usages) then Throw SyntaxError
  else
    match alg with
    | AES_GCM_name =>
        let bits := (8 * length data)%nat in
        if negb (Nat.eqb bits 128 || Nat.eqb bits 192 || Nat.eqb bits 256)
        then Throw DataError
        else if Nat.eqb (length usages) 0 then Throw SyntaxError
        else Ok (mkKey alg extractable usages data)
    | _ =>
        if extractable then Throw SyntaxError
        else if Nat.eqb (length usages) 0 then Throw SyntaxError
        else Ok (mkKey alg extractable usages data)
    end.

(** The derive-bits operation of PBKDF2 and HKDF. *)
Definition derive_bits_op (p : DeriveParams) (key : CryptoKey)
           (bits : nat) : result bytes :=
  if Nat.eqb bits 0 || negb (Nat.eqb (Nat.modulo bits 8) 0)
  then Throw OperationError
  else
    match p with
    | Pbkdf2Params salt iterations =>
        if (iterations =? 0)%N then Throw OperationError
        else Ok (PBKDF2.derive (key_data key) salt iterations (Nat.div bits 8))
    | HkdfParams salt info =>
        if Nat.ltb (255 * HKDF.hashLen) (Nat.div bits 8)
        then Throw OperationError
        else Ok (HKDF.derive salt (key_data key) info (Nat.div bits 8))
    end.

(** [crypto.subtle.deriveBits(params, baseKey, length)]. *)
Definition deriveBits (p : DeriveParams) (baseKey : CryptoKey)
           (bits : nat) : result bytes :=
  if negb (name_eqb (params_name p) (key_algorithm baseKey))
  then Throw InvalidAccessError
  else if negb (has_usage deriveBits_usage (key_usages baseKey))
  then Throw InvalidAccessError
  else derive_bits_op p baseKey bits.

(** [crypto.subtle.deriveKey(params, baseKey, {name: 'AES-GCM', length},
    extractable, usages)]. *)
Definition deriveKey (p : DeriveParams) (baseKey : CryptoKey)
           (aes_length : nat) (extractable : bool)
           (usages : list KeyUsage) : result CryptoKey :=
  if negb (name_eqb (params_name p) (key_algorithm baseKey))
  then Throw InvalidAccessError
  else if negb (has_usage deriveKey_usage (key_usages baseKey))
  then Throw InvalidAccessError
  else if negb (Nat.eqb aes_length 128 || Nat.eqb aes_length 192
                || Nat.eqb aes_length 256)
  then Throw OperationError
  else
    match derive_bits_op p baseKey aes_length with
    | Throw x => Throw x
    | Ok secret => importKey secret AES_GCM_name extractable usages
    end.

Definition valid_tag_length (t : nat) : bool :=
  existsb (Nat.eqb t) [32; 64; 96; 104; 112; 120; 128]%nat.

(** [crypto.subtle.encrypt({name: 'AES-GCM', iv, tagLength}, key, data)]
    without additional data: the ciphertext followed by the tag.  The
    bound of 2^39 - 256 bytes on the data is far above the size of any
    typed array and is not modelled. *)
Definition encrypt (iv : bytes) (tagLength : nat) (key : CryptoKey)
           (data : bytes) : result bytes :=
  if negb (name_eqb AES_GCM_name (key_algorithm key))
  then Throw InvalidAccessError
  else if negb (has_usage encrypt_usage (key_usages key))
  then Throw InvalidAccessError
  else if negb (valid_tag_length tagLength) then Throw OperationError
  else
    let (C, T) := GCM.encrypt (key_data key) iv [] data (Nat.div tagLength 8) in
    Ok (C ++ T).

(** [crypto.subtle.decrypt({name: 'AES-GCM', iv, tagLength}, key, data)]:
    the tag is the last [tagLength] bits of [data]. *)
Definition decrypt (iv : bytes) (tagLength : nat) (key : CryptoKey)
           (data : bytes) : result bytes :=
  if negb (name_eqb AES_GCM_name (key_algorithm key))
  then Throw InvalidAccessError
  else if negb (has_usage decrypt_usage (key_usages key))
  then Throw InvalidAccessError
  else if negb (valid_tag_length tagLength) then Throw OperationError
  else if Nat.ltb (length data) (Nat.div tagLength 8) then Throw OperationError
  else
    let n := (length data - Nat.div tagLength 8)%nat in
    match GCM.decrypt (key_data key) iv [] (firstn n data) (skipn n data) with
    | Some plaintext => Ok plaintext
    | None => Throw OperationError
    end.

(** [crypto.subtle.digest('SHA-256', data)]. *)
Definition digest (data : bytes) : bytes := SHA256.hash data.

End WebCrypto.

(* ================================================================== *)
(** * [src/app/lib/crypto.ts]: AES-256-GCM encryption for NFC wallet storage *)

Module Crypto.
Import WebCrypto.

(** [iterations: 100000].  The constant is sealed: it unfolds by the
    equation [ITERATIONS_eq] only, so that no conversion ever starts the
    hundred thousand iterations of the key derivation. *)
Definition ITERATIONS_seal : sealed 100000%N.
Proof. exists 100000%N. reflexivity. Qed.

Definition ITERATIONS : N := unseal ITERATIONS_seal.

(** Derive encryption key from PIN using PBKDF2. *)
Definition deriveKeyFromPIN (pin : jsstring) : Async CryptoKey :=
  let pinData := JS.TextEncoder_encode pin in
  keyMaterial <- lift (importKey pinData PBKDF2_name false
                                 [deriveBits_usage; deriveKey_usage]) ;;
  key <- lift (deriveKey
                 (Pbkdf2Params
                    (JS.TextEncoder_encode (str "nfc-smart-account-salt"))
                    ITERATIONS)
                 keyMaterial 256 false [encrypt_usage; decrypt_usage]) ;;
  ret key.

(** Encrypt data with PIN using AES-256-GCM.  The limit that engines put
    on the number of arguments of [String.fromCharCode(...combined)] is
    not modelled. *)
Definition encryptWithPIN (data : bytes) (pin : jsstring) : Async jsstring :=
  key <- deriveKeyFromPIN pin ;;
  iv <- getRandomValues 12 ;;
  encrypted <- lift (encrypt iv 128 key data) ;;
  let encryptedArray := encrypted in
  combined0 <- lift (JS.typed_set (repeat x00 (12 + length encryptedArray)) iv 0) ;;
  combined <- lift (JS.typed_set combined0 encryptedArray 12) ;;
  lift (JS.btoa (JS.fromCharCode combined)).

Definition AuthenticationError : exn :=
  Error "Decryption failed: Incorrect PIN or corrupted data".

(** Decrypt data with PIN using AES-256-GCM. *)
Definition decryptWithPIN (encryptedBase64 pin : jsstring) : Async bytes :=
  binary <- lift (JS.atob encryptedBase64) ;;
  let combined := JS.charCodes binary in
  let iv := firstn 12 combined in
  let encrypted := skipn 12 combined in
  key <- deriveKeyFromPIN pin ;;
  try_catch
    (decrypted <- lift (decrypt iv 128 key encrypted) ;;
     ret decrypted)
    (fun _ => throw AuthenticationError).

Definition WALLET_PREFIX : jsstring := str "SOL1:".

Definition FormatError : exn :=
  Error "Invalid wallet data format. Not a Solana NFC wallet.".

Definition encodeWalletData (encryptedKey : jsstring) : jsstring :=
  WALLET_PREFIX ++ encryptedKey.

Definition decodeWalletData (text : jsstring) : result jsstring :=
  let trimmed := JS.trim text in
  if negb (JS.startsWith trimmed WALLET_PREFIX)
  then Throw FormatError
  else Ok (JS.slice_from trimmed (length WALLET_PREFIX)).

Definition isWalletData (text : jsstring) : bool :=
  JS.startsWith (JS.trim text) WALLET_PREFIX.

End Crypto.

(* ================================================================== *)
(** * [src/unnamed/part_000] ([../lib/seed]): seed generation and HKDF
      key derivation for smart accounts *)

Module Seed.
Import WebCrypto.

Definition generateSeed : Async bytes := getRandomValues 32.

(** HKDF key derivation using the Web Crypto API; [length] is in
    bytes. *)
Definition hkdfDerive (seed : bytes) (info : jsstring) (length : nat)
  : Async bytes :=
  let seedBuffer := seed in
  keyMaterial <- lift (importKey seedBuffer HKDF_name false [deriveBits_usage]) ;;
  let saltBuffer := repeat x00 32 in
  let infoEncoded := JS.TextEncoder_encode info in
  derivedBits <- lift (deriveBits (HkdfParams saltBuffer infoEncoded)
                                  keyMaterial (length * 8)) ;;
  ret derivedBits.

Definition deriveEthPrivateKey (seed : bytes) : Async bytes :=
  hkdfDerive seed (str "ethereum") 32.

Definition deriveSolPrivateKey (seed : bytes) : Async bytes :=
  hkdfDerive seed (str "solana") 32.

Definition SEED_PREFIX : jsstring := str "SEED1:".

Definition FormatError : exn :=
  Error "Invalid seed data format. Not a smart account NFC tag.".

Definition encodeSeedData (encryptedSeed : jsstring) : jsstring :=
  SEED_PREFIX ++ encryptedSeed.

Definition decodeSeedData (text : jsstring) : result jsstring :=
  let trimmed := JS.trim text in
  if negb (JS.startsWith trimmed SEED_PREFIX)
  then Throw FormatError
  else Ok (JS.slice_from trimmed (length SEED_PREFIX)).

Definition isSeedData (text : jsstring) : bool :=
  JS.startsWith (JS.trim text) SEED_PREFIX.

(** Convert Uint8Array to hex string (for ETH private key). *)
Definition bytesToHex (data : bytes) : jsstring :=
  str "0x"
    ++ concat (map (fun b => JS.padStart (JS.toString16 (byte_to_Z b)) 2 48)
                   data).

End Seed.

(* ================================================================== *)
(** * [src/app/lib/swig.ts], second document: simple fast encryption *)

Module XorCrypto.

(** Simple hash function for PIN. *)
Definition hashPIN (pin : jsstring) : Async bytes :=
  let data := JS.TextEncoder_encode pin in
  hashBuffer <- ret (WebCrypto.digest data) ;;
  ret hashBuffer.

(** [key[i % key.length]]: with an empty key the index is [NaN] and
    the element [undefined]. *)
Definition key_at (key : bytes) (i : nat) : option byte :=
  if Nat.eqb (length key) 0 then None
  else nth_error key (Nat.modulo i (length key)).

(** [data[i] ^ k] stored into a [Uint8Array]; [undefined] counts as 0. *)
Definition xor_elem (d : byte) (k : option byte) : byte :=
  Z_to_byte (Z.lxor (byte_to_Z d)
                    (match k with Some b => byte_to_Z b | None => 0 end)).

(** XOR encrypt/decrypt (symmetric). *)
Definition xorCrypt (data key : bytes) : bytes :=
  map (fun i => xor_elem (nth i data x00) (key_at key i))
      (seq 0 (length data)).

Definition encryptWithPIN (data : bytes) (pin : jsstring) : Async jsstring :=
  key <- hashPIN pin ;;
  let encrypted := xorCrypt data key in
  lift (JS.btoa (JS.fromCharCode encrypted)).

Definition decryptWithPIN (encryptedBase64 pin : jsstring) : Async bytes :=
  binary <- lift (JS.atob encryptedBase64) ;;
  let encrypted := JS.charCodes binary in
  key <- hashPIN pin ;;
  ret (xorCrypt encrypted key).

Definition WALLET_PREFIX : jsstring := str "SOL1:".

Definition FormatError : exn :=
  Error "Invalid wallet data format. Not a Solana NFC wallet.".

Definition encodeWalletData (encryptedKey : jsstring) : jsstring :=
  WALLET_PREFIX ++ encryptedKey.

Definition decodeWalletData (text : jsstring) : result jsstring :=
  let trimmed := JS.trim text in
  if negb (JS.startsWith trimmed WALLET_PREFIX)
  then Throw FormatError
  else Ok (JS.slice_from trimmed (length WALLET_PREFIX)).

Definition isWalletData (text : jsstring) : bool :=
  JS.startsWith (JS.trim text) WALLET_PREFIX.

End XorCrypto.

(* ================================================================== *)
(** * [src/app/lib/swig.ts], first document: [keypairFromSeed] *)

Module Swig.

Definition InputError : exn := Error "Seed must be exactly 32 bytes".

Section WithKeypair.
(** [Keypair.fromSeed] of [@solana/web3.js]. *)
Variable Keypair : Type.
Variable Keypair_fromSeed : bytes -> result Keypair.

(** Create Keypair from 32-byte seed. *)
Definition keypairFromSeed (seed : bytes) : result Keypair :=
  if negb (Nat.eqb (length seed) 32) then Throw InputError
  else Keypair_fromSeed seed.
End WithKeypair.

End Swig.

(* ================================================================== *)
(** * [src/app/lib/nfc.ts]: the writers *)

Module NFC.

Inductive RecordData :=
| StringData (s : jsstring)
| BufferData (b : bytes).

Record NDEFRecordInit := mkRecordInit {
  recordType : jsstring;
  mediaType : option jsstring;
  data : RecordData;
  lang : option jsstring
}.

(** The [records] of an [NDEFMessageInit]. *)
Definition NDEFMessageInit : Type := list NDEFRecordInit.

(** The browser as the module sees it: [window] is absent outside a
    browser and otherwise tells whether it has [NDEFReader]; [tag] is
    how a write of a message settles, [None] for success; [written]
    lists the messages pushed so far, the latest first. *)
Record Browser := mkBrowser {
  window : option bool;
  tag : NDEFMessageInit -> option exn;
  written : list NDEFMessageInit
}.

Definition NFC (A : Type) : Type := Browser -> result A * Browser.

(** Check if Web NFC is supported. *)
Definition isNFCSupported (b : Browser) : bool :=
  match window b with
  | Some hasNDEFReader => hasNDEFReader
  | None => false
  end.

Definition NotSupported : exn :=
  Error "Web NFC is not supported on this browser. Please use Chrome 89+ on Android.".

(** [await reader.write({ records })]. *)
Definition reader_write (records : NDEFMessageInit) : NFC unit :=
  fun b =>
    match tag b records with
    | None => (Ok tt, mkBrowser (window b) (tag b) (records :: written b))
    | Some x => (Throw x, b)
    end.

(** A string is truthy when it is present and not empty. *)
Definition truthy (s : option jsstring) : bool :=
  match s with
  | Some (_ :: _) => true
  | _ => false
  end.

Definition text_of (s : option jsstring) : jsstring :=
  match s with
  | Some t => t
  | None => []
  end.

(** Write Text to NFC Tag; [lang] defaults to [en]. *)
Definition writeTextToNFC (text : jsstring) (lang : option jsstring) : NFC unit :=
  fun b =>
    if negb (isNFCSupported b) then (Throw NotSupported, b)
    else
      reader_write
        [mkRecordInit (str "text") None (StringData text)
           (Some (match lang with Some l => l | None => str "en" end))] b.

(** Write URL to NFC Tag. *)
Definition writeURLToNFC (url : jsstring) : NFC unit :=
  fun b =>
    if negb (isNFCSupported b) then (Throw NotSupported, b)
    else reader_write [mkRecordInit (str "url") None (StringData url) None] b.

(** Write Email to NFC Tag. *)
Definition writeEmailToNFC (email : jsstring) (subject body : option jsstring)
  : NFC unit :=
  fun b =>
    if negb (isNFCSupported b) then (Throw NotSupported, b)
    else
      let mailtoUrl := str "mailto:" ++ email in
      match (if truthy subject
             then match JS.encodeURIComponent (text_of subject) with
                  | Ok s => Ok [str "subject=" ++ s]
                  | Throw x => Throw x
                  end
             else Ok []) with
      | Throw x => (Throw x, b)
      | Ok params =>
          match (if truthy body
                 then match JS.encodeURIComponent (text_of body) with
                      | Ok s => Ok (params ++ [str "body=" ++ s])
                      | Throw x => Throw x
                      end
                 else Ok params) with
          | Throw x => (Throw x, b)
          | Ok params =>
              let mailtoUrl :=
                if Nat.ltb 0 (length params)
                then mailtoUrl ++ str "?" ++ JS.join params (str "&")
                else mailtoUrl in
              reader_write
                [mkRecordInit (str "url") None (StringData mailtoUrl) None] b
          end
      end.

(** Write Phone Number to NFC Tag. *)
Definition writePhoneToNFC (phone : jsstring) : NFC unit :=
  fun b =>
    if negb (isNFCSupported b) then (Throw NotSupported, b)
    else
      reader_write
        [mkRecordInit (str "url") None (StringData (str "tel:" ++ phone)) None] b.

(** Write SMS to NFC Tag. *)
Definition writeSMSToNFC (phone : jsstring) (message : option jsstring)
  : NFC unit :=
  fun b =>
    if negb (isNFCSupported b) then (Throw NotSupported, b)
    else
      let smsUrl := str "sms:" ++ phone in
      match (if truthy message
             then match JS.encodeURIComponent (text_of message) with
                  | Ok s => Ok (smsUrl ++ str "?body=" ++ s)
                  | Throw x => Throw x
                  end
             else Ok smsUrl) with
      | Throw x => (Throw x, b)
      | Ok smsUrl =>
          reader_write
            [mkRecordInit (str "url") None (StringData smsUrl) None] b
      end.

Inductive AuthType := WPA | WEP | nopass.

Definition authType_text (a : AuthType) : jsstring :=
  match a with
  | WPA => str "WPA"
  | WEP => str "WEP"
  | nopass => str "nopass"
  end.

(** Write WiFi to NFC Tag (using MIME type); [authType] defaults to
    [WPA]. *)
Definition writeWiFiToNFC (ssid password : jsstring) (authType : option AuthType)
  : NFC unit :=
  fun b =>
    if negb (isNFCSupported b) then (Throw NotSupported, b)
    else
      let wifiConfig :=
        str "WIFI:T:"
          ++ authType_text (match authType with Some a => a | None => WPA end)
          ++ str ";S:" ++ ssid ++ str ";P:" ++ password ++ str ";;" in
      reader_write
        [mkRecordInit (str "mime") (Some (str "application/vnd.wfa.wsc"))
           (BufferData (JS.TextEncoder_encode wifiConfig)) None] b.

End NFC.

(* ================================================================== *)
(** * [src/app/smartaccounts/page.tsx]: reading the seed back from a tag *)

Module SmartAccountsPage.

(** A record of the message that a reading event carries; [data] is
    absent for an empty record. *)
Record NDEFRecord := mkRecord {
  recordType : jsstring;
  mediaType : option jsstring;
  data : option bytes
}.

Definition NoSeedError : exn := Error "No smart account seed found on NFC tag".

(** The [onreading] handler of [handleSignEth] and [handleSignSol]: the
    promise resolves with the text of the first record that has data and
    whose text starts with [SEED1:], and rejects when there is none. *)
Fixpoint onreading (records : list NDEFRecord) : result jsstring :=
  match records with
  | [] => Throw NoSeedError
  | record :: rest =>
      match data record with
      | Some d =>
          let text := JS.TextDecoder_decode d in
          if JS.startsWith text (str "SEED1:") then Ok text else onreading rest
      | None => onreading rest
      end
  end.

Definition IncorrectPIN : exn := Error "Incorrect PIN".

(** The decryption step of both sign handlers: [decodeSeedData], then
    [decryptWithPIN] inside a [try] whose [catch] throws
    [Incorrect PIN]. *)
Definition decryptSeed (seedData pin : jsstring) : Async bytes :=
  encryptedSeed <- lift (Seed.decodeSeedData seedData) ;;
  try_catch (Crypto.decryptWithPIN encryptedSeed pin)
            (fun _ => throw IncorrectPIN).

(** The record that [handleCreateAccounts] writes to the tag, as a
    reading event carries it afterwards: a tag gives back the bytes
    that were written. *)
Definition seedRecord (seedData : jsstring) : NDEFRecord :=
  mkRecord (str "mime") (Some (str "application/x-smart-account-seed"))
           (Some (JS.TextEncoder_encode seedData)).

End SmartAccountsPage.

(* ================================================================== *)
(** * Reference definitions, written from the specification's words *)

Module Reference.

(** PBKDF2 of RFC 8018 for a derived key of one hash length:
    [T_1 = U_1 xor U_2 xor ... xor U_c] with
    [U_1 = PRF (P, S || INT (1))] and [U_j = PRF (P, U_{j-1})].
    [U P S j] is [U_{j+1}]. *)
Fixpoint U (P S : bytes) (j : nat) : bytes :=
  match j with
  | O => HMAC.hmac P (S ++ [x00; x00; x00; x01])
  | S j' => HMAC.hmac P (U P S j')
  end.

Definition PBKDF2_HMAC_SHA256 (P S : bytes) (c : N) : bytes :=
  fold_left xor_bytes (map (U P S) (seq 1 (N.to_nat c - 1))) (U P S 0).

(** The chain key: HKDF-SHA-256 (RFC 5869) with an all-zero salt of one
    hash length and the label as [info], for an output of one hash
    length: [PRK = HMAC (salt, seed)], [OKM = T(1) = HMAC (PRK, info || 0x01)]. *)
Definition chainKey (seed : bytes) (label : jsstring) : bytes :=
  HMAC.hmac (HMAC.hmac (repeat x00 32) seed)
            (JS.TextEncoder_encode label ++ [x01]).

End Reference.

(* ================================================================== *)
(** * Intermediate values of the AES-GCM variant, named for the statements *)

(** The key material that [Crypto.deriveKeyFromPIN] asks the platform to
    derive. *)
Definition pin_key_data (pin : jsstring) : bytes :=
  PBKDF2.derive (JS.TextEncoder_encode pin)
                (JS.TextEncoder_encode (str "nfc-smart-account-salt"))
                Crypto.ITERATIONS 32.

Definition pin_key (pin : jsstring) : WebCrypto.CryptoKey :=
  WebCrypto.mkKey WebCrypto.AES_GCM_name false
                  [WebCrypto.encrypt_usage; WebCrypto.decrypt_usage]
                  (pin_key_data pin).

(** Ciphertext and tag of [data] under the PIN's key and the nonce [iv]. *)
Definition pin_ciphertext (pin : jsstring) (iv data : bytes) : bytes :=
  fst (GCM.encrypt (pin_key_data pin) iv [] data 16).

Definition pin_tag (pin : jsstring) (iv ciphertext : bytes) : bytes :=
  GCM.tag (pin_key_data pin) iv [] ciphertext 16.

(** The base64 text of a byte string, which is what
    [btoa(String.fromCharCode(...bs))] returns. *)
Definition base64 (bs : bytes) : jsstring :=
  map JS.b64_char (JS.to_sextets (JS.fromCharCode bs))
    ++ JS.padding (length (JS.fromCharCode bs)).

(** Nonce, ciphertext and tag, as [encryptWithPIN] lays them out. *)
Definition token_bytes (pin : jsstring) (iv data : bytes) : bytes :=
  iv ++ pin_ciphertext pin iv data
     ++ pin_tag pin iv (pin_ciphertext pin iv data).

(** What [Crypto.decryptWithPIN] returns or throws once the token is
    decoded to [combined]. *)
Definition open_combined (pin : jsstring) (combined : bytes) : result bytes :=
  match WebCrypto.decrypt (firstn 12 combined) 128 (pin_key pin)
                          (skipn 12 combined) with
  | Ok plaintext => Ok plaintext
  | Throw _ => Throw Crypto.AuthenticationError
  end.

(** The random supply after a draw of [n] bytes. *)
Definition after_draw (n : nat) (e : Entropy) : Entropy :=
  fun i => e (i + n)%nat.

(* ================================================================== *)
(** * The messages that the derivation of a chain key hashes *)

(** [Reference.chainKey seed label] is the SHA-256 digest of
    [chain_outer seed label], which ends in the digest of
    [chain_inner seed label]: the two hashes of the HMAC of the expand
    step, keyed with the pseudorandom key of the seed. *)
Definition chain_inner (seed : bytes) (label : jsstring) : bytes :=
  xor_bytes (HMAC.block_key (HMAC.hmac (repeat x00 32) seed)) HMAC.ipad
    ++ JS.TextEncoder_encode label ++ [x01].

Definition chain_outer (seed : bytes) (label : jsstring) : bytes :=
  xor_bytes (HMAC.block_key (HMAC.hmac (repeat x00 32) seed)) HMAC.opad
    ++ SHA256.hash (chain_inner seed label).

(* ================================================================== *)
(** * Tokens *)

(** A token is base64 text: letters, digits, [+], [/] and [=]. *)
Definition is_base64_char (c : Z) : bool :=
  match JS.b64_value c with
  | Some _ => true
  | None => c =? 61
  end.

Definition is_token (t : jsstring) : bool := forallb is_base64_char t.

(* ================================================================== *)
(** * Ranges *)

Definition is_byte_value (z : Z) : Prop := 0 <= z < 256.
Definition is_sextet (z : Z) : Prop := 0 <= z < 64.
Definition is_ascii (c : Z) : Prop := 0 <= c < 128.

(** A lowercase hexadecimal digit. *)
Definition is_hex_digit (c : Z) : Prop := 48 <= c <= 57 \/ 97 <= c <= 102.

(** Two lowercase hexadecimal digits for each byte. *)
Definition hex_pairs (data : bytes) : jsstring :=
  flat_map (fun b => [JS.hex_char (byte_to_Z b / 16);
                      JS.hex_char (byte_to_Z b mod 16)]) data.

(** Strings made of the white space that [trim] removes. *)
Definition all_white (w : jsstring) : Prop :=
  Forall (fun c => JS.is_white_space c = true) w.

(** A character that [encodeURIComponent] can produce: unreserved, [%]
    or an uppercase hexadecimal digit. *)
Definition is_uri_safe (c : Z) : Prop :=
  JS.is_unreserved c = true \/ c = 37 \/ 48 <= c <= 57 \/ 65 <= c <= 70.

(** The characters [?], [&], [=], [#] and the space, which delimit the
    parts of a URL and of its query. *)
Definition is_delimiter (c : Z) : bool :=
  (c =? 63) || (c =? 38) || (c =? 61) || (c =? 35) || (c =? 32).

(** The number of occurrences of a code unit in a string. *)
Definition count (c : Z) (s : jsstring) : nat := count_occ Z.eq_dec s c.

(** The record of the [url] writers of [nfc.ts]. *)
Definition url_record (url : jsstring) : NFC.NDEFRecordInit :=
  NFC.mkRecordInit (str "url") None (NFC.StringData url) None.

(** A browser with Web NFC and a tag that takes every message. *)
Definition chrome_on_android : NFC.Browser :=
  NFC.mkBrowser (Some true) (fun _ => None) [].

(** JavaScript outside a browser: no [window]. *)
Definition server_side : NFC.Browser :=
  NFC.mkBrowser None (fun _ => None) [].

(** Linear arithmetic with division and remainder by constants. *)
Ltac div_lia := cbv beta in *; Z.div_mod_to_equations; lia.

(* ================================================================== *)
(** * Successive calls *)

(** [n] successive calls of the same asynchronous operation; the first
    rejection ends the run. *)
Fixpoint successively {A} (n : nat) (m : Async A) : Async (list A) :=
  match n with
  | O => ret []
  | S n' => x <- m ;; xs <- successively n' m ;; ret (x :: xs)
  end.

(** The [k]-th block of twelve bytes of the random supply: the nonce that
    the [k]-th of successive [encryptWithPIN] calls draws. *)
Definition nonce_at (e : Entropy) (k : nat) : bytes :=
  map e (seq (12 * k) 12).

Definition nonces (n : nat) (e : Entropy) : list bytes :=
  map (nonce_at e) (seq 0 n).

(** A random supply whose twelve-byte blocks spell the block number. *)
Definition counting_entropy : Entropy :=
  fun i => Z_to_byte (Z.of_nat (Nat.div i 12) / 256 ^ Z.of_nat (Nat.modulo i 12)).

Definition zero_entropy : Entropy := fun _ => x00.

Fixpoint nodupb (l : list bytes) : bool :=
  match l with
  | [] => true
  | x :: rest => negb (existsb (bytes_eqb x) rest) && nodupb rest
  end.

(* ================================================================== *)
(** * Test vectors for the platform model *)

Example sha256_K_first_last :
  nth 0 SHA256.K 0 = 0x428a2f98 /\ nth 63 SHA256.K 0 = 0xc67178f2
  /\ nth 0 SHA256.H0 0 = 0x6a09e667 /\ nth 7 SHA256.H0 0 = 0x5be0cd19.
Proof. vm_compute. repeat split. Qed.

Example sha256_abc :
  SHA256.hash (ascii_bytes "abc")
  = hex "ba7816bf8f01cfea414140de5dae2223b00361a396177a9cb410ff61f20015ad".
Proof. vm_compute. reflexivity. Qed.

Example sha256_empty :
  SHA256.hash []
  = hex "e3b0c44298fc1c149afbf4c8996fb92427ae41e4649b934ca495991b7852b855".
Proof. vm_compute. reflexivity. Qed.

Example sha256_two_blocks :
  SHA256.hash
    (ascii_bytes "abcdbcdecdefdefgefghfghighijhijkijkljklmklmnlmnomnopnopq")
  = hex "248d6a61d20638b8e5c026930c3e6039a33ce45964ff2167f6ecedd419db06c1".
Proof. vm_compute. reflexivity. Qed.

Example hmac_rfc4231_case1 :
  HMAC.hmac (repeat x0b 20) (ascii_bytes "Hi There")
  = hex "b0344c61d8db38535ca8afceaf0bf12b881dc200c9833da726e9376c2e32cff7".
Proof. vm_compute. reflexivity. Qed.

Example hmac_rfc4231_case2 :
  HMAC.hmac (ascii_bytes "Jefe") (ascii_bytes "what do ya want for nothing?")
  = hex "5bdcc146bf60754e6a042426089575c75a003f089d2739839dec58b964ec3843".
Proof. vm_compute. reflexivity. Qed.

Example hmac_rfc4231_case6 :
  HMAC.hmac (repeat xaa 131)
    (ascii_bytes "Test Using Larger Than Block-Size Key - Hash Key First")
  = hex "60e431591ee0b67f0d8a26aacbf5b77f8e0bc6213728c5140546040f0ee37f54".
Proof. vm_compute. reflexivity. Qed.

Example pbkdf2_one_iteration :
  PBKDF2.derive (ascii_bytes "password") (ascii_bytes "salt") 1 32
  = hex "120fb6cffcf8b32c43e7225256c4f837a86548c92ccc35480805987cb70be17b".
Proof. vm_compute. reflexivity. Qed.

Example pbkdf2_two_iterations :
  PBKDF2.derive (ascii_bytes "password") (ascii_bytes "salt") 2 32
  = hex "ae4d0c95af6b46d32d0adff928f06dd02a303f8ef3c251dfd6e2d85a95474c43".
Proof. vm_compute. reflexivity. Qed.

Example hkdf_rfc5869_case1 :
  HKDF.derive (hex "000102030405060708090a0b0c") (repeat x0b 22)
    (hex "f0f1f2f3f4f5f6f7f8f9") 42
  = hex ("3cb25f25faacd57a90434f64d0362f2a2d2d0a90cf1a5a4c5db02d56ecc4c5bf"
         ++ "34007208d5b887185865").
Proof. vm_compute. reflexivity. Qed.

Example hkdf_rfc5869_case3 :
  HKDF.derive [] (repeat x0b 22) [] 42
  = hex ("8da4e775a563c18f715f802a063c5a31b8a11f5c5ee1879ec3454e5f3c738d2d"
         ++ "9d201395faa4b61a96c8").
Proof. vm_compute. reflexivity. Qed.

Example aes_sbox_samples :
  AES.sbox 0 = 0x63 /\ AES.sbox 0x53 = 0xed /\ AES.sbox 255 = 0x16.
Proof. vm_compute. repeat split. Qed.

Example aes128_fips197_c1 :
  AES.encrypt_block (hex "000102030405060708090a0b0c0d0e0f")
                    (hex "00112233445566778899aabbccddeeff")
  = hex "69c4e0d86a7b0430d8cdb78070b4c55a".
Proof. vm_compute. reflexivity. Qed.

Example aes256_fips197_c3 :
  AES.encrypt_block
    (hex "000102030405060708090a0b0c0d0e0f101112131415161718191a1b1c1d1e1f")
    (hex "00112233445566778899aabbccddeeff")
  = hex "8ea2b7ca516745bfeafc49904b496089".
Proof. vm_compute. reflexivity. Qed.

Example gcm_aes256_empty :
  GCM.encrypt (repeat x00 32) (repeat x00 12) [] [] 16
  = ([], hex "530f8afbc74536b9a963b4f1c4cb738b").
Proof. vm_compute. reflexivity. Qed.

Example gcm_aes256_one_block :
  GCM.encrypt (repeat x00 32) (repeat x00 12) [] (repeat x00 16) 16
  = (hex "cea7403d4d606b6e074ec5d3baf39d18",
     hex "d0d1c8a799996bf0265b98b5d48ab919").
Proof. vm_compute. reflexivity. Qed.

Example gcm_aes256_with_associated_data :
  GCM.encrypt
    (hex "feffe9928665731c6d6a8f9467308308feffe9928665731c6d6a8f9467308308")
    (hex "cafebabefacedbaddecaf888")
    (hex "feedfacedeadbeeffeedfacedeadbeefabaddad2")
    (hex ("d9313225f88406e5a55909c5aff5269a86a7a9531534f7da2e4c303d8a318a72"
          ++ "1c3c0c95956809532fcf0e2449a6b525b16aedf5aa0de657ba637b39"))
    16
  = (hex ("522dc1f099567d07f47f37a32a84427d643a8cdcbfe5c0c97598a2bd2555d1aa"
          ++ "8cb08e48590dbb3da7b08b1056828838c5f61e6393ba7a0abcc9f662"),
     hex "76fc6ece0f4e1768cddf8853bb2d551b").
Proof. vm_compute. reflexivity. Qed.

Example gcm_aes256_decrypt_rejects_flipped_tag :
  GCM.decrypt (repeat x00 32) (repeat x00 12) []
    (hex "cea7403d4d606b6e074ec5d3baf39d18")
    (hex "d0d1c8a799996bf0265b98b5d48ab918") = None
  /\ GCM.decrypt (repeat x00 32) (repeat x00 12) []
       (hex "cea7403d4d606b6e074ec5d3baf39d18")
       (hex "d0d1c8a799996bf0265b98b5d48ab919") = Some (repeat x00 16).
Proof. vm_compute. split; reflexivity. Qed.

Example gcm_aes256_short_iv :
  GCM.encrypt
    (hex "feffe9928665731c6d6a8f9467308308feffe9928665731c6d6a8f9467308308")
    (hex "cafebabefacedbad")
    (hex "feedfacedeadbeeffeedfacedeadbeefabaddad2")
    (hex ("d9313225f88406e5a55909c5aff5269a86a7a9531534f7da2e4c303d8a318a72"
          ++ "1c3c0c95956809532fcf0e2449a6b525b16aedf5aa0de657ba637b39"))
    16
  = (hex ("c3762df1ca787d32ae47c13bf19844cbaf1ae14d0b976afac52ff7d79bba9de0"
          ++ "feb582d33934a4f0954cc2363bc73f7862ac430e64abe499f47c9b1f"),
     hex "3a337dbf46a792c45e454913fe2ea8f2").
Proof. vm_compute. reflexivity. Qed.

Example utf8_samples :
  JS.TextEncoder_encode (str "1234") = hex "31323334"
  /\ JS.TextEncoder_encode [233] = hex "c3a9"
  /\ JS.TextEncoder_encode [8364] = hex "e282ac"
  /\ JS.TextEncoder_encode [55357; 56832] = hex "f09f9880"
  /\ JS.TextEncoder_encode [55357] = hex "efbfbd".
Proof. vm_compute. repeat split. Qed.

Example btoa_rfc4648 :
  JS.btoa (str "") = Ok (str "")
  /\ JS.btoa (str "f") = Ok (str "Zg==")
  /\ JS.btoa (str "fo") = Ok (str "Zm8=")
  /\ JS.btoa (str "foo") = Ok (str "Zm9v")
  /\ JS.btoa (str "foob") = Ok (str "Zm9vYg==")
  /\ JS.btoa (str "fooba") = Ok (str "Zm9vYmE=")
  /\ JS.btoa (str "foobar") = Ok (str "Zm9vYmFy").
Proof. vm_compute. repeat split. Qed.

Example atob_samples :
  JS.atob (str "Zm9vYmE=") = Ok (str "fooba")
  /\ JS.atob (str "Zm9v YmFy") = Ok (str "foobar")
  /\ JS.atob (str "Zg") = Ok (str "f")
  /\ JS.atob (str "Z") = Throw JS.InvalidCharacterError
  /\ JS.atob (str "Zg=") = Throw JS.InvalidCharacterError
  /\ JS.atob (str "Zm9v*") = Throw JS.InvalidCharacterError.
Proof. vm_compute. repeat split. Qed.

Example textdecoder_samples :
  JS.TextDecoder_decode (hex "53454544313a") = str "SEED1:"
  /\ JS.TextDecoder_decode (hex "e282ac") = [8364]
  /\ JS.TextDecoder_decode (hex "f09f9880") = [55357; 56832]
  /\ JS.TextDecoder_decode (hex "efbbbf41") = [65]
  /\ JS.TextDecoder_decode (hex "c080") = [65533; 65533]
  /\ JS.TextDecoder_decode (hex "e28241") = [65533; 65]
  /\ JS.TextDecoder_decode (hex "e282") = [65533]
  /\ JS.TextDecoder_decode (hex "eda080") = [65533; 65533; 65533]
  /\ JS.TextDecoder_decode (hex "f4908080") = [65533; 65533; 65533; 65533]
  /\ JS.TextDecoder_decode (hex "ff41") = [65533; 65].
Proof. vm_compute. repeat split. Qed.

Example encodeURIComponent_samples :
  JS.encodeURIComponent (str "Hello, World! a&b=c?d#e/f")
  = Ok (str "Hello%2C%20World!%20a%26b%3Dc%3Fd%23e%2Ff")
  /\ JS.encodeURIComponent [233; 8364; 55357; 56832]
     = Ok (str "%C3%A9%E2%82%AC%F0%9F%98%80")
  /\ JS.encodeURIComponent (str "-_.!~*'()") = Ok (str "-_.!~*'()")
  /\ JS.encodeURIComponent [97; 55357] = Throw JS.URIError
  /\ JS.encodeURIComponent [56832; 97] = Throw JS.URIError.
Proof. vm_compute. repeat split. Qed.

Example bytesToHex_samples :
  Seed.bytesToHex (hex "000fa0ff") = str "0x000fa0ff"
  /\ Seed.bytesToHex [] = str "0x".
Proof. vm_compute. repeat split. Qed.

Example trim_samples :
  JS.trim (str "  SOL1:abc ") = str "SOL1:abc"
  /\ JS.trim (9 :: 160 :: 65279 :: str "x y" ++ [8232; 10]) = str "x y"
  /\ JS.trim (str "   ") = [].
Proof. vm_compute. repeat split. Qed.

(* ================================================================== *)
(** * Bytes: conversions and xor *)

(** The primitives are never unfolded by simplification. *)
Arguments SHA256.hash : simpl never.
Arguments HMAC.hmac : simpl never.
Arguments PBKDF2.F : simpl never.
Arguments PBKDF2.derive : simpl never.
Arguments HKDF.derive : simpl never.
Arguments AES.encrypt_block : simpl never.
Arguments GCM.gctr : simpl never.
Arguments GCM.tag : simpl never.
Arguments GCM.J0 : simpl never.
Arguments GCM.inc32 : simpl never.
Arguments JS.TextEncoder_encode : simpl never.
Arguments Z_to_byte : simpl never.
Arguments byte_to_Z : simpl never.

Lemma Ok_inj {A} (a b : A) : Ok a = Ok b -> a = b.
Proof. intros H. injection H as H. exact H. Qed.

Lemma byte_to_Z_range (b : byte) : 0 <= byte_to_Z b < 256.
Proof.
  unfold byte_to_Z. pose proof (Byte.to_N_bounded b). lia.
Qed.

Lemma Z_to_byte_to_Z (b : byte) : Z_to_byte (byte_to_Z b) = b.
Proof.
  unfold Z_to_byte. pose proof (byte_to_Z_range b) as Hr.
  rewrite Z.mod_small by lia. unfold byte_to_Z.
  rewrite N2Z.id, Byte.of_to_N. reflexivity.
Qed.

Lemma byte_to_Z_to_byte (z : Z) : byte_to_Z (Z_to_byte z) = z mod 256.
Proof.
  unfold Z_to_byte, byte_to_Z.
  pose proof (Z.mod_pos_bound z 256 ltac:(lia)) as Hr.
  destruct (Byte.of_N (Z.to_N (z mod 256))) as [b|] eqn:E.
  - apply Byte.to_of_N in E. rewrite E. lia.
  - apply Byte.of_N_None_iff in E. lia.
Qed.

Lemma byte_to_Z_inj (a b : byte) : byte_to_Z a = byte_to_Z b -> a = b.
Proof.
  intros H. rewrite <- (Z_to_byte_to_Z a), <- (Z_to_byte_to_Z b), H. reflexivity.
Qed.

Lemma lxor_byte_range (x y : Z) :
  0 <= x < 256 -> 0 <= y < 256 -> 0 <= Z.lxor x y < 256.
Proof.
  intros Hx Hy.
  assert (Hnn : 0 <= Z.lxor x y) by (apply Z.lxor_nonneg; lia).
  split; [exact Hnn|].
  destruct (Z.eq_dec (Z.lxor x y) 0) as [->|Hz]; [lia|].
  change 256 with (2 ^ 8). apply Z.log2_lt_pow2; [lia|].
  pose proof (Z.log2_lxor x y ltac:(lia) ltac:(lia)) as Hl.
  assert (Z.log2 x < 8).
  { destruct (Z.eq_dec x 0) as [->|]; [simpl; lia|].
    apply Z.log2_lt_pow2; simpl; lia. }
  assert (Z.log2 y < 8).
  { destruct (Z.eq_dec y 0) as [->|]; [simpl; lia|].
    apply Z.log2_lt_pow2; simpl; lia. }
  lia.
Qed.

Lemma byte_xor_involutive (a b : byte) : byte_xor (byte_xor a b) b = a.
Proof.
  unfold byte_xor. rewrite byte_to_Z_to_byte.
  pose proof (byte_to_Z_range a). pose proof (byte_to_Z_range b).
  rewrite Z.mod_small by (apply lxor_byte_range; assumption).
  rewrite Z.lxor_assoc, Z.lxor_nilpotent, Z.lxor_0_r.
  apply Z_to_byte_to_Z.
Qed.

Lemma xor_bytes_length (data mask : bytes) :
  length (xor_bytes data mask) = length data.
Proof.
  revert mask. induction data as [|d ds IH]; intros [|m ms]; simpl; auto.
Qed.

Lemma xor_bytes_involutive (data mask : bytes) :
  xor_bytes (xor_bytes data mask) mask = data.
Proof.
  revert mask. induction data as [|d ds IH]; intros [|m ms]; simpl;
    try reflexivity.
  - f_equal. apply (IH []).
  - rewrite byte_xor_involutive. f_equal. apply IH.
Qed.

Lemma be_bytes_length (n : nat) (z : Z) : length (be_bytes n z) = n.
Proof. induction n; simpl; auto. Qed.

Lemma bytes_eqb_eq (a b : bytes) : bytes_eqb a b = true <-> a = b.
Proof.
  unfold bytes_eqb. destruct (list_eq_dec Byte.byte_eq_dec a b); split;
    intros; try assumption; try reflexivity; try discriminate; contradiction.
Qed.

Lemma bytes_eqb_refl (a : bytes) : bytes_eqb a a = true.
Proof. apply bytes_eqb_eq. reflexivity. Qed.

(* ================================================================== *)
(** * Output lengths of the primitives *)

Lemma sha256_length (msg : bytes) : length (SHA256.hash msg) = 32%nat.
Proof.
  unfold SHA256.hash, SHA256.digest_of.
  repeat rewrite length_app. repeat rewrite be_bytes_length. reflexivity.
Qed.

Lemma hmac_length (key msg : bytes) : length (HMAC.hmac key msg) = 32%nat.
Proof. unfold HMAC.hmac. apply sha256_length. Qed.

Lemma pbkdf2_F_length (P S : bytes) (c : N) (i : nat) :
  length (PBKDF2.F P S c i) = 32%nat.
Proof.
  unfold PBKDF2.F.
  apply (N.iter_invariant (c - 1) _ (PBKDF2.step P)
           (fun TU => length (fst TU) = 32%nat)).
  - intros [T U] H. unfold PBKDF2.step. simpl in *.
    rewrite xor_bytes_length. exact H.
  - cbv [fst]. apply hmac_length.
Qed.

Lemma pbkdf2_derive_32 (P S : bytes) (c : N) :
  PBKDF2.derive P S c 32 = PBKDF2.F P S c 1.
Proof.
  unfold PBKDF2.derive.
  change (PBKDF2.blocks_needed 32) with 1%nat.
  cbv [seq map concat]. rewrite app_nil_r.
  apply firstn_all2. rewrite pbkdf2_F_length. lia.
Qed.

Lemma aes_block_length (key block : bytes) :
  length (AES.encrypt_block key block) = 16%nat.
Proof.
  unfold AES.encrypt_block, AES.cipher, AES.add_round_key.
  rewrite !length_map. reflexivity.
Qed.

Lemma gctr_length (key icb X : bytes) : length (GCM.gctr key icb X) = length X.
Proof. unfold GCM.gctr. apply xor_bytes_length. Qed.

Lemma gctr_involutive (key icb X : bytes) :
  GCM.gctr key icb (GCM.gctr key icb X) = X.
Proof.
  unfold GCM.gctr at 1. rewrite gctr_length.
  unfold GCM.gctr. apply xor_bytes_involutive.
Qed.

Lemma gcm_tag_length (key iv A C : bytes) :
  length (GCM.tag key iv A C 16) = 16%nat.
Proof.
  unfold GCM.tag. rewrite length_firstn, gctr_length, be_bytes_length.
  reflexivity.
Qed.

(* ================================================================== *)
(** * Base64: [atob] inverts [btoa] *)

Lemma list_ind3 {A} (P : list A -> Prop) :
  P [] -> (forall a, P [a]) -> (forall a b, P [a; b]) ->
  (forall a b c l, P l -> P (a :: b :: c :: l)) ->
  forall l, P l.
Proof.
  intros H0 H1 H2 H3 l.
  assert (H : P l /\ (forall a, P (a :: l)) /\ (forall a b, P (a :: b :: l))).
  { induction l as [|x l IH].
    - auto.
    - destruct IH as (IH0 & IH1 & IH2). repeat split; auto. }
  apply H.
Qed.

Lemma b64_value_char (n : Z) : is_sextet n -> JS.b64_value (JS.b64_char n) = Some n.
Proof.
  unfold is_sextet, JS.b64_char, JS.b64_value. intros Hn.
  destruct (n <? 26) eqn:E1; [apply Z.ltb_lt in E1|apply Z.ltb_ge in E1].
  { replace ((65 <=? 65 + n) && (65 + n <=? 90)) with true
      by (symmetry; apply andb_true_iff; split; apply Z.leb_le; lia).
    f_equal. lia. }
  destruct (n <? 52) eqn:E2; [apply Z.ltb_lt in E2|apply Z.ltb_ge in E2].
  { replace ((65 <=? 97 + (n - 26)) && (97 + (n - 26) <=? 90)) with false
      by (symmetry; apply andb_false_iff; right; apply Z.leb_gt; lia).
    replace ((97 <=? 97 + (n - 26)) && (97 + (n - 26) <=? 122)) with true
      by (symmetry; apply andb_true_iff; split; apply Z.leb_le; lia).
    f_equal. lia. }
  destruct (n <? 62) eqn:E3; [apply Z.ltb_lt in E3|apply Z.ltb_ge in E3].
  { replace ((65 <=? 48 + (n - 52)) && (48 + (n - 52) <=? 90)) with false
      by (symmetry; apply andb_false_iff; left; apply Z.leb_gt; lia).
    replace ((97 <=? 48 + (n - 52)) && (48 + (n - 52) <=? 122)) with false
      by (symmetry; apply andb_false_iff; left; apply Z.leb_gt; lia).
    replace ((48 <=? 48 + (n - 52)) && (48 + (n - 52) <=? 57)) with true
      by (symmetry; apply andb_true_iff; split; apply Z.leb_le; lia).
    f_equal. lia. }
  assert (Hc : n = 62 \/ n = 63) by lia.
  destruct Hc as [-> | ->]; reflexivity.
Qed.

(** A character of the alphabet is neither [=] nor white space. *)
Lemma b64_value_some (c v : Z) :
  JS.b64_value c = Some v -> c <> 61 /\ JS.is_ascii_whitespace c = false.
Proof.
  unfold JS.b64_value, JS.is_ascii_whitespace. intros H.
  destruct ((65 <=? c) && (c <=? 90)) eqn:E1.
  { apply andb_true_iff in E1 as [A B]. apply Z.leb_le in A, B.
    split; [lia|]. repeat (apply orb_false_iff; split); apply Z.eqb_neq; lia. }
  destruct ((97 <=? c) && (c <=? 122)) eqn:E2.
  { apply andb_true_iff in E2 as [A B]. apply Z.leb_le in A, B.
    split; [lia|]. repeat (apply orb_false_iff; split); apply Z.eqb_neq; lia. }
  destruct ((48 <=? c) && (c <=? 57)) eqn:E3.
  { apply andb_true_iff in E3 as [A B]. apply Z.leb_le in A, B.
    split; [lia|]. repeat (apply orb_false_iff; split); apply Z.eqb_neq; lia. }
  destruct (c =? 43) eqn:E4.
  { apply Z.eqb_eq in E4. subst. split; [lia|reflexivity]. }
  destruct (c =? 47) eqn:E5.
  { apply Z.eqb_eq in E5. subst. split; [lia|reflexivity]. }
  discriminate.
Qed.

Lemma b64_char_plain (n : Z) :
  is_sextet n ->
  JS.b64_char n <> 61 /\ JS.is_ascii_whitespace (JS.b64_char n) = false.
Proof.
  intros Hn. apply (b64_value_some _ n). apply b64_value_char. exact Hn.
Qed.

Lemma to_sextets_range (bs : list Z) :
  Forall is_byte_value bs -> Forall is_sextet (JS.to_sextets bs).
Proof.
  unfold is_byte_value, is_sextet.
  induction bs as [| a | a b | a b c l IH] using list_ind3; intros H.
  - constructor.
  - inversion H; subst. cbn [JS.to_sextets].
    repeat (apply Forall_cons; [div_lia|]). apply Forall_nil.
  - inversion H as [|? ? Ha H']; subst. inversion H' as [|? ? Hb H'']; subst.
    cbn [JS.to_sextets]. repeat (apply Forall_cons; [div_lia|]). apply Forall_nil.
  - inversion H as [|? ? Ha H']; subst. inversion H' as [|? ? Hb H'']; subst.
    inversion H'' as [|? ? Hc H''']; subst.
    cbn [JS.to_sextets]. repeat (apply Forall_cons; [div_lia|]). apply IH. assumption.
Qed.

Lemma of_to_sextets (bs : list Z) :
  Forall is_byte_value bs -> JS.of_sextets (JS.to_sextets bs) = bs.
Proof.
  unfold is_byte_value.
  induction bs as [| a | a b | a b c l IH] using list_ind3; intros H.
  - reflexivity.
  - inversion H; subst. cbn [JS.to_sextets JS.of_sextets]. f_equal. div_lia.
  - inversion H as [|? ? Ha H']; subst. inversion H' as [|? ? Hb H'']; subst.
    cbn [JS.to_sextets JS.of_sextets]. f_equal; [div_lia|f_equal; div_lia].
  - inversion H as [|? ? Ha H']; subst. inversion H' as [|? ? Hb H'']; subst.
    inversion H'' as [|? ? Hc H''']; subst.
    cbn [JS.to_sextets JS.of_sextets].
    rewrite IH by assumption. f_equal; [div_lia|f_equal; [div_lia|f_equal; div_lia]].
Qed.

Lemma sextet_values_chars (v : list Z) :
  Forall is_sextet v -> JS.sextet_values (map JS.b64_char v) = Some v.
Proof.
  induction 1 as [|n v Hn Hv IH]; [reflexivity|].
  cbn [map JS.sextet_values]. rewrite (b64_value_char n Hn), IH. reflexivity.
Qed.

(** The number of six-bit values and the padding, by length modulo 3. *)
Lemma to_sextets_shape (bs : list Z) :
  (Nat.modulo (length bs) 3 = 0%nat
   /\ Nat.modulo (length (JS.to_sextets bs)) 4 = 0%nat
   /\ JS.padding (length bs) = [])
  \/ (Nat.modulo (length bs) 3 = 1%nat
      /\ Nat.modulo (length (JS.to_sextets bs)) 4 = 2%nat
      /\ JS.padding (length bs) = [61; 61])
  \/ (Nat.modulo (length bs) 3 = 2%nat
      /\ Nat.modulo (length (JS.to_sextets bs)) 4 = 3%nat
      /\ JS.padding (length bs) = [61]).
Proof.
  induction bs as [| a | a b | a b c l IH] using list_ind3.
  - left. repeat split.
  - right. left. repeat split.
  - right. right. repeat split.
  - assert (E3 : (Nat.modulo (length (a :: b :: c :: l)) 3
                  = Nat.modulo (length l) 3)%nat).
    { cbn [length].
      replace (S (S (S (length l)))) with (length l + 1 * 3)%nat by lia.
      apply Nat.Div0.mod_add. }
    assert (E4 : (Nat.modulo (length (JS.to_sextets (a :: b :: c :: l))) 4
                  = Nat.modulo (length (JS.to_sextets l)) 4)%nat).
    { cbn [JS.to_sextets length].
      replace (S (S (S (S (length (JS.to_sextets l))))))
        with (length (JS.to_sextets l) + 1 * 4)%nat by lia.
      apply Nat.Div0.mod_add. }
    unfold JS.padding in *. rewrite E3, E4. exact IH.
Qed.

Lemma mod4_add (n k r m : nat) :
  Nat.modulo n 4 = r -> Nat.modulo (r + k) 4 = m -> Nat.modulo (n + k) 4 = m.
Proof.
  intros Hn Hm. rewrite <- Nat.Div0.add_mod_idemp_l, Hn. exact Hm.
Qed.

Lemma head_of_rev_in {A} (l : list A) (c : A) (r : list A) :
  rev l = c :: r -> In c l.
Proof.
  intros H. apply in_rev. rewrite H. left. reflexivity.
Qed.

Lemma strip_padding_body (body pad : jsstring) :
  Forall (fun c => c <> 61) body ->
  (Nat.modulo (length body) 4 = 0%nat /\ pad = [])
  \/ (Nat.modulo (length body) 4 = 2%nat /\ pad = [61; 61])
  \/ (Nat.modulo (length body) 4 = 3%nat /\ pad = [61]) ->
  JS.strip_padding (body ++ pad) = body.
Proof.
  intros Hne Hcases. rewrite Forall_forall in Hne.
  assert (Hhead : forall c, In c body -> (c =? 61) = false).
  { intros c Hc. apply Z.eqb_neq. apply Hne. exact Hc. }
  unfold JS.strip_padding.
  destruct Hcases as [[Hm ->] | [[Hm ->] | [Hm ->]]].
  - rewrite app_nil_r, Hm. cbn [Nat.eqb].
    destruct (rev body) as [|c1 [|c2 r]] eqn:E; try reflexivity;
      rewrite (Hhead _ (head_of_rev_in _ _ _ E)); reflexivity.
  - rewrite length_app. cbn [length].
    rewrite (mod4_add _ 2 _ 0%nat Hm eq_refl). cbn [Nat.eqb].
    rewrite rev_app_distr. cbn [rev app].
    change (61 =? 61) with true. cbv iota. apply rev_involutive.
  - rewrite length_app. cbn [length].
    rewrite (mod4_add _ 1 _ 0%nat Hm eq_refl). cbn [Nat.eqb].
    rewrite rev_app_distr. cbn [rev app].
    destruct (rev body) as [|c2 r] eqn:E.
    + apply (f_equal (@length Z)) in E. rewrite length_rev in E.
      rewrite E in Hm. discriminate Hm.
    + change (61 =? 61) with true. cbv iota.
      rewrite (Hhead _ (head_of_rev_in _ _ _ E)).
      change (rev (c2 :: r) = body). rewrite <- E. apply rev_involutive.
Qed.

Lemma filter_all {A} (f : A -> bool) (l : list A) :
  (forall x, In x l -> f x = true) -> filter f l = l.
Proof.
  induction l as [|x l IH]; intros H; [reflexivity|].
  cbn [filter]. rewrite (H x (or_introl eq_refl)). f_equal.
  apply IH. intros y Hy. apply H. right. exact Hy.
Qed.

Lemma padding_chars (n : nat) (c : Z) : In c (JS.padding n) -> c = 61.
Proof. unfold JS.padding. apply repeat_spec. Qed.

(** [atob] inverts the encoding of a binary string. *)
Lemma atob_encoding (s : list Z) :
  Forall is_byte_value s ->
  JS.atob (map JS.b64_char (JS.to_sextets s) ++ JS.padding (length s)) = Ok s.
Proof.
  intros Hs. pose proof (to_sextets_range s Hs) as Hr.
  unfold JS.atob.
  rewrite filter_all.
  2:{ intros c Hc. apply in_app_or in Hc as [Hc | Hc].
      - apply in_map_iff in Hc as (n & <- & Hn).
        rewrite Forall_forall in Hr.
        destruct (b64_char_plain n (Hr n Hn)) as [_ ->]. reflexivity.
      - apply padding_chars in Hc. subst. reflexivity. }
  pose proof (to_sextets_shape s) as Hshape.
  rewrite strip_padding_body.
  - assert (Hlen : Nat.eqb (Nat.modulo (length (map JS.b64_char (JS.to_sextets s))) 4) 1
                   = false).
    { rewrite length_map.
      destruct Hshape as [(_ & -> & _) | [(_ & -> & _) | (_ & -> & _)]];
        reflexivity. }
    rewrite Hlen, sextet_values_chars by exact Hr.
    rewrite of_to_sextets by exact Hs. reflexivity.
  - apply Forall_forall. intros c Hc.
    apply in_map_iff in Hc as (n & <- & Hn).
    rewrite Forall_forall in Hr. apply (b64_char_plain n (Hr n Hn)).
  - rewrite length_map.
    destruct Hshape as [(_ & H4 & Hp) | [(_ & H4 & Hp) | (_ & H4 & Hp)]];
      rewrite H4, Hp; auto.
Qed.

Lemma fromCharCode_bytes (bs : bytes) : Forall is_byte_value (JS.fromCharCode bs).
Proof.
  unfold JS.fromCharCode. apply Forall_forall. intros z Hz.
  apply in_map_iff in Hz as (b & <- & _). apply byte_to_Z_range.
Qed.

Lemma charCodes_fromCharCode (bs : bytes) : JS.charCodes (JS.fromCharCode bs) = bs.
Proof.
  unfold JS.charCodes, JS.fromCharCode. rewrite map_map.
  rewrite <- (map_id bs) at 2. apply map_ext. apply Z_to_byte_to_Z.
Qed.

(** [btoa] accepts every binary string made of bytes ... *)
Lemma btoa_fromCharCode (bs : bytes) :
  JS.btoa (JS.fromCharCode bs) = Ok (base64 bs).
Proof.
  unfold JS.btoa, base64.
  replace (forallb _ (JS.fromCharCode bs)) with true; [reflexivity|].
  symmetry. apply forallb_forall. intros z Hz.
  pose proof (fromCharCode_bytes bs) as H. rewrite Forall_forall in H.
  specialize (H z Hz). unfold is_byte_value in H.
  apply andb_true_iff. split; apply Z.leb_le; lia.
Qed.

(** ... and [atob] gives the bytes back. *)
Lemma atob_base64 (bs : bytes) : JS.atob (base64 bs) = Ok (JS.fromCharCode bs).
Proof. apply atob_encoding. apply fromCharCode_bytes. Qed.

(** Hence distinct byte strings have distinct base64 texts. *)
Lemma base64_injective (a b : bytes) : base64 a = base64 b -> a = b.
Proof.
  intros H. pose proof (atob_base64 a) as Ha. rewrite H, atob_base64 in Ha.
  injection Ha as Ha.
  rewrite <- (charCodes_fromCharCode a), <- (charCodes_fromCharCode b), Ha.
  reflexivity.
Qed.

(* ================================================================== *)
(** * [crypto.ts]: what the functions compute *)

Lemma pin_key_data_length (pin : jsstring) : length (pin_key_data pin) = 32%nat.
Proof.
  unfold pin_key_data. rewrite pbkdf2_derive_32. apply pbkdf2_F_length.
Qed.

Lemma ITERATIONS_eq : Crypto.ITERATIONS = 100000%N.
Proof. exact (seal_eq Crypto.ITERATIONS_seal). Qed.

Lemma importKey_for_derivation (data : bytes) :
  WebCrypto.importKey data WebCrypto.PBKDF2_name false
    [WebCrypto.deriveBits_usage; WebCrypto.deriveKey_usage]
  = Ok (WebCrypto.mkKey WebCrypto.PBKDF2_name false
          [WebCrypto.deriveBits_usage; WebCrypto.deriveKey_usage] data).
Proof. reflexivity. Qed.

Lemma deriveKey_pbkdf2_aes256 (P S : bytes) (c : N) :
  c <> 0%N ->
  WebCrypto.deriveKey (WebCrypto.Pbkdf2Params S c)
    (WebCrypto.mkKey WebCrypto.PBKDF2_name false
       [WebCrypto.deriveBits_usage; WebCrypto.deriveKey_usage] P)
    256 false [WebCrypto.encrypt_usage; WebCrypto.decrypt_usage]
  = Ok (WebCrypto.mkKey WebCrypto.AES_GCM_name false
          [WebCrypto.encrypt_usage; WebCrypto.decrypt_usage]
          (PBKDF2.derive P S c 32)).
Proof.
  intros Hc. apply N.eqb_neq in Hc.
  unfold WebCrypto.deriveKey, WebCrypto.derive_bits_op.
  cbn [WebCrypto.params_name WebCrypto.key_algorithm WebCrypto.name_eqb
       WebCrypto.has_usage WebCrypto.key_usages existsb
       WebCrypto.usage_eqb negb orb WebCrypto.key_data].
  change (Nat.eqb 256 128 || Nat.eqb 256 192 || Nat.eqb 256 256) with true.
  change (Nat.eqb 256 0 || negb (Nat.eqb (Nat.modulo 256 8) 0)) with false.
  change (Nat.div 256 8) with 32%nat.
  cbv iota. cbn [negb]. rewrite Hc.
  unfold WebCrypto.importKey.
  cbn [WebCrypto.allowed_usage WebCrypto.usage_eqb forallb negb orb andb].
  rewrite pbkdf2_derive_32, pbkdf2_F_length.
  reflexivity.
Qed.

Lemma deriveKeyFromPIN_resolves (pin : jsstring) (e : Entropy) :
  Crypto.deriveKeyFromPIN pin e = (Ok (pin_key pin), e).
Proof.
  unfold Crypto.deriveKeyFromPIN, bind, lift, ret.
  rewrite importKey_for_derivation.
  rewrite deriveKey_pbkdf2_aes256 by (rewrite ITERATIONS_eq; discriminate).
  reflexivity.
Qed.

Lemma typed_set_layout (iv encrypted : bytes) :
  length iv = 12%nat ->
  JS.typed_set (repeat x00 (12 + length encrypted)) iv 0
  = Ok (iv ++ repeat x00 (length encrypted))
  /\ JS.typed_set (iv ++ repeat x00 (length encrypted)) encrypted 12
     = Ok (iv ++ encrypted).
Proof.
  intros Hiv. unfold JS.typed_set. split.
  - rewrite repeat_length, Hiv.
    replace (Nat.ltb (12 + length encrypted) (0 + 12)) with false
      by (symmetry; apply Nat.ltb_ge; lia).
    change (0 + 12)%nat with 12%nat. cbn [firstn app].
    rewrite repeat_app, skipn_app, repeat_length.
    rewrite skipn_all2 by (rewrite repeat_length; lia).
    rewrite Nat.sub_diag. reflexivity.
  - rewrite length_app, repeat_length, Hiv.
    replace (Nat.ltb (12 + length encrypted) (12 + length encrypted)) with false
      by (symmetry; apply Nat.ltb_ge; lia).
    rewrite firstn_app, Hiv, Nat.sub_diag, firstn_O, app_nil_r.
    rewrite firstn_all2 by lia.
    rewrite skipn_all2 by (rewrite length_app, repeat_length; lia).
    rewrite app_nil_r. reflexivity.
Qed.

Lemma drawn_length (n : nat) (e : Entropy) : length (map e (seq 0 n)) = n.
Proof. rewrite length_map. apply length_seq. Qed.

Lemma pin_key_encrypts (pin : jsstring) (iv data : bytes) :
  WebCrypto.encrypt iv 128 (pin_key pin) data
  = Ok (pin_ciphertext pin iv data ++ pin_tag pin iv (pin_ciphertext pin iv data)).
Proof.
  unfold WebCrypto.encrypt, pin_key, pin_ciphertext, pin_tag, GCM.encrypt.
  cbn [WebCrypto.key_algorithm WebCrypto.name_eqb negb WebCrypto.key_usages
       WebCrypto.has_usage existsb WebCrypto.usage_eqb orb
       WebCrypto.key_data fst].
  change (negb (WebCrypto.valid_tag_length 128)) with false.
  change (Nat.div 128 8) with 16%nat. cbv iota.
  reflexivity.
Qed.

(** [encryptWithPIN] resolves to the base64 text of nonce, ciphertext
    and tag, and consumes twelve bytes of the random supply. *)
Lemma encryptWithPIN_computes (data : bytes) (pin : jsstring) (e : Entropy) :
  Crypto.encryptWithPIN data pin e
  = (Ok (base64 (token_bytes pin (nonce_at e 0) data)), after_draw 12 e).
Proof.
  rewrite <- btoa_fromCharCode. unfold token_bytes.
  set (iv := nonce_at e 0). set (C := pin_ciphertext pin iv data).
  unfold Crypto.encryptWithPIN.
  unfold bind at 1. rewrite deriveKeyFromPIN_resolves.
  unfold bind at 1. unfold getRandomValues.
  change (map e (seq 0 12)) with iv.
  unfold bind at 1. unfold lift at 1. rewrite pin_key_encrypts. fold C.
  assert (Hiv : length iv = 12%nat) by apply drawn_length.
  destruct (typed_set_layout iv (C ++ pin_tag pin iv C) Hiv) as [H1 H2].
  unfold bind at 1. unfold lift at 1. rewrite H1.
  unfold bind at 1. unfold lift at 1. rewrite H2.
  reflexivity.
Qed.

(** [decryptWithPIN] on a token that [atob] decodes. *)
Lemma decryptWithPIN_computes (token pin : jsstring) (binary : jsstring)
      (e : Entropy) :
  JS.atob token = Ok binary ->
  Crypto.decryptWithPIN token pin e = (open_combined pin (JS.charCodes binary), e).
Proof.
  intros Hatob. unfold Crypto.decryptWithPIN.
  unfold bind at 1. unfold lift at 1. rewrite Hatob.
  unfold bind at 1. rewrite deriveKeyFromPIN_resolves.
  unfold try_catch, bind, lift, ret, throw, open_combined.
  destruct (WebCrypto.decrypt _ 128 (pin_key pin) _); reflexivity.
Qed.

(** [decryptWithPIN] on a token that [atob] rejects: the exception of
    [atob] escapes, it is raised before the [try] block. *)
Lemma decryptWithPIN_bad_base64 (token pin : jsstring) (x : exn) (e : Entropy) :
  JS.atob token = Throw x ->
  Crypto.decryptWithPIN token pin e = (Throw x, e).
Proof.
  intros Hatob. unfold Crypto.decryptWithPIN.
  unfold bind at 1. unfold lift at 1. rewrite Hatob. reflexivity.
Qed.

(** The platform's decryption under the PIN's key: the tag is the last
    sixteen bytes and must match the recomputed tag. *)
Lemma open_combined_layout (pin : jsstring) (iv C T : bytes) :
  length iv = 12%nat -> length T = 16%nat ->
  open_combined pin (iv ++ C ++ T)
  = if bytes_eqb T (pin_tag pin iv C)
    then Ok (GCM.gctr (pin_key_data pin)
                      (GCM.inc32 (GCM.J0 (pin_key_data pin) iv)) C)
    else Throw Crypto.AuthenticationError.
Proof.
  intros Hiv HT. unfold open_combined, WebCrypto.decrypt.
  cbn [pin_key WebCrypto.key_algorithm WebCrypto.name_eqb negb
       WebCrypto.key_usages WebCrypto.has_usage existsb WebCrypto.usage_eqb
       orb WebCrypto.key_data].
  change (negb (WebCrypto.valid_tag_length 128)) with false.
  change (Nat.div 128 8) with 16%nat. cbv iota.
  rewrite firstn_app, Hiv, Nat.sub_diag, firstn_O, app_nil_r.
  rewrite firstn_all2 by lia.
  rewrite skipn_app, Hiv, Nat.sub_diag, skipn_O.
  rewrite skipn_all2 by lia. rewrite app_nil_l.
  replace (Nat.ltb (length (C ++ T)) 16) with false
    by (symmetry; apply Nat.ltb_ge; rewrite length_app; lia).
  replace (length (C ++ T) - 16)%nat with (length C)
    by (rewrite length_app; lia).
  rewrite firstn_app, Nat.sub_diag, firstn_O, app_nil_r, firstn_all.
  rewrite skipn_app, Nat.sub_diag, skipn_O, skipn_all, app_nil_l.
  unfold GCM.decrypt. rewrite HT. fold (pin_tag pin iv C).
  destruct (bytes_eqb T (pin_tag pin iv C)); reflexivity.
Qed.

(** The token of [P] under a PIN and any twelve-byte nonce opens to [P]
    under the same PIN. *)
Lemma token_opens (P : bytes) (K : jsstring) (iv : bytes) (e : Entropy) :
  length iv = 12%nat ->
  Crypto.decryptWithPIN (base64 (token_bytes K iv P)) K e = (Ok P, e).
Proof.
  intros Hiv.
  rewrite (decryptWithPIN_computes _ _ _ _ (atob_base64 _)).
  rewrite charCodes_fromCharCode. unfold token_bytes.
  rewrite open_combined_layout; [| exact Hiv | apply gcm_tag_length].
  rewrite bytes_eqb_refl.
  unfold pin_ciphertext, GCM.encrypt. cbn [fst].
  rewrite gctr_involutive. reflexivity.
Qed.

(* ================================================================== *)
(** * The round trip and the layout of the AES-GCM variant *)

(** C1. Round trip of the AES-GCM variant: for every payload [P] (of any
    length, so also 0, 1, 32 and 64 bytes), every non-empty PIN [K] and
    every state of the random source, [encryptWithPIN (P, K)] resolves to
    a token, and [decryptWithPIN] of that token with the same [K]
    resolves to exactly [P]. *)
Theorem C1_aes_gcm_round_trip (P : bytes) (K : jsstring) (e : Entropy) :
  K <> [] ->
  exists token,
    Crypto.encryptWithPIN P K e = (Ok token, after_draw 12 e)
    /\ forall e', Crypto.decryptWithPIN token K e' = (Ok P, e').
Proof.
  intros _. eexists. split; [apply encryptWithPIN_computes|].
  intros e'. apply token_opens. apply drawn_length.
Qed.

Lemma C1_round_trip_witness :
  str "1234" <> []
  /\ exists token,
       Crypto.encryptWithPIN (repeat x00 32) (str "1234") zero_entropy
       = (Ok token, after_draw 12 zero_entropy)
       /\ forall e', Crypto.decryptWithPIN token (str "1234") e'
                     = (Ok (repeat x00 32), e').
Proof.
  split.
  - discriminate.
  - apply (C1_aes_gcm_round_trip (repeat x00 32) (str "1234") zero_entropy).
    discriminate.
Defined.

Lemma token_bytes_length (pin : jsstring) (e : Entropy) (k : nat) (P : bytes) :
  length (nonce_at e k) = 12%nat
  /\ length (pin_ciphertext pin (nonce_at e k) P) = length P
  /\ length (pin_tag pin (nonce_at e k) (pin_ciphertext pin (nonce_at e k) P))
     = 16%nat
  /\ length (token_bytes pin (nonce_at e k) P) = (12 + length P + 16)%nat.
Proof.
  assert (Hiv : length (nonce_at e k) = 12%nat).
  { unfold nonce_at. rewrite length_map. apply length_seq. }
  assert (HC : length (pin_ciphertext pin (nonce_at e k) P) = length P).
  { unfold pin_ciphertext, GCM.encrypt. cbn [fst]. apply gctr_length. }
  assert (HT : length (pin_tag pin (nonce_at e k)
                         (pin_ciphertext pin (nonce_at e k) P)) = 16%nat)
    by apply gcm_tag_length.
  repeat split; try assumption.
  unfold token_bytes. rewrite !length_app, Hiv, HC, HT. lia.
Qed.

(** C6. Token structure. The token that [encryptWithPIN (P, pin)]
    resolves to is the base64 text of the twelve bytes drawn from the
    random source, followed by the ciphertext, which has the length of
    [P], followed by the sixteen-byte tag: [12 + |P| + 16] bytes.
    [decryptWithPIN] takes the first twelve decoded bytes as the IV and
    hands the remainder, ciphertext and tag, to the platform; for the
    token above these are the drawn nonce and [C ++ T]. *)
Theorem C6_token_structure (P : bytes) (pin : jsstring) (e : Entropy) :
  let iv := nonce_at e 0 in
  let C := pin_ciphertext pin iv P in
  let T := pin_tag pin iv C in
  exists token,
    Crypto.encryptWithPIN P pin e = (Ok token, after_draw 12 e)
    /\ JS.btoa (JS.fromCharCode (iv ++ C ++ T)) = Ok token
    /\ JS.atob token = Ok (JS.fromCharCode (iv ++ C ++ T))
    /\ getRandomValues 12 e = (Ok iv, after_draw 12 e)
    /\ length iv = 12%nat /\ length C = length P /\ length T = 16%nat
    /\ length (iv ++ C ++ T) = (12 + length P + 16)%nat
    /\ (forall token' binary pin' e',
          JS.atob token' = Ok binary ->
          Crypto.decryptWithPIN token' pin' e'
          = (match WebCrypto.decrypt (firstn 12 (JS.charCodes binary)) 128
                     (pin_key pin') (skipn 12 (JS.charCodes binary)) with
             | Ok plaintext => Ok plaintext
             | Throw _ => Throw Crypto.AuthenticationError
             end, e'))
    /\ firstn 12 (iv ++ C ++ T) = iv
    /\ skipn 12 (iv ++ C ++ T) = C ++ T.
Proof.
  intros iv C T.
  destruct (token_bytes_length pin e 0 P) as (Hiv & HC & HT & Hall).
  fold iv in Hiv, HC, HT, Hall. fold C in HC, HT, Hall. fold T in HT.
  exists (base64 (token_bytes pin iv P)).
  split; [apply encryptWithPIN_computes|].
  split; [apply (btoa_fromCharCode (token_bytes pin iv P))|].
  split; [apply atob_base64|].
  split; [reflexivity|].
  repeat (split; [assumption|]).
  split.
  { intros token' binary pin' e' Hatob.
    apply (decryptWithPIN_computes token' pin' binary e' Hatob). }
  split.
  - rewrite firstn_app, Hiv, Nat.sub_diag, firstn_O, app_nil_r.
    apply firstn_all2. lia.
  - rewrite skipn_app, Hiv, Nat.sub_diag, skipn_O.
    rewrite skipn_all2 by lia. reflexivity.
Qed.

(* ================================================================== *)
(** * Successive encryptions draw successive nonces *)

Lemma map_seq_shift {A} (f : nat -> A) (n a len : nat) :
  map (fun i => f (i + n)%nat) (seq a len) = map f (seq (a + n) len).
Proof.
  revert a. induction len as [|len IH]; intros a; [reflexivity|].
  cbn [seq map]. f_equal. apply (IH (S a)).
Qed.

Lemma nonce_after_draw (e : Entropy) (k : nat) :
  nonce_at (after_draw 12 e) k = nonce_at e (S k).
Proof.
  unfold nonce_at, after_draw. rewrite map_seq_shift.
  replace (12 * k + 12)%nat with (12 * S k)%nat by lia. reflexivity.
Qed.

Lemma successively_encrypts (P : bytes) (K : jsstring) (n : nat) (e : Entropy) :
  run (successively n (Crypto.encryptWithPIN P K)) e
  = Ok (map (fun k => base64 (token_bytes K (nonce_at e k) P)) (seq 0 n)).
Proof.
  revert e. induction n as [|n IH]; intros e; [reflexivity|].
  unfold run in *. cbn [successively]. unfold bind at 1.
  rewrite encryptWithPIN_computes. unfold bind at 1.
  specialize (IH (after_draw 12 e)).
  destruct (successively n (Crypto.encryptWithPIN P K) (after_draw 12 e))
    as [r e2].
  cbn [fst] in IH. subst r. unfold ret. cbn [fst seq map]. do 2 f_equal.
  rewrite <- seq_shift, map_map. apply map_ext. intros k.
  rewrite nonce_after_draw. reflexivity.
Qed.

Lemma token_determines_nonce (K : jsstring) (P iv1 iv2 : bytes) :
  length iv1 = 12%nat -> length iv2 = 12%nat ->
  base64 (token_bytes K iv1 P) = base64 (token_bytes K iv2 P) -> iv1 = iv2.
Proof.
  intros H1 H2 H. apply base64_injective in H. unfold token_bytes in H.
  apply (f_equal (firstn 12)) in H.
  rewrite !firstn_app, H1, H2, Nat.sub_diag, !firstn_O, !app_nil_r in H.
  rewrite !firstn_all2 in H by lia. exact H.
Qed.

Lemma nonce_at_length (e : Entropy) (k : nat) : length (nonce_at e k) = 12%nat.
Proof. unfold nonce_at. rewrite length_map. apply length_seq. Qed.

Lemma nodupb_sound (l : list bytes) : nodupb l = true -> NoDup l.
Proof.
  induction l as [|x l IH]; intros H; [constructor|].
  cbn [nodupb] in H. apply andb_true_iff in H as [Hx Hl].
  constructor; [|apply IH; exact Hl].
  intros Hin. apply negb_true_iff in Hx.
  assert (Ht : existsb (bytes_eqb x) l = true).
  { apply existsb_exists. exists x. split; [exact Hin|apply bytes_eqb_refl]. }
  rewrite Ht in Hx. discriminate.
Qed.

(** C7. Each [encryptWithPIN] call draws twelve fresh bytes of the random
    source as its nonce: the [k]-th of [n] successive calls with the same
    PIN and plaintext uses the [k]-th block of twelve bytes, and two calls
    whose nonces differ resolve to different tokens (and two calls that
    draw the same nonce to the same token).  Hence, whenever the drawn
    nonces are pairwise distinct, [n] successive calls (1000 in
    particular) resolve to [n] pairwise distinct tokens. *)
Theorem C7_fresh_nonce_per_call (P : bytes) (K : jsstring) (n : nat)
        (e : Entropy) :
  exists tokens,
    run (successively n (Crypto.encryptWithPIN P K)) e = Ok tokens
    /\ length tokens = n
    /\ (forall k, (k < n)%nat ->
          JS.atob (nth k tokens [])
          = Ok (JS.fromCharCode (token_bytes K (nonce_at e k) P)))
    /\ (forall i j, (i < n)%nat -> (j < n)%nat ->
          nonce_at e i <> nonce_at e j -> nth i tokens [] <> nth j tokens [])
    /\ (forall i j, (i < n)%nat -> (j < n)%nat ->
          nonce_at e i = nonce_at e j -> nth i tokens [] = nth j tokens [])
    /\ (NoDup (nonces n e) -> NoDup tokens).
Proof.
  set (tok := fun k => base64 (token_bytes K (nonce_at e k) P)).
  exists (map tok (seq 0 n)).
  assert (Hnth : forall k, (k < n)%nat -> nth k (map tok (seq 0 n)) [] = tok k).
  { intros k Hk. rewrite (nth_indep _ [] (tok 0%nat))
      by (rewrite length_map, length_seq; exact Hk).
    rewrite map_nth, seq_nth by exact Hk. reflexivity. }
  split; [apply successively_encrypts|].
  split; [rewrite length_map; apply length_seq|].
  split; [intros k Hk; rewrite (Hnth k Hk); apply atob_base64|].
  split.
  - intros i j Hi Hj Hne Heq. rewrite (Hnth i Hi), (Hnth j Hj) in Heq.
    apply Hne. apply (token_determines_nonce K P); try apply nonce_at_length.
    exact Heq.
  - split.
    { intros i j Hi Hj Heq. rewrite (Hnth i Hi), (Hnth j Hj).
      unfold tok. rewrite Heq. reflexivity. }
    intros Hnodup. unfold nonces in Hnodup.
    replace (map tok (seq 0 n))
      with (map (fun iv => base64 (token_bytes K iv P)) (map (nonce_at e) (seq 0 n)))
      by (rewrite map_map; reflexivity).
    apply NoDup_map_NoDup_ForallPairs; [|exact Hnodup].
    intros iv1 iv2 H1 H2 Heq.
    apply in_map_iff in H1 as (k1 & <- & _).
    apply in_map_iff in H2 as (k2 & <- & _).
    apply (token_determines_nonce K P); try apply nonce_at_length. exact Heq.
Qed.

(** A thousand successive calls on a random supply whose twelve-byte
    blocks are pairwise distinct. *)
Lemma C7_thousand_calls_witness :
  NoDup (nonces 1000 counting_entropy)
  /\ exists tokens,
       run (successively 1000
              (Crypto.encryptWithPIN (repeat x00 32) (str "1234")))
           counting_entropy = Ok tokens
       /\ length tokens = 1000%nat
       /\ NoDup tokens.
Proof.
  assert (H : NoDup (nonces 1000 counting_entropy)).
  { apply nodupb_sound. vm_compute. reflexivity. }
  split; [exact H|].
  destruct (C7_fresh_nonce_per_call (repeat x00 32) (str "1234") 1000
              counting_entropy) as (tokens & Hrun & Hlen & _ & _ & _ & Hnd).
  exists tokens. repeat split; try assumption. apply Hnd. exact H.
Defined.

(* ================================================================== *)
(** * The XOR variant *)

Lemma nth_map_seq {A} (f : nat -> A) (n i : nat) (d : A) :
  (i < n)%nat -> nth i (map f (seq 0 n)) d = f i.
Proof.
  intros Hi. rewrite (nth_indep _ d (f 0%nat))
    by (rewrite length_map, length_seq; exact Hi).
  rewrite map_nth, seq_nth by exact Hi. reflexivity.
Qed.

Lemma map_nth_seq {A} (l : list A) (d : A) :
  map (fun i => nth i l d) (seq 0 (length l)) = l.
Proof.
  apply (nth_ext _ _ d d).
  - rewrite length_map. apply length_seq.
  - intros i Hi. rewrite length_map, length_seq in Hi.
    apply (nth_map_seq (fun k => nth k l d) (length l) i d Hi).
Qed.

Lemma xor_elem_involutive (d : byte) (k : option byte) :
  XorCrypto.xor_elem (XorCrypto.xor_elem d k) k = d.
Proof.
  destruct k as [b|].
  - apply (byte_xor_involutive d b).
  - unfold XorCrypto.xor_elem. rewrite !Z.lxor_0_r, !Z_to_byte_to_Z.
    reflexivity.
Qed.

Lemma xorCrypt_length (data key : bytes) :
  length (XorCrypto.xorCrypt data key) = length data.
Proof. unfold XorCrypto.xorCrypt. rewrite length_map. apply length_seq. Qed.

Lemma xorCrypt_involutive (data key : bytes) :
  XorCrypto.xorCrypt (XorCrypto.xorCrypt data key) key = data.
Proof.
  unfold XorCrypto.xorCrypt at 1. rewrite xorCrypt_length.
  transitivity (map (fun i => nth i data x00) (seq 0 (length data)));
    [|apply map_nth_seq].
  apply map_ext_in. intros i Hi. apply in_seq in Hi.
  unfold XorCrypto.xorCrypt.
  rewrite (nth_map_seq _ (length data) i x00) by lia.
  apply xor_elem_involutive.
Qed.

Lemma xor_encryptWithPIN_computes (data : bytes) (pin : jsstring) (e : Entropy) :
  XorCrypto.encryptWithPIN data pin e
  = (Ok (base64 (XorCrypto.xorCrypt data
                   (SHA256.hash (JS.TextEncoder_encode pin)))), e).
Proof.
  unfold XorCrypto.encryptWithPIN, XorCrypto.hashPIN, WebCrypto.digest,
    bind, ret, lift.
  rewrite btoa_fromCharCode. reflexivity.
Qed.

Lemma xor_decryptWithPIN_computes (token pin binary : jsstring) (e : Entropy) :
  JS.atob token = Ok binary ->
  XorCrypto.decryptWithPIN token pin e
  = (Ok (XorCrypto.xorCrypt (JS.charCodes binary)
           (SHA256.hash (JS.TextEncoder_encode pin))), e).
Proof.
  intros H.
  unfold XorCrypto.decryptWithPIN, XorCrypto.hashPIN, WebCrypto.digest,
    bind, ret, lift.
  rewrite H. reflexivity.
Qed.

(** C10. In the XOR variant, [xorCrypt] with the same key is an
    involution (for every key, the empty one included);
    [decryptWithPIN (encryptWithPIN (P, pin), pin)] resolves to [P] for
    every payload and PIN; and [encryptWithPIN] is deterministic: it does
    not touch the random source, and two calls with the same payload and
    PIN resolve to the same token whatever the state of that source. *)
Theorem C10_xor_round_trip_and_determinism :
  (forall d k : bytes, XorCrypto.xorCrypt (XorCrypto.xorCrypt d k) k = d)
  /\ (forall (P : bytes) (pin : jsstring) (e : Entropy),
        exists token,
          XorCrypto.encryptWithPIN P pin e = (Ok token, e)
          /\ forall e', XorCrypto.decryptWithPIN token pin e' = (Ok P, e'))
  /\ (forall (P : bytes) (pin : jsstring) (e1 e2 : Entropy),
        run (XorCrypto.encryptWithPIN P pin) e1
        = run (XorCrypto.encryptWithPIN P pin) e2
        /\ snd (XorCrypto.encryptWithPIN P pin e1) = e1).
Proof.
  split; [exact xorCrypt_involutive|]. split.
  - intros P pin e. eexists. split; [apply xor_encryptWithPIN_computes|].
    intros e'.
    rewrite (xor_decryptWithPIN_computes _ _ _ _ (atob_base64 _)).
    rewrite charCodes_fromCharCode, xorCrypt_involutive. reflexivity.
  - intros P pin e1 e2. unfold run.
    rewrite !xor_encryptWithPIN_computes. split; reflexivity.
Qed.

(* ================================================================== *)
(** * Wrong PIN and corrupted tokens *)

(** [decryptWithPIN] of the AES-GCM variant after base64 decoding, in
    full: the data after the first twelve bytes must hold a tag, and the
    tag must be the one recomputed under the PIN's key. *)
Lemma open_combined_spec (pin : jsstring) (combined : bytes) :
  open_combined pin combined
  = let iv := firstn 12 combined in
    let body := skipn 12 combined in
    let C := firstn (length body - 16) body in
    let T := skipn (length body - 16) body in
    if Nat.ltb (length body) 16 then Throw Crypto.AuthenticationError
    else if bytes_eqb T (pin_tag pin iv C)
         then Ok (GCM.gctr (pin_key_data pin)
                           (GCM.inc32 (GCM.J0 (pin_key_data pin) iv)) C)
         else Throw Crypto.AuthenticationError.
Proof.
  cbv zeta. unfold open_combined, WebCrypto.decrypt.
  cbn [pin_key WebCrypto.key_algorithm WebCrypto.name_eqb negb
       WebCrypto.key_usages WebCrypto.has_usage existsb WebCrypto.usage_eqb
       orb WebCrypto.key_data].
  change (negb (WebCrypto.valid_tag_length 128)) with false.
  change (Nat.div 128 8) with 16%nat. cbv iota.
  destruct (Nat.ltb (length (skipn 12 combined)) 16) eqn:Hlen; [reflexivity|].
  apply Nat.ltb_ge in Hlen.
  unfold GCM.decrypt.
  replace (length (skipn (length (skipn 12 combined) - 16) (skipn 12 combined)))
    with 16%nat by (rewrite length_skipn; lia).
  fold (pin_tag pin (firstn 12 combined)
          (firstn (length (skipn 12 combined) - 16) (skipn 12 combined))).
  destruct (bytes_eqb _ _); reflexivity.
Qed.

(** C2, as amended.  AES-GCM variant: decrypting the token of
    [encryptWithPIN (P, K1)] with [K2] raises the authentication error
    unless the tag recomputed under the key of [K2] equals the tag in the
    token; for an arbitrary token, [decryptWithPIN] returns bytes only
    when the token decodes to at least 28 bytes whose last sixteen are the
    tag recomputed under the key of the PIN, and otherwise raises the
    authentication error (or, for text that is not base64, the exception
    of [atob]).  XOR variant: there is no authentication; decrypting the
    token of [encryptWithPIN (P, K1)] with [K2] never raises and returns
    [P] xored with both PIN hashes. *)
Theorem C2_wrong_pin_by_variant (P : bytes) (K1 K2 : jsstring) (e : Entropy) :
  (let iv := nonce_at e 0 in
   let C := pin_ciphertext K1 iv P in
   exists token,
     Crypto.encryptWithPIN P K1 e = (Ok token, after_draw 12 e)
     /\ forall e',
          Crypto.decryptWithPIN token K2 e'
          = (if bytes_eqb (pin_tag K1 iv C) (pin_tag K2 iv C)
             then Ok (GCM.gctr (pin_key_data K2)
                               (GCM.inc32 (GCM.J0 (pin_key_data K2) iv)) C)
             else Throw Crypto.AuthenticationError, e'))
  /\ (forall (token : jsstring) (e' : Entropy),
        Crypto.decryptWithPIN token K2 e'
        = (match JS.atob token with
           | Throw x => Throw x
           | Ok binary =>
               let combined := JS.charCodes binary in
               let iv := firstn 12 combined in
               let body := skipn 12 combined in
               let C := firstn (length body - 16) body in
               let T := skipn (length body - 16) body in
               if Nat.ltb (length body) 16
               then Throw Crypto.AuthenticationError
               else if bytes_eqb T (pin_tag K2 iv C)
                    then Ok (GCM.gctr (pin_key_data K2)
                               (GCM.inc32 (GCM.J0 (pin_key_data K2) iv)) C)
                    else Throw Crypto.AuthenticationError
           end, e'))
  /\ (exists token,
        XorCrypto.encryptWithPIN P K1 e = (Ok token, e)
        /\ forall e',
             XorCrypto.decryptWithPIN token K2 e'
             = (Ok (XorCrypto.xorCrypt
                      (XorCrypto.xorCrypt P
                         (SHA256.hash (JS.TextEncoder_encode K1)))
                      (SHA256.hash (JS.TextEncoder_encode K2))), e')).
Proof.
  split; [|split].
  - cbv zeta. eexists. split; [apply encryptWithPIN_computes|].
    intros e'.
    rewrite (decryptWithPIN_computes _ _ _ _ (atob_base64 _)).
    rewrite charCodes_fromCharCode. unfold token_bytes.
    rewrite open_combined_layout;
      [reflexivity | apply nonce_at_length | apply gcm_tag_length].
  - intros token e'. destruct (JS.atob token) as [binary|x] eqn:Hatob.
    + rewrite (decryptWithPIN_computes _ _ _ _ Hatob).
      rewrite open_combined_spec. reflexivity.
    + apply (decryptWithPIN_bad_base64 _ _ _ _ Hatob).
  - eexists. split; [apply xor_encryptWithPIN_computes|].
    intros e'.
    rewrite (xor_decryptWithPIN_computes _ _ _ _ (atob_base64 _)).
    rewrite charCodes_fromCharCode. reflexivity.
Qed.

(** C2 fails in the XOR variant: with PIN 1234 for encryption and PIN
    0000 for decryption, whose SHA-256 keys differ, decryption of the
    token of the payload [secret] resolves to six other bytes instead of
    raising. *)
Lemma C2_xor_accepts_wrong_pin :
  str "1234" <> str "0000"
  /\ SHA256.hash (JS.TextEncoder_encode (str "1234"))
     <> SHA256.hash (JS.TextEncoder_encode (str "0000"))
  /\ XorCrypto.encryptWithPIN (ascii_bytes "secret") (str "1234") zero_entropy
     = (Ok (str "cMkEMHOH"), zero_entropy)
  /\ XorCrypto.decryptWithPIN (str "cMkEMHOH") (str "0000") zero_entropy
     = (Ok (hex "ea385f031ded"), zero_entropy)
  /\ hex "ea385f031ded" <> ascii_bytes "secret".
Proof.
  split; [vm_compute; discriminate|].
  split; [vm_compute; discriminate|].
  split; [vm_compute; reflexivity|].
  split; [vm_compute; reflexivity|].
  vm_compute; discriminate.
Qed.

(** Why the AES-GCM part above is stated with the recomputed tag: the tag
    of GCM does not commit to the key.  Under the platform's AES-GCM, the
    sixteen-byte payload below, encrypted under the key of 32 zero bytes,
    decrypts without error under the key of 32 bytes 01, to other
    bytes. *)
Lemma aes_gcm_tag_does_not_commit_to_the_key :
  let key1 := WebCrypto.mkKey WebCrypto.AES_GCM_name false
                [WebCrypto.encrypt_usage; WebCrypto.decrypt_usage]
                (repeat x00 32) in
  let key2 := WebCrypto.mkKey WebCrypto.AES_GCM_name false
                [WebCrypto.encrypt_usage; WebCrypto.decrypt_usage]
                (repeat x01 32) in
  let iv := repeat x00 12 in
  WebCrypto.encrypt iv 128 key1 (hex "682911b6431b72c62111fd8545b47f86")
  = Ok (hex "a68e518b0e7b19a8265f3856ff47e29e"
          ++ hex "66da142acc04cedc22795af59647fbae")
  /\ WebCrypto.decrypt iv 128 key2
       (hex "a68e518b0e7b19a8265f3856ff47e29e"
          ++ hex "66da142acc04cedc22795af59647fbae")
     = Ok (hex "19bbc9577b401a17b526aa138e6323df").
Proof. vm_compute. split; reflexivity. Qed.

(* ================================================================== *)
(** * Envelopes *)

Lemma trimStart_app_stop (a b : jsstring) (c : Z) :
  JS.is_white_space c = false ->
  JS.trimStart (a ++ c :: b) = JS.trimStart a ++ c :: b.
Proof.
  intros Hc. induction a as [|x a IH].
  - cbn [app JS.trimStart]. rewrite Hc. reflexivity.
  - cbn [app JS.trimStart]. destruct (JS.is_white_space x); [exact IH|reflexivity].
Qed.

(** Trailing white space is removed after the last other character. *)
Lemma trimEnd_after (s t : jsstring) (c : Z) :
  JS.is_white_space c = false ->
  JS.trimEnd (s ++ c :: t) = s ++ c :: JS.trimEnd t.
Proof.
  intros Hc. unfold JS.trimEnd.
  rewrite rev_app_distr. cbn [rev]. rewrite <- app_assoc. cbn [app].
  rewrite (trimStart_app_stop _ _ _ Hc).
  rewrite rev_app_distr. cbn [rev]. rewrite rev_involutive.
  rewrite <- app_assoc. reflexivity.
Qed.

Lemma startsWith_app (p s : jsstring) : JS.startsWith (p ++ s) p = true.
Proof.
  induction p as [|c p IH]; [reflexivity|].
  cbn [app JS.startsWith]. rewrite Z.eqb_refl. exact IH.
Qed.

(** Decoding an envelope whose prefix has no white space at its ends
    gives the token without its trailing white space. *)
Lemma trim_envelope (p t : jsstring) (first last : Z) (middle : jsstring) :
  p = first :: middle ++ [last] ->
  JS.is_white_space first = false -> JS.is_white_space last = false ->
  JS.trim (p ++ t) = p ++ JS.trimEnd t.
Proof.
  intros -> Hfirst Hlast. unfold JS.trim.
  cbn [app JS.trimStart]. rewrite Hfirst.
  change (first :: (middle ++ [last]) ++ t)
    with ((first :: middle ++ [last]) ++ t).
  replace ((first :: middle ++ [last]) ++ t)
    with ((first :: middle) ++ last :: t)
    by (cbn [app]; rewrite <- app_assoc; reflexivity).
  rewrite (trimEnd_after _ _ _ Hlast).
  cbn [app]. rewrite <- app_assoc. reflexivity.
Qed.

Lemma decode_encode_wallet (t : jsstring) :
  Crypto.decodeWalletData (Crypto.encodeWalletData t) = Ok (JS.trimEnd t).
Proof.
  unfold Crypto.decodeWalletData, Crypto.encodeWalletData.
  rewrite (trim_envelope Crypto.WALLET_PREFIX t 83 58 (str "OL1"))
    by reflexivity.
  rewrite startsWith_app. cbn [negb]. unfold JS.slice_from.
  rewrite skipn_app, Nat.sub_diag, skipn_all. reflexivity.
Qed.

Lemma decode_encode_seed (t : jsstring) :
  Seed.decodeSeedData (Seed.encodeSeedData t) = Ok (JS.trimEnd t).
Proof.
  unfold Seed.decodeSeedData, Seed.encodeSeedData.
  rewrite (trim_envelope Seed.SEED_PREFIX t 83 58 (str "EED1"))
    by reflexivity.
  rewrite startsWith_app. cbn [negb]. unfold JS.slice_from.
  rewrite skipn_app, Nat.sub_diag, skipn_all. reflexivity.
Qed.

(** A string whose last character is not white space is its own
    [trimEnd]. *)
Lemma trimEnd_fixed (s : jsstring) (c : Z) :
  JS.is_white_space c = false -> JS.trimEnd (s ++ [c]) = s ++ [c].
Proof.
  intros Hc. rewrite (trimEnd_after s [] c Hc). reflexivity.
Qed.

Lemma b64_value_not_white (c v : Z) :
  JS.b64_value c = Some v -> JS.is_white_space c = false.
Proof.
  unfold JS.b64_value, JS.is_white_space. intros H.
  destruct ((65 <=? c) && (c <=? 90)) eqn:E1.
  { apply andb_true_iff in E1 as [A B]. apply Z.leb_le in A, B.
    repeat (apply orb_false_iff; split);
      try (apply Z.eqb_neq; lia);
      apply andb_false_iff; left; apply Z.leb_gt; lia. }
  destruct ((97 <=? c) && (c <=? 122)) eqn:E2.
  { apply andb_true_iff in E2 as [A B]. apply Z.leb_le in A, B.
    repeat (apply orb_false_iff; split);
      try (apply Z.eqb_neq; lia);
      apply andb_false_iff; left; apply Z.leb_gt; lia. }
  destruct ((48 <=? c) && (c <=? 57)) eqn:E3.
  { apply andb_true_iff in E3 as [A B]. apply Z.leb_le in A, B.
    repeat (apply orb_false_iff; split);
      try (apply Z.eqb_neq; lia);
      apply andb_false_iff; left; apply Z.leb_gt; lia. }
  destruct (c =? 43) eqn:E4.
  { apply Z.eqb_eq in E4. subst. reflexivity. }
  destruct (c =? 47) eqn:E5.
  { apply Z.eqb_eq in E5. subst. reflexivity. }
  discriminate.
Qed.

(** No base64 text ends in white space: the envelope keeps every token
    that [btoa] produces. *)
Lemma trimEnd_base64 (bs : bytes) : JS.trimEnd (base64 bs) = base64 bs.
Proof.
  assert (Hall : Forall (fun c => JS.is_white_space c = false) (base64 bs)).
  { unfold base64. apply Forall_app. split.
    - apply Forall_forall. intros c Hc.
      apply in_map_iff in Hc as (n & <- & Hn).
      pose proof (to_sextets_range _ (fromCharCode_bytes bs)) as Hr.
      rewrite Forall_forall in Hr.
      apply (b64_value_not_white _ n), b64_value_char, Hr, Hn.
    - apply Forall_forall. intros c Hc. apply padding_chars in Hc.
      subst. reflexivity. }
  destruct (base64 bs) as [|c0 l] using rev_ind; [reflexivity|].
  apply trimEnd_fixed. apply Forall_app in Hall as [_ Hlast].
  inversion Hlast; assumption.
Qed.

Lemma startsWith_inv (p s : jsstring) :
  JS.startsWith s p = true -> s = p ++ skipn (length p) s.
Proof.
  revert s. induction p as [|c p IH]; intros s H; [reflexivity|].
  destruct s as [|d s]; [discriminate H|].
  cbn [JS.startsWith] in H. apply andb_true_iff in H. destruct H as [Hc Hp].
  apply Z.eqb_eq in Hc. subst d. cbn [length skipn app]. f_equal.
  apply IH. exact Hp.
Qed.

Lemma startsWith_complete (s p : jsstring) :
  (forall rest, s <> p ++ rest) -> JS.startsWith s p = false.
Proof.
  intros H. destruct (JS.startsWith s p) eqn:E; [|reflexivity].
  apply startsWith_inv in E. exfalso. exact (H _ E).
Qed.

Lemma base64_char_not_white (c : Z) :
  is_base64_char c = true -> JS.is_white_space c = false.
Proof.
  unfold is_base64_char. destruct (JS.b64_value c) as [v|] eqn:E.
  - intros _. exact (b64_value_not_white c v E).
  - intros H. apply Z.eqb_eq in H. subst c. reflexivity.
Qed.

Lemma token_keeps_its_end (t : jsstring) :
  is_token t = true -> JS.trimEnd t = t.
Proof.
  intros Ht. destruct t as [|a t]; [reflexivity|].
  destruct (@exists_last _ (a :: t)) as (s & c & Hs); [discriminate|].
  rewrite Hs in *. unfold is_token in Ht. rewrite forallb_app in Ht.
  apply andb_true_iff in Ht. destruct Ht as [_ Hc].
  cbn [forallb] in Hc. rewrite andb_true_r in Hc.
  apply trimEnd_fixed, base64_char_not_white. exact Hc.
Qed.

Lemma base64_is_token (bs : bytes) : is_token (base64 bs) = true.
Proof.
  unfold is_token, base64. rewrite forallb_app. apply andb_true_iff. split.
  - apply forallb_forall. intros c Hc. apply in_map_iff in Hc.
    destruct Hc as (n & <- & Hn). unfold is_base64_char.
    rewrite b64_value_char; [reflexivity|].
    pose proof (to_sextets_range _ (fromCharCode_bytes bs)) as Hr.
    rewrite Forall_forall in Hr. apply Hr. exact Hn.
  - apply forallb_forall. intros c Hc. apply padding_chars in Hc. subst c.
    reflexivity.
Qed.

Lemma decode_with_prefix (p text rest : jsstring) :
  JS.trim text = p ++ rest ->
  JS.startsWith (JS.trim text) p = true
  /\ JS.slice_from (JS.trim text) (length p) = rest.
Proof.
  intros H. rewrite H. split; [apply startsWith_app|].
  unfold JS.slice_from. rewrite skipn_app, Nat.sub_diag, skipn_all.
  reflexivity.
Qed.

(** C3.  For both payload kinds and every token, that is every base64
    text, decoding the encoding returns the token; what either
    [encryptWithPIN] resolves to is a token.  (For an arbitrary string
    decoding the encoding returns it without its trailing white space:
    the decoders trim.)  A decoder returns [rest] exactly on the texts
    that, once trimmed, are its prefix followed by [rest]; on every
    other text, [garbage] among them, it raises the format error of its
    kind.  The decoders are pure string functions, and in the sign
    handlers the format error leaves before [decryptWithPIN] is
    reached. *)
Theorem C3_envelope_fidelity (t : jsstring) :
  is_token t = true ->
  Crypto.decodeWalletData (Crypto.encodeWalletData t) = Ok t
  /\ Seed.decodeSeedData (Seed.encodeSeedData t) = Ok t
  /\ (forall P pin e,
        exists token,
          Crypto.encryptWithPIN P pin e = (Ok token, after_draw 12 e)
          /\ is_token token = true)
  /\ (forall P pin e,
        exists token,
          XorCrypto.encryptWithPIN P pin e = (Ok token, e)
          /\ is_token token = true)
  /\ (forall u, Crypto.decodeWalletData (Crypto.encodeWalletData u)
                = Ok (JS.trimEnd u)
                /\ Seed.decodeSeedData (Seed.encodeSeedData u)
                   = Ok (JS.trimEnd u))
  /\ (forall bs, JS.trimEnd (base64 bs) = base64 bs)
  /\ (forall text,
        (forall rest, JS.trim text <> Crypto.WALLET_PREFIX ++ rest) ->
        Crypto.decodeWalletData text = Throw Crypto.FormatError)
  /\ (forall text,
        (forall rest, JS.trim text <> Seed.SEED_PREFIX ++ rest) ->
        Seed.decodeSeedData text = Throw Seed.FormatError)
  /\ (forall text rest,
        JS.trim text = Crypto.WALLET_PREFIX ++ rest ->
        Crypto.decodeWalletData text = Ok rest)
  /\ (forall text rest,
        JS.trim text = Seed.SEED_PREFIX ++ rest ->
        Seed.decodeSeedData text = Ok rest)
  /\ Crypto.decodeWalletData (str "garbage") = Throw Crypto.FormatError
  /\ Seed.decodeSeedData (str "garbage") = Throw Seed.FormatError
  /\ (forall text pin e,
        (forall rest, JS.trim text <> Seed.SEED_PREFIX ++ rest) ->
        SmartAccountsPage.decryptSeed text pin e
        = (Throw Seed.FormatError, e)).
Proof.
  intros Ht. apply token_keeps_its_end in Ht.
  split; [rewrite decode_encode_wallet, Ht; reflexivity|].
  split; [rewrite decode_encode_seed, Ht; reflexivity|].
  split.
  { intros P pin e. eexists. split; [apply encryptWithPIN_computes|].
    apply base64_is_token. }
  split.
  { intros P pin e. eexists. split; [apply xor_encryptWithPIN_computes|].
    apply base64_is_token. }
  split; [intros u; split;
          [apply decode_encode_wallet | apply decode_encode_seed]|].
  split; [exact trimEnd_base64|].
  split.
  { intros text H. unfold Crypto.decodeWalletData.
    rewrite (startsWith_complete _ _ H). reflexivity. }
  split.
  { intros text H. unfold Seed.decodeSeedData.
    rewrite (startsWith_complete _ _ H). reflexivity. }
  split.
  { intros text rest H. unfold Crypto.decodeWalletData.
    destruct (decode_with_prefix _ _ _ H) as [-> ->]. reflexivity. }
  split.
  { intros text rest H. unfold Seed.decodeSeedData.
    destruct (decode_with_prefix _ _ _ H) as [-> ->]. reflexivity. }
  split; [reflexivity|]. split; [reflexivity|].
  intros text pin e H.
  unfold SmartAccountsPage.decryptSeed, bind, lift, Seed.decodeSeedData.
  rewrite (startsWith_complete _ _ H). reflexivity.
Qed.

Lemma C3_base64_token_witness :
  is_token (str "cMkEMHOH") = true
  /\ Crypto.decodeWalletData (Crypto.encodeWalletData (str "cMkEMHOH"))
     = Ok (str "cMkEMHOH")
  /\ Seed.decodeSeedData (Seed.encodeSeedData (str "cMkEMHOH"))
     = Ok (str "cMkEMHOH").
Proof.
  assert (H : is_token (str "cMkEMHOH") = true) by reflexivity.
  split; [exact H|].
  destruct (C3_envelope_fidelity (str "cMkEMHOH") H) as (Hw & Hs & _).
  split; assumption.
Defined.

(** C8. The probes are total boolean functions, so they never throw, and
    each is true exactly when the decoder of its kind succeeds; when it
    is false the decoder raises the format error. *)
Theorem C8_probe_consistency (text : jsstring) :
  (Crypto.isWalletData text = true
   <-> exists token, Crypto.decodeWalletData text = Ok token)
  /\ (Crypto.isWalletData text = false
      <-> Crypto.decodeWalletData text = Throw Crypto.FormatError)
  /\ (Seed.isSeedData text = true
      <-> exists token, Seed.decodeSeedData text = Ok token)
  /\ (Seed.isSeedData text = false
      <-> Seed.decodeSeedData text = Throw Seed.FormatError)
  /\ Crypto.isWalletData text = is_ok (Crypto.decodeWalletData text)
  /\ Seed.isSeedData text = is_ok (Seed.decodeSeedData text).
Proof.
  unfold Crypto.isWalletData, Crypto.decodeWalletData,
    Seed.isSeedData, Seed.decodeSeedData.
  destruct (JS.startsWith (JS.trim text) Crypto.WALLET_PREFIX);
    destruct (JS.startsWith (JS.trim text) Seed.SEED_PREFIX);
    cbn [negb is_ok];
    repeat split; intros H; try reflexivity; try discriminate;
    try (eexists; reflexivity);
    try (destruct H as [tk H]; discriminate).
Qed.

(** The seed flow end to end: the token of a seed survives the seed
    envelope unchanged, the envelope is recognized, and the token opens
    to the seed under the same PIN. *)
Lemma seed_flow_end_to_end (seed : bytes) (pin : jsstring) (e : Entropy) :
  exists token,
    Crypto.encryptWithPIN seed pin e = (Ok token, after_draw 12 e)
    /\ Seed.isSeedData (Seed.encodeSeedData token) = true
    /\ Seed.decodeSeedData (Seed.encodeSeedData token) = Ok token
    /\ forall e', Crypto.decryptWithPIN token pin e' = (Ok seed, e').
Proof.
  eexists. split; [apply encryptWithPIN_computes|].
  assert (Hdec : Seed.decodeSeedData
                   (Seed.encodeSeedData
                      (base64 (token_bytes pin (nonce_at e 0) seed)))
                 = Ok (base64 (token_bytes pin (nonce_at e 0) seed)))
    by (rewrite decode_encode_seed, trimEnd_base64; reflexivity).
  split; [|split; [exact Hdec|]].
  - unfold Seed.isSeedData. unfold Seed.decodeSeedData in Hdec.
    destruct (JS.startsWith _ Seed.SEED_PREFIX); [reflexivity|discriminate].
  - intros e'. apply token_opens. apply drawn_length.
Qed.

(* ================================================================== *)
(** * The PIN key is PBKDF2-HMAC-SHA-256 *)

Lemma pbkdf2_steps (P S : bytes) (k : nat) :
  Nat.iter k (PBKDF2.step P) (Reference.U P S 0, Reference.U P S 0)
  = (fold_left xor_bytes (map (Reference.U P S) (seq 1 k)) (Reference.U P S 0),
     Reference.U P S k).
Proof.
  induction k as [|k IH]; [reflexivity|].
  rewrite Nat.iter_succ, IH. unfold PBKDF2.step. cbn [fst snd].
  rewrite seq_S, map_app, fold_left_app. reflexivity.
Qed.

(** The loop of the platform model computes the formula of RFC 8018. *)
Lemma pbkdf2_F_is_reference (P S : bytes) (c : N) :
  PBKDF2.F P S c 1 = Reference.PBKDF2_HMAC_SHA256 P S c.
Proof.
  unfold PBKDF2.F, Reference.PBKDF2_HMAC_SHA256.
  change (HMAC.hmac P (S ++ be_bytes 4 (Z.of_nat 1))) with (Reference.U P S 0).
  rewrite N2Nat.inj_iter, pbkdf2_steps, N2Nat.inj_sub. reflexivity.
Qed.

Lemma salt_bytes :
  JS.TextEncoder_encode (str "nfc-smart-account-salt")
  = ascii_bytes "nfc-smart-account-salt".
Proof. vm_compute. reflexivity. Qed.

Lemma pin_key_data_is_reference (pin : jsstring) :
  pin_key_data pin
  = Reference.PBKDF2_HMAC_SHA256 (JS.TextEncoder_encode pin)
      (ascii_bytes "nfc-smart-account-salt") 100000.
Proof.
  unfold pin_key_data.
  rewrite pbkdf2_derive_32, pbkdf2_F_is_reference, salt_bytes, ITERATIONS_eq.
  reflexivity.
Qed.

(** C4. [deriveKeyFromPIN] always resolves, without touching the random
    source, to an AES-GCM key for encryption and decryption whose 256
    bits (32 bytes) are PBKDF2-HMAC-SHA-256 of the UTF-8 bytes of the
    PIN with the salt [nfc-smart-account-salt] and 100,000 iterations;
    the same PIN therefore always yields the same key. *)
Theorem C4_pin_key_is_pbkdf2 (pin : jsstring) :
  exists key,
    (forall e, Crypto.deriveKeyFromPIN pin e = (Ok key, e))
    /\ WebCrypto.key_data key
       = Reference.PBKDF2_HMAC_SHA256 (JS.TextEncoder_encode pin)
           (ascii_bytes "nfc-smart-account-salt") 100000
    /\ length (WebCrypto.key_data key) = 32%nat
    /\ (8 * length (WebCrypto.key_data key) = 256)%nat
    /\ WebCrypto.key_algorithm key = WebCrypto.AES_GCM_name
    /\ WebCrypto.key_usages key
       = [WebCrypto.encrypt_usage; WebCrypto.decrypt_usage]
    /\ (forall e1 e2, run (Crypto.deriveKeyFromPIN pin) e1
                      = run (Crypto.deriveKeyFromPIN pin) e2).
Proof.
  exists (pin_key pin).
  split; [intros e; apply deriveKeyFromPIN_resolves|].
  split; [apply pin_key_data_is_reference|].
  split; [apply pin_key_data_length|].
  split; [change (WebCrypto.key_data (pin_key pin)) with (pin_key_data pin);
          rewrite pin_key_data_length; reflexivity|].
  split; [reflexivity|]. split; [reflexivity|].
  intros e1 e2. unfold run. rewrite !deriveKeyFromPIN_resolves. reflexivity.
Qed.

(* ================================================================== *)
(** * Seed derivation *)

Lemma hkdf_derive_32 (salt ikm info : bytes) :
  HKDF.derive salt ikm info 32
  = HMAC.hmac (HMAC.hmac salt ikm) (info ++ [x01]).
Proof.
  unfold HKDF.derive, HKDF.expand, HKDF.extract.
  change (Nat.div (32 + HKDF.hashLen - 1) HKDF.hashLen) with 1%nat.
  cbn [HKDF.expand_blocks app]. rewrite app_nil_r.
  change (Z_to_byte (Z.of_nat 1)) with x01.
  apply firstn_all2. rewrite hmac_length. lia.
Qed.

(** [hkdfDerive] checks nothing about the seed: for a seed of any length
    it resolves to the HKDF output. *)
Lemma hkdfDerive_32_resolves (seed : bytes) (info : jsstring) (e : Entropy) :
  Seed.hkdfDerive seed info 32 e = (Ok (Reference.chainKey seed info), e).
Proof.
  unfold Seed.hkdfDerive, bind, lift, ret, Reference.chainKey.
  rewrite <- hkdf_derive_32. reflexivity.
Qed.

(** A chain key is the digest of its outer message. *)
Lemma chainKey_hashes (seed : bytes) (label : jsstring) :
  Reference.chainKey seed label = SHA256.hash (chain_outer seed label).
Proof. reflexivity. Qed.

Lemma chain_inner_separates :
  JS.TextEncoder_encode (str "ethereum") ++ [x01]
  <> JS.TextEncoder_encode (str "solana") ++ [x01].
Proof. vm_compute. discriminate. Qed.

(** The determinism and the construction of C5: seed derivation does not
    touch the random source, and is HKDF-SHA-256 with a salt of 32 zero
    bytes and the label as [info], for a seed of any length. *)
Lemma hkdfDerive_deterministic (seed : bytes) (label : jsstring) :
  (forall e1 e2, run (Seed.hkdfDerive seed label 32) e1
                 = run (Seed.hkdfDerive seed label 32) e2)
  /\ (forall e, Seed.hkdfDerive seed label 32 e
                = (Ok (HKDF.derive (repeat x00 32) seed
                         (JS.TextEncoder_encode label) 32), e))
  /\ (forall e, Seed.deriveEthPrivateKey seed e
                = (Ok (Reference.chainKey seed (str "ethereum")), e))
  /\ (forall e, Seed.deriveSolPrivateKey seed e
                = (Ok (Reference.chainKey seed (str "solana")), e)).
Proof.
  split; [intros e1 e2; unfold run; rewrite !hkdfDerive_32_resolves;
          reflexivity|].
  split; [intros e; rewrite hkdfDerive_32_resolves, hkdf_derive_32;
          reflexivity|].
  split; intros e; apply hkdfDerive_32_resolves.
Qed.

(** The label separation of C5 at the seed of 32 zero bytes: the
    Ethereum and Solana keys differ. *)
Lemma label_separation_zero_seed :
  run (Seed.deriveEthPrivateKey (repeat x00 32)) zero_entropy
  = Ok (hex "4458f201b7e5d93e62725e8613504c03536c8c671d60344ff3bdf3590035e616")
  /\ run (Seed.deriveSolPrivateKey (repeat x00 32)) zero_entropy
     = Ok (hex "b9b6b20ec1f8e122dbf82cf46b438958a33e86c2b86fac084c84b11612229052")
  /\ run (Seed.deriveEthPrivateKey (repeat x00 32)) zero_entropy
     <> run (Seed.deriveSolPrivateKey (repeat x00 32)) zero_entropy.
Proof.
  split; [vm_compute; reflexivity|]. split; [vm_compute; reflexivity|].
  vm_compute. discriminate.
Qed.

(** The label separation of C5 for every seed, reduced to SHA-256 on
    named messages.  The two messages that the inner hash of the expand
    step sees for the labels [ethereum] and [solana] are different.
    The two keys differ, unless SHA-256 gives these two messages the
    same digest, or gives the same digest to the two messages of the
    outer hash, which are then different as well.  So equal keys for a
    seed would exhibit a collision of SHA-256 on messages computed from
    that seed. *)
Theorem label_separation_or_named_collision (seed : bytes) (e : Entropy) :
  chain_inner seed (str "ethereum") <> chain_inner seed (str "solana")
  /\ run (Seed.deriveEthPrivateKey seed) e
     = Ok (SHA256.hash (chain_outer seed (str "ethereum")))
  /\ run (Seed.deriveSolPrivateKey seed) e
     = Ok (SHA256.hash (chain_outer seed (str "solana")))
  /\ (run (Seed.deriveEthPrivateKey seed) e
      <> run (Seed.deriveSolPrivateKey seed) e
      \/ SHA256.hash (chain_inner seed (str "ethereum"))
         = SHA256.hash (chain_inner seed (str "solana"))
      \/ (chain_outer seed (str "ethereum") <> chain_outer seed (str "solana")
          /\ SHA256.hash (chain_outer seed (str "ethereum"))
             = SHA256.hash (chain_outer seed (str "solana")))).
Proof.
  assert (run (Seed.deriveEthPrivateKey seed) e
          = Ok (SHA256.hash (chain_outer seed (str "ethereum")))) as He
    by (unfold run, Seed.deriveEthPrivateKey;
        rewrite hkdfDerive_32_resolves; reflexivity).
  assert (run (Seed.deriveSolPrivateKey seed) e
          = Ok (SHA256.hash (chain_outer seed (str "solana")))) as Hs
    by (unfold run, Seed.deriveSolPrivateKey;
        rewrite hkdfDerive_32_resolves; reflexivity).
  split.
  { unfold chain_inner. intros H. apply app_inv_head in H.
    exact (chain_inner_separates H). }
  split; [exact He|]. split; [exact Hs|].
  rewrite He, Hs.
  set (oe := chain_outer seed (str "ethereum")).
  set (os := chain_outer seed (str "solana")).
  destruct (list_eq_dec Byte.byte_eq_dec (SHA256.hash oe) (SHA256.hash os))
    as [Hout|Hout].
  - destruct (list_eq_dec Byte.byte_eq_dec
                (SHA256.hash (chain_inner seed (str "ethereum")))
                (SHA256.hash (chain_inner seed (str "solana")))) as [Hin|Hin].
    + right. left. exact Hin.
    + right. right. split; [|exact Hout].
      unfold oe, os, chain_outer. intros H. apply app_inv_head in H.
      exact (Hin H).
  - left. intros H. apply Hout. apply (Ok_inj _ _ H).
Qed.

(** C9, as amended.  [keypairFromSeed] rejects a seed that is not
    exactly 32 bytes with the error [Seed must be exactly 32 bytes] and
    never hands it to [Keypair.fromSeed]; it hands every 32-byte seed to
    it.  [hkdfDerive] has no such check: for a seed of any length it
    resolves to the 32 bytes that HKDF derives from it. *)
Theorem C9_seed_length_checks (Keypair : Type)
        (Keypair_fromSeed : bytes -> result Keypair) (seed : bytes) :
  length seed <> 32%nat ->
  Swig.keypairFromSeed Keypair Keypair_fromSeed seed = Throw Swig.InputError
  /\ (forall seed32, length seed32 = 32%nat ->
        Swig.keypairFromSeed Keypair Keypair_fromSeed seed32
        = Keypair_fromSeed seed32)
  /\ (forall label e,
        exists key, Seed.hkdfDerive seed label 32 e = (Ok key, e)
                    /\ length key = 32%nat
                    /\ key = HKDF.derive (repeat x00 32) seed
                               (JS.TextEncoder_encode label) 32).
Proof.
  intros Hlen. split; [|split].
  - unfold Swig.keypairFromSeed.
    apply Nat.eqb_neq in Hlen. rewrite Hlen. reflexivity.
  - intros seed32 H32. unfold Swig.keypairFromSeed.
    rewrite H32. reflexivity.
  - intros label e. exists (Reference.chainKey seed label).
    split; [apply hkdfDerive_32_resolves|].
    split; [apply hmac_length|].
    rewrite hkdf_derive_32. reflexivity.
Qed.

Lemma C9_short_seed_witness :
  length (repeat x00 16) <> 32%nat
  /\ Swig.keypairFromSeed bytes (fun s => Ok s) (repeat x00 16)
     = Throw Swig.InputError
  /\ exists key,
       Seed.hkdfDerive (repeat x00 16) (str "ethereum") 32 zero_entropy
       = (Ok key, zero_entropy)
       /\ length key = 32%nat.
Proof.
  assert (H : length (repeat x00 16) <> 32%nat) by (vm_compute; discriminate).
  split; [exact H|].
  destruct (C9_seed_length_checks bytes (fun s => Ok s) (repeat x00 16) H)
    as (Hk & _ & Hd).
  split; [exact Hk|].
  destruct (Hd (str "ethereum") zero_entropy) as (key & Hr & Hl & _).
  exists key. split; assumption.
Defined.

(** C9 fails for [hkdfDerive]: a seed of 16 bytes is not rejected, the
    call resolves to 32 derived bytes. *)
Lemma C9_hkdfDerive_accepts_short_seed :
  length (repeat x00 16) <> 32%nat
  /\ Seed.hkdfDerive (repeat x00 16) (str "ethereum") 32 zero_entropy
     = (Ok (hex "dab0f4a6de85a4e9113f397f741af79560045b1a9b68257f8e5b5e83ab3bae1c"),
        zero_entropy).
Proof. split; [vm_compute; discriminate|vm_compute; reflexivity]. Qed.

(** In the account flows [keypairFromSeed] receives the derived Solana
    key, which always has 32 bytes: its check never fires there. *)
Lemma derived_solana_key_is_accepted (Keypair : Type)
      (Keypair_fromSeed : bytes -> result Keypair) (seed : bytes) (e : Entropy) :
  exists solKey,
    Seed.deriveSolPrivateKey seed e = (Ok solKey, e)
    /\ length solKey = 32%nat
    /\ Swig.keypairFromSeed Keypair Keypair_fromSeed solKey
       = Keypair_fromSeed solKey.
Proof.
  exists (Reference.chainKey seed (str "solana")).
  split; [apply hkdfDerive_32_resolves|].
  assert (Hlen : length (Reference.chainKey seed (str "solana")) = 32%nat)
    by apply hmac_length.
  split; [exact Hlen|].
  unfold Swig.keypairFromSeed. rewrite Hlen. reflexivity.
Qed.

(* ================================================================== *)
(** * [bytesToHex] *)

Lemma hex_pair (b : byte) :
  JS.padStart (JS.toString16 (byte_to_Z b)) 2 48
  = [JS.hex_char (byte_to_Z b / 16); JS.hex_char (byte_to_Z b mod 16)].
Proof.
  pose proof (byte_to_Z_range b) as Hb.
  unfold JS.padStart, JS.toString16.
  destruct (byte_to_Z b <? 16) eqn:E.
  - apply Z.ltb_lt in E.
    rewrite (Z.div_small (byte_to_Z b) 16), (Z.mod_small (byte_to_Z b) 16) by lia.
    reflexivity.
  - reflexivity.
Qed.

Lemma hex_char_digit (d : Z) : 0 <= d < 16 -> is_hex_digit (JS.hex_char d).
Proof.
  intros Hd. unfold JS.hex_char, is_hex_digit.
  destruct (d <? 10) eqn:E; [apply Z.ltb_lt in E | apply Z.ltb_ge in E]; lia.
Qed.

Lemma hex_char_inj (d1 d2 : Z) :
  0 <= d1 < 16 -> 0 <= d2 < 16 -> JS.hex_char d1 = JS.hex_char d2 -> d1 = d2.
Proof.
  intros H1 H2. unfold JS.hex_char.
  destruct (d1 <? 10) eqn:E1; destruct (d2 <? 10) eqn:E2;
    [apply Z.ltb_lt in E1 | apply Z.ltb_lt in E1 | apply Z.ltb_ge in E1
     | apply Z.ltb_ge in E1];
    [apply Z.ltb_lt in E2 | apply Z.ltb_ge in E2 | apply Z.ltb_lt in E2
     | apply Z.ltb_ge in E2]; lia.
Qed.

Lemma bytesToHex_pairs (data : bytes) :
  Seed.bytesToHex data = str "0x" ++ hex_pairs data.
Proof.
  unfold Seed.bytesToHex, hex_pairs. f_equal.
  induction data as [|b bs IH]; [reflexivity|].
  cbn [map concat flat_map]. rewrite hex_pair, IH. reflexivity.
Qed.

Lemma hex_pairs_length (data : bytes) :
  length (hex_pairs data) = (2 * length data)%nat.
Proof.
  induction data as [|b bs IH]; [reflexivity|].
  unfold hex_pairs in *. cbn [flat_map app length]. rewrite IH. lia.
Qed.

Lemma hex_pairs_digits (data : bytes) : Forall is_hex_digit (hex_pairs data).
Proof.
  induction data as [|b bs IH]; [apply Forall_nil|].
  pose proof (byte_to_Z_range b) as Hb.
  unfold hex_pairs in *. cbn [flat_map app].
  apply Forall_cons; [apply hex_char_digit; div_lia|].
  apply Forall_cons; [apply hex_char_digit; div_lia|].
  exact IH.
Qed.

Lemma hex_pairs_injective (a b : bytes) : hex_pairs a = hex_pairs b -> a = b.
Proof.
  revert b. induction a as [|x a IH]; intros [|y b] H.
  - reflexivity.
  - discriminate H.
  - discriminate H.
  - unfold hex_pairs in H. cbn [flat_map app] in H.
    pose proof (byte_to_Z_range x) as Hx.
    pose proof (byte_to_Z_range y) as Hy.
    injection H as Hhi Hlo Hrest.
    apply hex_char_inj in Hhi; [|div_lia|div_lia].
    apply hex_char_inj in Hlo; [|div_lia|div_lia].
    assert (byte_to_Z x = byte_to_Z y) as Hxy by div_lia.
    apply byte_to_Z_inj in Hxy. subst y.
    f_equal. apply IH. exact Hrest.
Qed.

(** [bytesToHex] writes [0x] and then two lowercase hexadecimal digits
    for each byte, so its result has [2 + 2 * n] characters for [n]
    bytes. *)
Theorem bytesToHex_shape (data : bytes) :
  firstn 2 (Seed.bytesToHex data) = str "0x"
  /\ length (Seed.bytesToHex data) = (2 + 2 * length data)%nat
  /\ Forall is_hex_digit (skipn 2 (Seed.bytesToHex data)).
Proof.
  rewrite bytesToHex_pairs. split; [reflexivity|]. split.
  - rewrite length_app, hex_pairs_length. reflexivity.
  - apply hex_pairs_digits.
Qed.

(** [bytesToHex] is injective: two byte arrays have the same text only
    when they are equal. *)
Theorem bytesToHex_injective (a b : bytes) :
  Seed.bytesToHex a = Seed.bytesToHex b <-> a = b.
Proof.
  split; [|intros ->; reflexivity].
  rewrite !bytesToHex_pairs. intros H.
  apply app_inv_head in H. apply hex_pairs_injective. exact H.
Qed.

(** The Ethereum key of the smart-account page: for a seed of any
    length [deriveEthPrivateKey] resolves to 32 bytes, and [bytesToHex]
    turns them into [0x] followed by 64 lowercase hexadecimal digits. *)
Theorem eth_key_hex_is_well_formed (seed : bytes) (e : Entropy) :
  exists ethKey,
    Seed.deriveEthPrivateKey seed e = (Ok ethKey, e)
    /\ length ethKey = 32%nat
    /\ length (Seed.bytesToHex ethKey) = 66%nat
    /\ firstn 2 (Seed.bytesToHex ethKey) = str "0x"
    /\ Forall is_hex_digit (skipn 2 (Seed.bytesToHex ethKey)).
Proof.
  exists (Reference.chainKey seed (str "ethereum")).
  assert (length (Reference.chainKey seed (str "ethereum")) = 32%nat) as Hlen
    by apply hmac_length.
  split; [apply hkdfDerive_32_resolves|]. split; [exact Hlen|].
  rewrite bytesToHex_pairs. split.
  - rewrite length_app, hex_pairs_length, Hlen. reflexivity.
  - split; [reflexivity|apply hex_pairs_digits].
Qed.

(* ================================================================== *)
(** * ASCII text through [TextEncoder] and [TextDecoder] *)

Lemma is_ascii_not_surrogate (c : Z) :
  is_ascii c -> JS.is_high_surrogate c = false /\ JS.is_low_surrogate c = false.
Proof.
  unfold is_ascii, JS.is_high_surrogate, JS.is_low_surrogate. intros H.
  split; apply andb_false_iff; left; apply Z.leb_gt; lia.
Qed.

Lemma TextEncoder_ascii (s : jsstring) :
  Forall is_ascii s -> JS.TextEncoder_encode s = map Z_to_byte s.
Proof.
  unfold JS.TextEncoder_encode.
  induction 1 as [|c s Hc Hs IH]; [reflexivity|].
  destruct (is_ascii_not_surrogate c Hc) as [Hh Hl].
  cbn [JS.code_points]. rewrite Hh, Hl. cbn [flat_map map].
  rewrite IH. unfold JS.utf8.
  replace (c <? 128) with true by (symmetry; apply Z.ltb_lt; apply Hc).
  reflexivity.
Qed.

Lemma utf8_decode_ascii (zs : list Z) :
  Forall is_ascii zs -> JS.utf8_decode None zs = zs.
Proof.
  induction 1 as [|c s Hc Hs IH]; [reflexivity|].
  cbn [JS.utf8_decode]. unfold JS.utf8_start.
  replace (c <=? 127) with true by (symmetry; apply Z.leb_le; unfold is_ascii in Hc; lia).
  cbn [fst snd app]. rewrite IH. reflexivity.
Qed.

Lemma code_units_ascii (zs : list Z) :
  Forall is_ascii zs -> flat_map JS.code_units zs = zs.
Proof.
  induction 1 as [|c s Hc Hs IH]; [reflexivity|].
  cbn [flat_map]. rewrite IH. unfold JS.code_units.
  replace (c <? 65536) with true
    by (symmetry; apply Z.ltb_lt; unfold is_ascii in Hc; lia).
  reflexivity.
Qed.

Lemma ascii_bytes_back (s : jsstring) :
  Forall is_ascii s -> map byte_to_Z (map Z_to_byte s) = s.
Proof.
  induction 1 as [|c s Hc Hs IH]; [reflexivity|].
  cbn [map]. rewrite IH, byte_to_Z_to_byte.
  rewrite Z.mod_small by (unfold is_ascii in Hc; lia). reflexivity.
Qed.

Lemma TextDecoder_TextEncoder_ascii (s : jsstring) :
  Forall is_ascii s -> JS.TextDecoder_decode (JS.TextEncoder_encode s) = s.
Proof.
  intros Hs. rewrite TextEncoder_ascii by exact Hs.
  unfold JS.TextDecoder_decode. rewrite ascii_bytes_back by exact Hs.
  cbv zeta.
  assert (flat_map JS.code_units (JS.utf8_decode None s) = s) as Hplain.
  { rewrite utf8_decode_ascii by exact Hs. apply code_units_ascii. exact Hs. }
  destruct s as [|b0 [|b1 [|b2 rest]]]; try exact Hplain.
  inversion Hs as [|? ? H0 ?]; subst.
  replace (b0 =? 239) with false
    by (symmetry; apply Z.eqb_neq; unfold is_ascii in H0; lia).
  exact Hplain.
Qed.

Lemma b64_char_ascii (n : Z) : is_sextet n -> is_ascii (JS.b64_char n).
Proof.
  unfold is_sextet, is_ascii, JS.b64_char. intros H.
  repeat match goal with
         | |- context [?a <? ?b] => destruct (Z.ltb_spec a b)
         | |- context [?a =? ?b] => destruct (Z.eqb_spec a b)
         end; lia.
Qed.

Lemma base64_ascii (bs : bytes) : Forall is_ascii (base64 bs).
Proof.
  unfold base64. apply Forall_app. split.
  - apply Forall_map.
    eapply Forall_impl; [|apply to_sextets_range, fromCharCode_bytes].
    intros a Ha. apply b64_char_ascii. exact Ha.
  - apply Forall_forall. intros c Hc. apply padding_chars in Hc. subst c.
    unfold is_ascii. lia.
Qed.

Lemma seed_prefix_decodes (text : jsstring) :
  JS.startsWith text (str "SEED1:") = true ->
  Seed.isSeedData text = true
  /\ Seed.decodeSeedData text = Ok (JS.trimEnd (JS.slice_from text 6)).
Proof.
  intros H. apply startsWith_inv in H.
  set (t := skipn (length (str "SEED1:")) text) in H.
  assert (JS.slice_from text 6 = t) as -> by reflexivity.
  clearbody t. subst text.
  assert (JS.trim (str "SEED1:" ++ t) = str "SEED1:" ++ JS.trimEnd t) as Htrim.
  { apply (trim_envelope (str "SEED1:") t 83 58 (str "EED1")); reflexivity. }
  unfold Seed.isSeedData, Seed.decodeSeedData, Seed.SEED_PREFIX.
  rewrite Htrim, startsWith_app. split; [reflexivity|].
  cbn [negb]. unfold JS.slice_from. rewrite skipn_app, Nat.sub_diag.
  rewrite skipn_all. reflexivity.
Qed.

(* ================================================================== *)
(** * Sizes *)

Lemma sextets_padding_length (bs : list Z) :
  (length (JS.to_sextets bs) + length (JS.padding (length bs))
   = 4 * ((length bs + 2) / 3))%nat.
Proof.
  induction bs as [| a | a b | a b c l IH] using list_ind3;
    try reflexivity.
  cbn [JS.to_sextets length]. unfold JS.padding in *.
  rewrite repeat_length in *.
  replace (S (S (S (length l)))) with (length l + 1 * 3)%nat by lia.
  rewrite Nat.Div0.mod_add.
  replace (length l + 1 * 3 + 2)%nat with (length l + 2 + 1 * 3)%nat by lia.
  rewrite Nat.div_add by lia. lia.
Qed.

Lemma base64_length (bs : bytes) :
  length (base64 bs) = (4 * ((length bs + 2) / 3))%nat.
Proof.
  unfold base64. rewrite length_app, length_map, sextets_padding_length.
  unfold JS.fromCharCode. rewrite length_map. reflexivity.
Qed.

Lemma prefix_base64_ascii (p : string) (bs : bytes) :
  Forall is_ascii (str p) -> Forall is_ascii (str p ++ base64 bs).
Proof. intros Hp. apply Forall_app. split; [exact Hp|apply base64_ascii]. Qed.

Lemma seed_prefix_ascii : Forall is_ascii (str "SEED1:").
Proof.
  let l := eval vm_compute in (str "SEED1:") in change (str "SEED1:") with l.
  repeat (apply Forall_cons; [unfold is_ascii; lia|]). apply Forall_nil.
Qed.

Lemma wallet_prefix_ascii : Forall is_ascii (str "SOL1:").
Proof.
  let l := eval vm_compute in (str "SOL1:") in change (str "SOL1:") with l.
  repeat (apply Forall_cons; [unfold is_ascii; lia|]). apply Forall_nil.
Qed.

Lemma TextEncoder_ascii_length (s : jsstring) :
  Forall is_ascii s -> length (JS.TextEncoder_encode s) = length s.
Proof. intros H. rewrite TextEncoder_ascii by exact H. apply length_map. Qed.

(** The size of what goes on the tag.  The token of a payload of [n]
    bytes has [4 * ((n + 30) / 3)] characters; the prefix adds 6 or 5;
    the text is ASCII, so the count of bytes that [TextEncoder] writes
    is the [length] that the pages display.  A 32-byte seed gives 86
    bytes and a 64-byte secret key 129. *)
Theorem envelope_sizes (P : bytes) (pin : jsstring) (e : Entropy) :
  exists token,
    Crypto.encryptWithPIN P pin e = (Ok token, after_draw 12 e)
    /\ length token = (4 * ((length P + 30) / 3))%nat
    /\ length (Seed.encodeSeedData token) = (6 + length token)%nat
    /\ length (Crypto.encodeWalletData token) = (5 + length token)%nat
    /\ length (JS.TextEncoder_encode (Seed.encodeSeedData token))
       = length (Seed.encodeSeedData token)
    /\ length (JS.TextEncoder_encode (Crypto.encodeWalletData token))
       = length (Crypto.encodeWalletData token)
    /\ (length P = 32%nat -> length (Seed.encodeSeedData token) = 86%nat)
    /\ (length P = 64%nat -> length (Crypto.encodeWalletData token) = 129%nat).
Proof.
  exists (base64 (token_bytes pin (nonce_at e 0) P)).
  split; [apply encryptWithPIN_computes|].
  assert (length (base64 (token_bytes pin (nonce_at e 0) P))
          = (4 * ((length P + 30) / 3))%nat) as Hlen.
  { rewrite base64_length.
    destruct (token_bytes_length pin e 0 P) as (_ & _ & _ & ->).
    f_equal. f_equal. lia. }
  split; [exact Hlen|].
  split; [reflexivity|]. split; [reflexivity|].
  split; [apply TextEncoder_ascii_length,
            (prefix_base64_ascii "SEED1:"), seed_prefix_ascii|].
  split; [apply TextEncoder_ascii_length,
            (prefix_base64_ascii "SOL1:"), wallet_prefix_ascii|].
  split; intros HP.
  - change (length (Seed.encodeSeedData (base64 (token_bytes pin (nonce_at e 0) P))))
      with (6 + length (base64 (token_bytes pin (nonce_at e 0) P)))%nat.
    rewrite Hlen, HP. reflexivity.
  - change (length (Crypto.encodeWalletData
                      (base64 (token_bytes pin (nonce_at e 0) P))))
      with (5 + length (base64 (token_bytes pin (nonce_at e 0) P)))%nat.
    rewrite Hlen, HP. reflexivity.
Qed.

(* ================================================================== *)
(** * The smart-account page: scan, decode, decrypt *)

Lemma onreading_app (before rest : list SmartAccountsPage.NDEFRecord) :
  SmartAccountsPage.onreading (before ++ rest)
  = match SmartAccountsPage.onreading before with
    | Ok text => Ok text
    | Throw _ => SmartAccountsPage.onreading rest
    end.
Proof.
  induction before as [|r before IH]; [reflexivity|].
  cbn [app SmartAccountsPage.onreading].
  destruct (SmartAccountsPage.data r) as [d|]; [|exact IH].
  destruct (JS.startsWith (JS.TextDecoder_decode d) (str "SEED1:"));
    [reflexivity|exact IH].
Qed.

Lemma onreading_postcondition (records : list SmartAccountsPage.NDEFRecord)
      (text : jsstring) :
  SmartAccountsPage.onreading records = Ok text ->
  JS.startsWith text (str "SEED1:") = true
  /\ exists record d,
       In record records /\ SmartAccountsPage.data record = Some d
       /\ text = JS.TextDecoder_decode d.
Proof.
  induction records as [|r rest IH]; [discriminate|].
  cbn [SmartAccountsPage.onreading].
  destruct (SmartAccountsPage.data r) as [d|] eqn:Hd.
  - destruct (JS.startsWith (JS.TextDecoder_decode d) (str "SEED1:")) eqn:E.
    + intros H. injection H as <-. split; [exact E|].
      exists r, d. split; [left; reflexivity|]. split; [exact Hd|reflexivity].
    + intros H. destruct (IH H) as (Hs & r' & d' & Hin & Hd' & Ht).
      split; [exact Hs|]. exists r', d'. split; [right; exact Hin|].
      split; assumption.
  - intros H. destruct (IH H) as (Hs & r' & d' & Hin & Hd' & Ht).
    split; [exact Hs|]. exists r', d'. split; [right; exact Hin|].
    split; assumption.
Qed.

Lemma decryptWithPIN_keeps_entropy (token pin : jsstring) (e : Entropy) :
  snd (Crypto.decryptWithPIN token pin e) = e.
Proof.
  destruct (JS.atob token) as [binary|x] eqn:E.
  - rewrite (decryptWithPIN_computes token pin binary e E). reflexivity.
  - rewrite (decryptWithPIN_bad_base64 token pin x e E). reflexivity.
Qed.

Lemma decryptSeed_computes (seedData token pin : jsstring) (e : Entropy) :
  Seed.decodeSeedData seedData = Ok token ->
  SmartAccountsPage.decryptSeed seedData pin e
  = (match fst (Crypto.decryptWithPIN token pin e) with
     | Ok seed => Ok seed
     | Throw _ => Throw SmartAccountsPage.IncorrectPIN
     end, e).
Proof.
  intros Hd. unfold SmartAccountsPage.decryptSeed, bind, lift, try_catch, throw.
  rewrite Hd.
  pose proof (decryptWithPIN_keeps_entropy token pin e) as Hk.
  destruct (Crypto.decryptWithPIN token pin e) as [[seed|x] e'];
    cbn [fst snd] in *; subst e'; reflexivity.
Qed.

(** Whatever text the [onreading] loop of the sign handlers resolves
    with is recognised by [isSeedData] and decoded by [decodeSeedData]
    without its format error, and the decryption step that follows
    either resolves or throws [Incorrect PIN], for malformed base64 as
    well. *)
Theorem scanned_seed_is_decoded (records : list SmartAccountsPage.NDEFRecord)
        (text pin : jsstring) (e : Entropy) :
  SmartAccountsPage.onreading records = Ok text ->
  Seed.isSeedData text = true
  /\ Seed.decodeSeedData text = Ok (JS.trimEnd (JS.slice_from text 6))
  /\ ((exists seed, SmartAccountsPage.decryptSeed text pin e = (Ok seed, e))
      \/ SmartAccountsPage.decryptSeed text pin e
         = (Throw SmartAccountsPage.IncorrectPIN, e)).
Proof.
  intros H. apply onreading_postcondition in H. destruct H as [Hs _].
  destruct (seed_prefix_decodes text Hs) as [Hi Hd].
  split; [exact Hi|]. split; [exact Hd|].
  rewrite (decryptSeed_computes text _ pin e Hd).
  destruct (fst (Crypto.decryptWithPIN (JS.trimEnd (JS.slice_from text 6)) pin e))
    as [seed|x].
  - left. exists seed. reflexivity.
  - right. reflexivity.
Qed.

Lemma scanned_seed_witness :
  SmartAccountsPage.onreading
    [SmartAccountsPage.mkRecord (str "text") None None;
     SmartAccountsPage.mkRecord (str "mime") None
       (Some (JS.TextEncoder_encode (str "SEED1:QUJD")))]
  = Ok (str "SEED1:QUJD")
  /\ Seed.decodeSeedData (str "SEED1:QUJD")
     = Ok (JS.trimEnd (JS.slice_from (str "SEED1:QUJD") 6)).
Proof.
  assert (SmartAccountsPage.onreading
            [SmartAccountsPage.mkRecord (str "text") None None;
             SmartAccountsPage.mkRecord (str "mime") None
               (Some (JS.TextEncoder_encode (str "SEED1:QUJD")))]
          = Ok (str "SEED1:QUJD")) as H by (vm_compute; reflexivity).
  split; [exact H|].
  destruct (scanned_seed_is_decoded _ _ (str "1234") zero_entropy H)
    as (_ & Hd & _).
  exact Hd.
Defined.

Lemma onreading_seedRecord (token_data : bytes)
      (rest : list SmartAccountsPage.NDEFRecord) :
  SmartAccountsPage.onreading
    (SmartAccountsPage.seedRecord (Seed.encodeSeedData (base64 token_data))
       :: rest)
  = Ok (Seed.encodeSeedData (base64 token_data)).
Proof.
  cbn [SmartAccountsPage.onreading SmartAccountsPage.seedRecord
       SmartAccountsPage.data].
  unfold Seed.encodeSeedData, Seed.SEED_PREFIX.
  rewrite TextDecoder_TextEncoder_ascii
    by (apply (prefix_base64_ascii "SEED1:"), seed_prefix_ascii).
  rewrite startsWith_app. reflexivity.
Qed.

(** From creation to signing through the tag: the record that
    [handleCreateAccounts] writes for the token of a seed is the one the
    [onreading] loop of the sign handlers resolves with, whatever
    records without a seed precede it and whatever records follow, and
    the decryption step then resolves to the seed under the same PIN. *)
Theorem seed_survives_the_tag (seed : bytes) (pin : jsstring) (e : Entropy)
        (before rest : list SmartAccountsPage.NDEFRecord) :
  SmartAccountsPage.onreading before = Throw SmartAccountsPage.NoSeedError ->
  exists token,
    Crypto.encryptWithPIN seed pin e = (Ok token, after_draw 12 e)
    /\ SmartAccountsPage.onreading
         (before ++ SmartAccountsPage.seedRecord (Seed.encodeSeedData token)
                 :: rest)
       = Ok (Seed.encodeSeedData token)
    /\ forall e',
         SmartAccountsPage.decryptSeed (Seed.encodeSeedData token) pin e'
         = (Ok seed, e').
Proof.
  intros Hb.
  exists (base64 (token_bytes pin (nonce_at e 0) seed)).
  split; [apply encryptWithPIN_computes|]. split.
  - rewrite onreading_app, Hb. apply onreading_seedRecord.
  - intros e'.
    rewrite (decryptSeed_computes _ (base64 (token_bytes pin (nonce_at e 0) seed))).
    + rewrite token_opens by apply nonce_at_length. reflexivity.
    + rewrite decode_encode_seed, trimEnd_base64. reflexivity.
Qed.

Lemma seed_survives_the_tag_witness :
  SmartAccountsPage.onreading
    [SmartAccountsPage.mkRecord (str "text") None
       (Some (JS.TextEncoder_encode (str "hello")))]
  = Throw SmartAccountsPage.NoSeedError
  /\ exists token,
       Crypto.encryptWithPIN (repeat x00 32) (str "1234") zero_entropy
       = (Ok token, after_draw 12 zero_entropy)
       /\ SmartAccountsPage.onreading
            ([SmartAccountsPage.mkRecord (str "text") None
                (Some (JS.TextEncoder_encode (str "hello")))]
             ++ SmartAccountsPage.seedRecord (Seed.encodeSeedData token) :: [])
          = Ok (Seed.encodeSeedData token)
       /\ forall e',
            SmartAccountsPage.decryptSeed (Seed.encodeSeedData token)
              (str "1234") e'
            = (Ok (repeat x00 32), e').
Proof.
  assert (SmartAccountsPage.onreading
            [SmartAccountsPage.mkRecord (str "text") None
               (Some (JS.TextEncoder_encode (str "hello")))]
          = Throw SmartAccountsPage.NoSeedError) as H
    by (vm_compute; reflexivity).
  split; [exact H|].
  exact (seed_survives_the_tag (repeat x00 32) (str "1234") zero_entropy
           _ [] H).
Defined.

(** Account creation draws the 32 bytes of the seed and then the 12 of
    the nonce, and the record it writes for the seed always has 86
    bytes, whatever the PIN. *)
Theorem created_seed_record_has_86_bytes (pin : jsstring) (e : Entropy) :
  let seed := map e (seq 0 32) in
  let nonce := map e (seq 32 12) in
  let token := base64 (token_bytes pin nonce seed) in
  Seed.generateSeed e = (Ok seed, after_draw 32 e)
  /\ length seed = 32%nat
  /\ Crypto.encryptWithPIN seed pin (after_draw 32 e)
     = (Ok token, after_draw 12 (after_draw 32 e))
  /\ SmartAccountsPage.data
       (SmartAccountsPage.seedRecord (Seed.encodeSeedData token))
     = Some (JS.TextEncoder_encode (Seed.encodeSeedData token))
  /\ length (JS.TextEncoder_encode (Seed.encodeSeedData token)) = 86%nat.
Proof.
  intros seed nonce token.
  assert (length seed = 32%nat) as Hl by apply drawn_length.
  split; [reflexivity|]. split; [exact Hl|].
  split; [apply encryptWithPIN_computes|]. split; [reflexivity|].
  rewrite TextEncoder_ascii_length
    by (apply (prefix_base64_ascii "SEED1:"), seed_prefix_ascii).
  change (length (Seed.encodeSeedData token)) with (6 + length token)%nat.
  unfold token. rewrite base64_length.
  change nonce with (nonce_at (after_draw 32 e) 0).
  destruct (token_bytes_length pin (after_draw 32 e) 0 seed) as (_ & _ & _ & ->).
  rewrite Hl. reflexivity.
Qed.

(* ================================================================== *)
(** * Envelopes and white space *)

Lemma trimStart_white (w s : jsstring) :
  all_white w -> JS.trimStart (w ++ s) = JS.trimStart s.
Proof.
  induction 1 as [|c w Hc Hw IH]; [reflexivity|].
  cbn [app JS.trimStart]. rewrite Hc. exact IH.
Qed.

Lemma trimEnd_white (s w : jsstring) :
  all_white w -> JS.trimEnd (s ++ w) = JS.trimEnd s.
Proof.
  intros Hw. unfold JS.trimEnd. rewrite rev_app_distr.
  rewrite trimStart_white; [reflexivity|].
  apply Forall_rev. exact Hw.
Qed.

Lemma trim_app_white (s w : jsstring) :
  all_white w -> JS.trim (s ++ w) = JS.trim s.
Proof.
  intros Hw. unfold JS.trim.
  induction s as [|c s IH].
  - cbn [app]. rewrite <- (app_nil_r w) at 1.
    rewrite trimStart_white by exact Hw. reflexivity.
  - cbn [app JS.trimStart]. destruct (JS.is_white_space c); [exact IH|].
    apply (trimEnd_white (c :: s) w Hw).
Qed.

Lemma trim_surrounding (w1 s w2 : jsstring) :
  all_white w1 -> all_white w2 -> JS.trim (w1 ++ s ++ w2) = JS.trim s.
Proof.
  intros H1 H2. rewrite app_assoc, trim_app_white by exact H2.
  unfold JS.trim. rewrite trimStart_white by exact H1. reflexivity.
Qed.

(** The decoders and probes of the three modules give the same answer
    on a text and on the same text with white space before and after
    it. *)
Theorem decoders_ignore_surrounding_white_space (w1 text w2 : jsstring) :
  all_white w1 -> all_white w2 ->
  Crypto.decodeWalletData (w1 ++ text ++ w2) = Crypto.decodeWalletData text
  /\ Crypto.isWalletData (w1 ++ text ++ w2) = Crypto.isWalletData text
  /\ Seed.decodeSeedData (w1 ++ text ++ w2) = Seed.decodeSeedData text
  /\ Seed.isSeedData (w1 ++ text ++ w2) = Seed.isSeedData text
  /\ XorCrypto.decodeWalletData (w1 ++ text ++ w2)
     = XorCrypto.decodeWalletData text
  /\ XorCrypto.isWalletData (w1 ++ text ++ w2) = XorCrypto.isWalletData text.
Proof.
  intros H1 H2.
  unfold Crypto.decodeWalletData, Crypto.isWalletData, Seed.decodeSeedData,
    Seed.isSeedData, XorCrypto.decodeWalletData, XorCrypto.isWalletData.
  rewrite (trim_surrounding w1 text w2 H1 H2). repeat split.
Qed.

Lemma decoders_ignore_white_space_witness :
  all_white [32] /\ all_white [13; 10]
  /\ Seed.decodeSeedData ([32] ++ str "SEED1:QUJD" ++ [13; 10])
     = Seed.decodeSeedData (str "SEED1:QUJD").
Proof.
  assert (all_white [32]) as H1 by (repeat constructor).
  assert (all_white [13; 10]) as H2 by (repeat constructor).
  split; [exact H1|]. split; [exact H2|].
  destruct (decoders_ignore_surrounding_white_space
              [32] (str "SEED1:QUJD") [13; 10] H1 H2) as (_ & _ & Hd & _).
  exact Hd.
Defined.

Lemma trim_seed_envelope (t : jsstring) :
  JS.trim (str "SEED1:" ++ t) = str "SEED1:" ++ JS.trimEnd t.
Proof. apply (trim_envelope (str "SEED1:") t 83 58 (str "EED1")); reflexivity. Qed.

Lemma trim_wallet_envelope (t : jsstring) :
  JS.trim (str "SOL1:" ++ t) = str "SOL1:" ++ JS.trimEnd t.
Proof. apply (trim_envelope (str "SOL1:") t 83 58 (str "OL1")); reflexivity. Qed.

(** The two kinds of payload are never taken for each other: a seed
    envelope is not wallet data and a wallet envelope is not seed data,
    for the probes, for the decoders and for the scan of the
    smart-account page, which passes over a wallet record. *)
Theorem envelope_kinds_are_disjoint (t : jsstring) :
  Crypto.isWalletData (Seed.encodeSeedData t) = false
  /\ Crypto.decodeWalletData (Seed.encodeSeedData t) = Throw Crypto.FormatError
  /\ Seed.isSeedData (Crypto.encodeWalletData t) = false
  /\ Seed.decodeSeedData (Crypto.encodeWalletData t) = Throw Seed.FormatError
  /\ forall recordType mediaType rest,
       SmartAccountsPage.onreading
         (SmartAccountsPage.mkRecord recordType mediaType
            (Some (JS.TextEncoder_encode (Crypto.encodeWalletData t))) :: rest)
       = SmartAccountsPage.onreading rest.
Proof.
  unfold Crypto.isWalletData, Crypto.decodeWalletData, Seed.isSeedData,
    Seed.decodeSeedData, Seed.encodeSeedData, Crypto.encodeWalletData,
    Seed.SEED_PREFIX, Crypto.WALLET_PREFIX.
  rewrite trim_seed_envelope, trim_wallet_envelope.
  repeat split.
Qed.

(* ================================================================== *)
(** * Xor on bytes *)

Lemma byte_xor_value (a b : byte) :
  byte_to_Z (byte_xor a b) = Z.lxor (byte_to_Z a) (byte_to_Z b).
Proof.
  unfold byte_xor. rewrite byte_to_Z_to_byte. apply Z.mod_small.
  apply lxor_byte_range; apply byte_to_Z_range.
Qed.

Lemma byte_xor_zero (a : byte) : byte_xor a x00 = a.
Proof.
  apply byte_to_Z_inj. rewrite byte_xor_value.
  change (byte_to_Z x00) with 0. apply Z.lxor_0_r.
Qed.

Lemma byte_xor_fixed (a m : byte) : byte_xor a m = a -> m = x00.
Proof.
  intros H. apply byte_to_Z_inj. change (byte_to_Z x00) with 0.
  apply (f_equal byte_to_Z) in H. rewrite byte_xor_value in H.
  apply (f_equal (Z.lxor (byte_to_Z a))) in H.
  rewrite <- Z.lxor_assoc, Z.lxor_nilpotent, Z.lxor_0_l in H. exact H.
Qed.

Lemma byte_xor_assoc (a b c : byte) :
  byte_xor (byte_xor a b) c = byte_xor a (byte_xor b c).
Proof.
  apply byte_to_Z_inj. rewrite !byte_xor_value. apply Z.lxor_assoc.
Qed.

Lemma byte_xor_comm (a b : byte) : byte_xor a b = byte_xor b a.
Proof. apply byte_to_Z_inj. rewrite !byte_xor_value. apply Z.lxor_comm. Qed.

Lemma xor_bytes_fixed (a m : bytes) :
  length m = length a -> xor_bytes a m = a -> m = repeat x00 (length a).
Proof.
  revert m. induction a as [|x a IH]; intros [|y m] Hl H;
    try discriminate Hl; [reflexivity|].
  cbn [xor_bytes] in H. injection H as Hx Ha.
  cbn [length repeat]. f_equal.
  - apply (byte_xor_fixed x y Hx).
  - apply IH; [injection Hl as Hl; exact Hl|exact Ha].
Qed.

Lemma nth_xor_bytes (d m : bytes) (i : nat) :
  (i < length d)%nat ->
  nth i (xor_bytes d m) x00 = byte_xor (nth i d x00) (nth i m x00).
Proof.
  revert m i. induction d as [|x d IH]; intros m i Hi; [inversion Hi|].
  destruct m as [|y m]; destruct i as [|i]; cbn [xor_bytes nth].
  - symmetry. apply byte_xor_zero.
  - rewrite IH by (cbn [length] in Hi; lia).
    destruct i; reflexivity.
  - reflexivity.
  - apply IH. cbn [length] in Hi. lia.
Qed.

(* ================================================================== *)
(** * Damaged tokens of the AES-GCM variant *)

Lemma open_altered_tag (pin : jsstring) (iv C T mask : bytes) :
  length iv = 12%nat -> length T = 16%nat -> length mask = 16%nat ->
  mask <> repeat x00 16 ->
  T = pin_tag pin iv C ->
  open_combined pin (iv ++ C ++ xor_bytes T mask)
  = Throw Crypto.AuthenticationError.
Proof.
  intros Hiv HT Hm Hnz HTeq.
  rewrite open_combined_layout
    by (try exact Hiv; rewrite xor_bytes_length; exact HT).
  rewrite <- HTeq.
  destruct (bytes_eqb (xor_bytes T mask) T) eqn:E; [|reflexivity].
  apply bytes_eqb_eq in E. apply xor_bytes_fixed in E; [|congruence].
  rewrite HT in E. exfalso. apply Hnz. exact E.
Qed.

(** A token of the AES-GCM variant whose last 16 bytes, the tag, have
    been changed in any way is rejected with the authentication error
    under the PIN that made it. *)
Theorem altered_tag_is_rejected (P : bytes) (pin : jsstring) (e : Entropy)
        (mask : bytes) :
  length mask = 16%nat -> mask <> repeat x00 16 ->
  let iv := nonce_at e 0 in
  let C := pin_ciphertext pin iv P in
  let T := pin_tag pin iv C in
  Crypto.encryptWithPIN P pin e = (Ok (base64 (iv ++ C ++ T)), after_draw 12 e)
  /\ forall e',
       Crypto.decryptWithPIN (base64 (iv ++ C ++ xor_bytes T mask)) pin e'
       = (Throw Crypto.AuthenticationError, e').
Proof.
  intros Hm Hnz iv C T. split; [apply encryptWithPIN_computes|].
  intros e'.
  rewrite (decryptWithPIN_computes _ pin _ e' (atob_base64 _)).
  rewrite charCodes_fromCharCode. f_equal.
  apply (open_altered_tag pin iv C T mask); try assumption.
  - apply nonce_at_length.
  - apply gcm_tag_length.
  - reflexivity.
Qed.

Lemma altered_tag_witness :
  length (x01 :: repeat x00 15) = 16%nat
  /\ x01 :: repeat x00 15 <> repeat x00 16
  /\ forall e',
       Crypto.decryptWithPIN
         (base64
            (nonce_at zero_entropy 0
             ++ pin_ciphertext (str "1234") (nonce_at zero_entropy 0)
                  (repeat x00 32)
             ++ xor_bytes
                  (pin_tag (str "1234") (nonce_at zero_entropy 0)
                     (pin_ciphertext (str "1234") (nonce_at zero_entropy 0)
                        (repeat x00 32)))
                  (x01 :: repeat x00 15)))
         (str "1234") e'
       = (Throw Crypto.AuthenticationError, e').
Proof.
  assert (length (x01 :: repeat x00 15) = 16%nat) as H1 by reflexivity.
  assert (x01 :: repeat x00 15 <> repeat x00 16) as H2 by discriminate.
  split; [exact H1|]. split; [exact H2|].
  exact (proj2 (altered_tag_is_rejected (repeat x00 32) (str "1234")
                  zero_entropy (x01 :: repeat x00 15) H1 H2)).
Defined.

(** A token that decodes to fewer than 28 bytes, the empty token
    included, is rejected with the authentication error under every
    PIN. *)
Theorem short_token_is_rejected (token binary pin : jsstring) (e : Entropy) :
  JS.atob token = Ok binary -> (length binary < 28)%nat ->
  Crypto.decryptWithPIN token pin e = (Throw Crypto.AuthenticationError, e).
Proof.
  intros Ha Hl. rewrite (decryptWithPIN_computes token pin binary e Ha).
  f_equal. rewrite open_combined_spec. cbv zeta.
  replace (Nat.ltb (length (skipn 12 (JS.charCodes binary))) 16) with true;
    [reflexivity|].
  symmetry. apply Nat.ltb_lt. rewrite length_skipn.
  unfold JS.charCodes. rewrite length_map. lia.
Qed.

Lemma short_token_witness :
  JS.atob [] = Ok []
  /\ (length (@nil Z) < 28)%nat
  /\ Crypto.decryptWithPIN [] (str "1234") zero_entropy
     = (Throw Crypto.AuthenticationError, zero_entropy).
Proof.
  assert (JS.atob [] = Ok []) as H1 by reflexivity.
  assert (length (@nil Z) < 28)%nat as H2 by (cbn [length]; lia).
  split; [exact H1|]. split; [exact H2|].
  exact (short_token_is_rejected [] [] (str "1234") zero_entropy H1 H2).
Defined.

(* ================================================================== *)
(** * The XOR variant without its PIN *)

Lemma xor_elem_some (d k : byte) : XorCrypto.xor_elem d (Some k) = byte_xor d k.
Proof. reflexivity. Qed.

Lemma nth_xorCrypt (data key : bytes) (i : nat) :
  (i < length data)%nat ->
  nth i (XorCrypto.xorCrypt data key) x00
  = XorCrypto.xor_elem (nth i data x00) (XorCrypto.key_at key i).
Proof.
  intros Hi. unfold XorCrypto.xorCrypt.
  apply (nth_map_seq
           (fun i => XorCrypto.xor_elem (nth i data x00) (XorCrypto.key_at key i))
           (length data) i x00 Hi).
Qed.

Lemma xor_elem_mask (c m : byte) (k : option byte) :
  XorCrypto.xor_elem (byte_xor c m) k = byte_xor (XorCrypto.xor_elem c k) m.
Proof.
  destruct k as [k|].
  - rewrite !xor_elem_some.
    rewrite byte_xor_assoc, (byte_xor_comm m k), <- byte_xor_assoc. reflexivity.
  - unfold XorCrypto.xor_elem. rewrite !Z.lxor_0_r, !Z_to_byte_to_Z. reflexivity.
Qed.

Lemma xorCrypt_mask (data key mask : bytes) :
  XorCrypto.xorCrypt (xor_bytes data mask) key
  = xor_bytes (XorCrypto.xorCrypt data key) mask.
Proof.
  apply (nth_ext _ _ x00 x00).
  - rewrite xorCrypt_length, !xor_bytes_length, xorCrypt_length. reflexivity.
  - intros i Hi. rewrite xorCrypt_length, xor_bytes_length in Hi.
    rewrite nth_xorCrypt by (rewrite xor_bytes_length; exact Hi).
    rewrite !nth_xor_bytes by (try rewrite xorCrypt_length; exact Hi).
    rewrite nth_xorCrypt by exact Hi. apply xor_elem_mask.
Qed.

(** The XOR variant is malleable: xoring any mask into the bytes of a
    token xors the same mask into what [decryptWithPIN] returns, and
    nothing is raised. *)
Theorem xor_variant_is_malleable (P : bytes) (pin : jsstring) (e : Entropy) :
  exists C,
    XorCrypto.encryptWithPIN P pin e = (Ok (base64 C), e)
    /\ length C = length P
    /\ forall mask e',
         XorCrypto.decryptWithPIN (base64 (xor_bytes C mask)) pin e'
         = (Ok (xor_bytes P mask), e').
Proof.
  exists (XorCrypto.xorCrypt P (SHA256.hash (JS.TextEncoder_encode pin))).
  split; [apply xor_encryptWithPIN_computes|].
  split; [apply xorCrypt_length|].
  intros mask e'.
  rewrite (xor_decryptWithPIN_computes _ pin _ e' (atob_base64 _)).
  rewrite charCodes_fromCharCode, xorCrypt_mask, xorCrypt_involutive.
  reflexivity.
Qed.

Lemma key_at_period (key : bytes) (i n : nat) :
  Nat.modulo n (length key) = 0%nat ->
  XorCrypto.key_at key (i + n) = XorCrypto.key_at key i.
Proof.
  intros Hn. unfold XorCrypto.key_at.
  destruct (Nat.eqb (length key) 0) eqn:E; [reflexivity|].
  apply Nat.eqb_neq in E.
  rewrite Nat.Div0.add_mod, Hn, Nat.add_0_r, Nat.Div0.mod_mod. reflexivity.
Qed.

Lemma key_at_below (key : bytes) (i : nat) :
  (i < length key)%nat -> XorCrypto.key_at key i = Some (nth i key x00).
Proof.
  intros Hi. unfold XorCrypto.key_at.
  destruct (Nat.eqb (length key) 0) eqn:E; [apply Nat.eqb_eq in E; lia|].
  rewrite Nat.mod_small by exact Hi.
  apply nth_error_nth'. exact Hi.
Qed.

Lemma xorCrypt_app (a b key : bytes) :
  Nat.modulo (length a) (length key) = 0%nat ->
  XorCrypto.xorCrypt (a ++ b) key
  = XorCrypto.xorCrypt a key ++ XorCrypto.xorCrypt b key.
Proof.
  intros Hp. apply (nth_ext _ _ x00 x00).
  - rewrite length_app, !xorCrypt_length, length_app. reflexivity.
  - intros i Hi. rewrite xorCrypt_length in Hi.
    rewrite nth_xorCrypt by exact Hi.
    destruct (Nat.lt_ge_cases i (length a)) as [Hlt|Hge].
    + rewrite !app_nth1 by (try rewrite xorCrypt_length; exact Hlt).
      rewrite nth_xorCrypt by exact Hlt. reflexivity.
    + rewrite !app_nth2 by (try rewrite xorCrypt_length; exact Hge).
      rewrite xorCrypt_length. rewrite length_app in Hi.
      rewrite nth_xorCrypt by lia.
      replace i with (i - length a + length a)%nat at 2 by lia.
      rewrite key_at_period by exact Hp. reflexivity.
Qed.

Lemma xorCrypt_short (data key : bytes) :
  (length data <= length key)%nat ->
  XorCrypto.xorCrypt data key = xor_bytes data key.
Proof.
  intros Hl. apply (nth_ext _ _ x00 x00).
  - rewrite xorCrypt_length, xor_bytes_length. reflexivity.
  - intros i Hi. rewrite xorCrypt_length in Hi.
    rewrite nth_xorCrypt, nth_xor_bytes by exact Hi.
    rewrite key_at_below by lia. apply xor_elem_some.
Qed.

Lemma xor_bytes_three (s p k : bytes) :
  length p = length s -> length k = length s ->
  xor_bytes (xor_bytes (xor_bytes s k) (xor_bytes p k)) p = s.
Proof.
  intros Hp Hk. apply (nth_ext _ _ x00 x00).
  - rewrite !xor_bytes_length. reflexivity.
  - intros i Hi. rewrite !xor_bytes_length in Hi.
    rewrite !nth_xor_bytes
      by (try rewrite !xor_bytes_length; try rewrite Hp; exact Hi).
    set (a := nth i s x00). set (b := nth i p x00). set (c := nth i k x00).
    rewrite (byte_xor_comm b c), <- (byte_xor_assoc (byte_xor a c) c b).
    rewrite byte_xor_involutive. apply byte_xor_involutive.
Qed.

(** The XOR variant repeats its 32-byte key: for a 64-byte payload, the
    first half is the xor of the two halves of the token and the second
    half of the payload, and the key, SHA-256 of the PIN, is the xor of
    the second halves of token and payload.  No PIN is needed. *)
Theorem xor_token_and_second_half_reveal_first_half
        (secret public : bytes) (pin : jsstring) (e : Entropy) :
  length secret = 32%nat -> length public = 32%nat ->
  exists C,
    XorCrypto.encryptWithPIN (secret ++ public) pin e = (Ok (base64 C), e)
    /\ JS.atob (base64 C) = Ok (JS.fromCharCode C)
    /\ xor_bytes (xor_bytes (firstn 32 C) (skipn 32 C)) public = secret
    /\ xor_bytes (skipn 32 C) public = SHA256.hash (JS.TextEncoder_encode pin).
Proof.
  intros Hs Hp.
  set (key := SHA256.hash (JS.TextEncoder_encode pin)).
  assert (length key = 32%nat) as Hk by apply sha256_length.
  exists (XorCrypto.xorCrypt (secret ++ public) key).
  split; [apply xor_encryptWithPIN_computes|].
  split; [apply atob_base64|].
  rewrite xorCrypt_app by (rewrite Hs, Hk; reflexivity).
  rewrite !xorCrypt_short by lia.
  assert (length (xor_bytes secret key) = 32%nat) as Hl
    by (rewrite xor_bytes_length; exact Hs).
  rewrite firstn_app, skipn_app, Hl, Nat.sub_diag, firstn_O, skipn_O, app_nil_r.
  rewrite firstn_all2, skipn_all2 by lia. cbn [app].
  split.
  - apply xor_bytes_three; lia.
  - clearbody key. revert Hp Hk. generalize public key. clear.
    intros p k Hp Hk. apply (nth_ext _ _ x00 x00).
    + rewrite !xor_bytes_length. lia.
    + intros i Hi. rewrite !xor_bytes_length in Hi.
      rewrite !nth_xor_bytes by (try rewrite xor_bytes_length; exact Hi).
      rewrite (byte_xor_comm (nth i p x00)). apply byte_xor_involutive.
Qed.

Lemma xor_key_reuse_witness :
  length (repeat x07 32) = 32%nat /\ length (repeat xff 32) = 32%nat
  /\ exists C,
       XorCrypto.encryptWithPIN (repeat x07 32 ++ repeat xff 32) (str "1234")
         zero_entropy
       = (Ok (base64 C), zero_entropy)
       /\ JS.atob (base64 C) = Ok (JS.fromCharCode C)
       /\ xor_bytes (xor_bytes (firstn 32 C) (skipn 32 C)) (repeat xff 32)
          = repeat x07 32
       /\ xor_bytes (skipn 32 C) (repeat xff 32)
          = SHA256.hash (JS.TextEncoder_encode (str "1234")).
Proof.
  assert (length (repeat x07 32) = 32%nat) as H1 by reflexivity.
  assert (length (repeat xff 32) = 32%nat) as H2 by reflexivity.
  split; [exact H1|]. split; [exact H2|].
  exact (xor_token_and_second_half_reveal_first_half
           (repeat x07 32) (repeat xff 32) (str "1234") zero_entropy H1 H2).
Defined.

Lemma xor_decode_encode_wallet (t : jsstring) :
  XorCrypto.decodeWalletData (XorCrypto.encodeWalletData t) = Ok (JS.trimEnd t).
Proof.
  unfold XorCrypto.decodeWalletData, XorCrypto.encodeWalletData,
    XorCrypto.WALLET_PREFIX.
  rewrite trim_wallet_envelope, startsWith_app. cbn [negb].
  unfold JS.slice_from. rewrite skipn_app, Nat.sub_diag, skipn_all.
  reflexivity.
Qed.

(** The wallet flow of the XOR variant, with its own envelope
    functions: the token is recognised once encoded, decoded unchanged
    and opened to the payload under the same PIN. *)
Theorem xor_wallet_flow_end_to_end (P : bytes) (pin : jsstring) (e : Entropy) :
  exists token,
    XorCrypto.encryptWithPIN P pin e = (Ok token, e)
    /\ XorCrypto.isWalletData (XorCrypto.encodeWalletData token) = true
    /\ XorCrypto.decodeWalletData (XorCrypto.encodeWalletData token) = Ok token
    /\ forall e', XorCrypto.decryptWithPIN token pin e' = (Ok P, e').
Proof.
  exists (base64 (XorCrypto.xorCrypt P (SHA256.hash (JS.TextEncoder_encode pin)))).
  split; [apply xor_encryptWithPIN_computes|]. split.
  { unfold XorCrypto.isWalletData, XorCrypto.encodeWalletData,
      XorCrypto.WALLET_PREFIX.
    rewrite trim_wallet_envelope. apply startsWith_app. }
  split; [rewrite xor_decode_encode_wallet, trimEnd_base64; reflexivity|].
  intros e'.
  rewrite (xor_decryptWithPIN_computes _ pin _ e' (atob_base64 _)).
  rewrite charCodes_fromCharCode, xorCrypt_involutive. reflexivity.
Qed.

(* ================================================================== *)
(** * The wallet flow of the AES-GCM variant *)

(** The wallet flow of the AES-GCM variant: the token of a secret key
    is recognised once encoded, survives [TextEncoder] and a UTF-8
    [TextDecoder], is decoded unchanged and is opened to the secret key
    under the same PIN. *)
Theorem wallet_flow_end_to_end (secretKey : bytes) (pin : jsstring)
        (e : Entropy) :
  exists token,
    Crypto.encryptWithPIN secretKey pin e = (Ok token, after_draw 12 e)
    /\ Crypto.isWalletData (Crypto.encodeWalletData token) = true
    /\ Crypto.decodeWalletData (Crypto.encodeWalletData token) = Ok token
    /\ JS.TextDecoder_decode
         (JS.TextEncoder_encode (Crypto.encodeWalletData token))
       = Crypto.encodeWalletData token
    /\ forall e', Crypto.decryptWithPIN token pin e' = (Ok secretKey, e').
Proof.
  exists (base64 (token_bytes pin (nonce_at e 0) secretKey)).
  split; [apply encryptWithPIN_computes|]. split.
  { unfold Crypto.isWalletData, Crypto.encodeWalletData, Crypto.WALLET_PREFIX.
    rewrite trim_wallet_envelope. apply startsWith_app. }
  split; [rewrite decode_encode_wallet, trimEnd_base64; reflexivity|].
  split.
  { apply TextDecoder_TextEncoder_ascii.
    apply (prefix_base64_ascii "SOL1:"), wallet_prefix_ascii. }
  intros e'. apply token_opens, nonce_at_length.
Qed.

(* ================================================================== *)
(** * The probe and the scan *)

(** The scan of the sign handlers tests the text as it is, the probe
    and the decoder trim it first: a record whose text has white space
    before [SEED1:] is seed data for [isSeedData] and [decodeSeedData],
    and is passed over by the scan. *)
Theorem scan_is_stricter_than_isSeedData (w t : jsstring) :
  w <> [] -> all_white w -> Forall is_ascii (w ++ t) ->
  Seed.isSeedData (w ++ Seed.encodeSeedData t) = true
  /\ Seed.decodeSeedData (w ++ Seed.encodeSeedData t) = Ok (JS.trimEnd t)
  /\ forall recordType mediaType,
       SmartAccountsPage.onreading
         [SmartAccountsPage.mkRecord recordType mediaType
            (Some (JS.TextEncoder_encode (w ++ Seed.encodeSeedData t)))]
       = Throw SmartAccountsPage.NoSeedError.
Proof.
  intros Hne Hw Ha.
  pose proof (trim_surrounding w (Seed.encodeSeedData t) [] Hw (Forall_nil _))
    as Htrim.
  rewrite app_nil_r in Htrim.
  unfold Seed.isSeedData at 1, Seed.decodeSeedData at 1. rewrite Htrim.
  fold (Seed.isSeedData (Seed.encodeSeedData t)).
  fold (Seed.decodeSeedData (Seed.encodeSeedData t)).
  split.
  { unfold Seed.isSeedData, Seed.encodeSeedData, Seed.SEED_PREFIX.
    rewrite trim_seed_envelope. apply startsWith_app. }
  split; [apply decode_encode_seed|].
  intros recordType mediaType.
  cbn [SmartAccountsPage.onreading SmartAccountsPage.data].
  rewrite TextDecoder_TextEncoder_ascii.
  - destruct w as [|c w]; [contradiction Hne; reflexivity|].
    inversion Hw as [|? ? Hc ?]; subst.
    change (str "SEED1:") with (83 :: str "EED1:").
    cbn [app JS.startsWith].
    replace (c =? 83) with false; [reflexivity|].
    symmetry. apply Z.eqb_neq. intros ->. discriminate Hc.
  - apply Forall_app in Ha. destruct Ha as [Haw Hat].
    apply Forall_app. split; [exact Haw|].
    unfold Seed.encodeSeedData, Seed.SEED_PREFIX.
    apply Forall_app. split; [apply seed_prefix_ascii|exact Hat].
Qed.

Lemma scan_is_stricter_witness :
  [10] <> [] /\ all_white [10] /\ Forall is_ascii ([10] ++ str "QUJD")
  /\ Seed.isSeedData ([10] ++ Seed.encodeSeedData (str "QUJD")) = true
  /\ SmartAccountsPage.onreading
       [SmartAccountsPage.seedRecord ([10] ++ Seed.encodeSeedData (str "QUJD"))]
     = Throw SmartAccountsPage.NoSeedError.
Proof.
  assert ([10] <> []) as H1 by discriminate.
  assert (all_white [10]) as H2 by (repeat constructor).
  assert (Forall is_ascii ([10] ++ str "QUJD")) as H3
    by (let l := eval vm_compute in ([10] ++ str "QUJD") in
        change (Forall is_ascii l);
        repeat (apply Forall_cons; [unfold is_ascii; lia|]); apply Forall_nil).
  split; [exact H1|]. split; [exact H2|]. split; [exact H3|].
  destruct (scan_is_stricter_than_isSeedData [10] (str "QUJD") H1 H2 H3)
    as (Hi & _ & Hs).
  split; [exact Hi|apply Hs].
Defined.

(* ================================================================== *)
(** * The writers of [nfc.ts] *)

Lemma upper_hex_char_safe (d : Z) : 0 <= d < 16 -> is_uri_safe (JS.upper_hex_char d).
Proof.
  intros Hd. unfold JS.upper_hex_char, is_uri_safe.
  destruct (Z.ltb_spec d 10); right; right; lia.
Qed.

Lemma percent_safe (b : byte) : Forall is_uri_safe (JS.percent b).
Proof.
  pose proof (byte_to_Z_range b) as Hb. unfold JS.percent.
  apply Forall_cons; [right; left; reflexivity|].
  apply Forall_cons; [apply upper_hex_char_safe; div_lia|].
  apply Forall_cons; [apply upper_hex_char_safe; div_lia|].
  apply Forall_nil.
Qed.

Lemma percents_safe (bs : bytes) : Forall is_uri_safe (flat_map JS.percent bs).
Proof.
  induction bs as [|b bs IH]; [apply Forall_nil|].
  cbn [flat_map]. apply Forall_app. split; [apply percent_safe|exact IH].
Qed.

Lemma encodeURIComponent_safe (s t : jsstring) :
  JS.encodeURIComponent s = Ok t -> Forall is_uri_safe t.
Proof.
  remember (length s) as n eqn:Hn. revert s t Hn.
  induction n as [n IH] using lt_wf_ind. intros s t Hn.
  destruct s as [|c rest]; cbn [JS.encodeURIComponent].
  - intros H. apply Ok_inj in H. subst t. apply Forall_nil.
  - destruct (JS.is_unreserved c) eqn:Hu.
    + destruct (JS.encodeURIComponent rest) as [r|x] eqn:Hr; [|discriminate].
      intros H. apply Ok_inj in H. subst t.
      apply Forall_cons; [left; exact Hu|].
      apply (IH (length rest)) with (s := rest);
        [subst n; cbn [length]; lia|reflexivity|exact Hr].
    + destruct (JS.is_low_surrogate c); [discriminate|].
      destruct (JS.is_high_surrogate c).
      * destruct rest as [|d rest']; [discriminate|].
        destruct (JS.is_low_surrogate d); [|discriminate].
        destruct (JS.encodeURIComponent rest') as [r|x] eqn:Hr; [|discriminate].
        intros H. apply Ok_inj in H. subst t.
        apply Forall_app. split; [apply percents_safe|].
        apply (IH (length rest')) with (s := rest');
          [subst n; cbn [length]; lia|reflexivity|exact Hr].
      * destruct (JS.encodeURIComponent rest) as [r|x] eqn:Hr; [|discriminate].
        intros H. apply Ok_inj in H. subst t.
        apply Forall_app. split; [apply percents_safe|].
        apply (IH (length rest)) with (s := rest);
          [subst n; cbn [length]; lia|reflexivity|exact Hr].
Qed.

Lemma uri_safe_not_delimiter (c : Z) : is_uri_safe c -> is_delimiter c = false.
Proof.
  unfold is_uri_safe, is_delimiter, JS.is_unreserved.
  intros H.
  destruct (Z.eqb_spec c 63) as [->|]; [exfalso; destruct H as [H|[H|[H|H]]]; try discriminate H; lia|].
  destruct (Z.eqb_spec c 38) as [->|]; [exfalso; destruct H as [H|[H|[H|H]]]; try discriminate H; lia|].
  destruct (Z.eqb_spec c 61) as [->|]; [exfalso; destruct H as [H|[H|[H|H]]]; try discriminate H; lia|].
  destruct (Z.eqb_spec c 35) as [->|]; [exfalso; destruct H as [H|[H|[H|H]]]; try discriminate H; lia|].
  destruct (Z.eqb_spec c 32) as [->|]; [exfalso; destruct H as [H|[H|[H|H]]]; try discriminate H; lia|].
  reflexivity.
Qed.

Lemma encoded_has_no_delimiter (s t : jsstring) :
  JS.encodeURIComponent s = Ok t -> existsb is_delimiter t = false.
Proof.
  intros H. apply encodeURIComponent_safe in H.
  induction H as [|c t Hc Ht IH]; [reflexivity|].
  cbn [existsb]. rewrite (uri_safe_not_delimiter c Hc), IH. reflexivity.
Qed.

Lemma count_app (c : Z) (s t : jsstring) : count c (s ++ t) = (count c s + count c t)%nat.
Proof. apply count_occ_app. Qed.

Lemma encoded_count (s t : jsstring) (c : Z) :
  JS.encodeURIComponent s = Ok t -> is_delimiter c = true -> count c t = 0%nat.
Proof.
  intros H Hc. apply encodeURIComponent_safe in H.
  unfold count. apply count_occ_not_In. intros Hin.
  rewrite Forall_forall in H. apply H in Hin.
  apply uri_safe_not_delimiter in Hin. congruence.
Qed.

(** Without Web NFC each of the six writers throws the same error and
    leaves the browser as it was: nothing is written. *)
Theorem writers_require_web_nfc (b : NFC.Browser)
        (text url email phone ssid password : jsstring)
        (lang subject body message : option jsstring)
        (authType : option NFC.AuthType) :
  NFC.isNFCSupported b = false ->
  NFC.writeTextToNFC text lang b = (Throw NFC.NotSupported, b)
  /\ NFC.writeURLToNFC url b = (Throw NFC.NotSupported, b)
  /\ NFC.writeEmailToNFC email subject body b = (Throw NFC.NotSupported, b)
  /\ NFC.writePhoneToNFC phone b = (Throw NFC.NotSupported, b)
  /\ NFC.writeSMSToNFC phone message b = (Throw NFC.NotSupported, b)
  /\ NFC.writeWiFiToNFC ssid password authType b = (Throw NFC.NotSupported, b).
Proof.
  intros H.
  unfold NFC.writeTextToNFC, NFC.writeURLToNFC, NFC.writeEmailToNFC,
    NFC.writePhoneToNFC, NFC.writeSMSToNFC, NFC.writeWiFiToNFC.
  rewrite H. repeat split.
Qed.

Lemma writers_require_web_nfc_witness :
  NFC.isNFCSupported server_side = false
  /\ NFC.writeURLToNFC (str "https://example.org") server_side
     = (Throw NFC.NotSupported, server_side).
Proof.
  assert (NFC.isNFCSupported server_side = false) as H by reflexivity.
  split; [exact H|].
  destruct (writers_require_web_nfc server_side [] (str "https://example.org")
              [] [] [] [] None None None None None H) as (_ & Hu & _).
  exact Hu.
Defined.

Lemma reader_write_ok (records : NFC.NDEFMessageInit) (b b' : NFC.Browser) :
  NFC.reader_write records b = (Ok tt, b') ->
  NFC.written b' = records :: NFC.written b.
Proof.
  unfold NFC.reader_write. destruct (NFC.tag b records); [discriminate|].
  intros H. injection H as <-. reflexivity.
Qed.

(** The query of the [mailto:] URL that [writeEmailToNFC] writes has
    one [?] when there is a subject or a body, one [&] when there are
    both, one [=] for each, and no [#] or space, whatever the subject
    and the body contain. *)
Theorem mailto_parameters_stay_apart (email : jsstring)
        (subject body : option jsstring) (b b' : NFC.Browser) :
  NFC.writeEmailToNFC email subject body b = (Ok tt, b') ->
  exists query,
    NFC.written b' = [url_record (str "mailto:" ++ email ++ query)] :: NFC.written b
    /\ count 63 query = (if NFC.truthy subject || NFC.truthy body then 1 else 0)%nat
    /\ count 38 query = (if NFC.truthy subject && NFC.truthy body then 1 else 0)%nat
    /\ count 61 query
       = ((if NFC.truthy subject then 1 else 0)
          + (if NFC.truthy body then 1 else 0))%nat
    /\ count 35 query = 0%nat /\ count 32 query = 0%nat.
Proof.
  unfold NFC.writeEmailToNFC.
  destruct (negb (NFC.isNFCSupported b)); [discriminate|].
  destruct (NFC.truthy subject) eqn:Hs; destruct (NFC.truthy body) eqn:Hb.
  - destruct (JS.encodeURIComponent (NFC.text_of subject)) as [S|x] eqn:ES;
      [|discriminate].
    destruct (JS.encodeURIComponent (NFC.text_of body)) as [B|y] eqn:EB;
      [|discriminate].
    cbn [app length Nat.ltb Nat.leb JS.join]. intros H.
    apply reader_write_ok in H.
    exists (str "?" ++ (str "subject=" ++ S) ++ str "&" ++ str "body=" ++ B).
    split; [exact H|].
    rewrite !count_app.
    rewrite !(encoded_count _ S _ ES), !(encoded_count _ B _ EB) by reflexivity.
    repeat split.
  - destruct (JS.encodeURIComponent (NFC.text_of subject)) as [S|x] eqn:ES;
      [|discriminate].
    cbn [app length Nat.ltb Nat.leb JS.join]. intros H.
    apply reader_write_ok in H.
    exists (str "?" ++ str "subject=" ++ S).
    split; [exact H|].
    rewrite !count_app.
    rewrite !(encoded_count _ S _ ES) by reflexivity.
    repeat split.
  - destruct (JS.encodeURIComponent (NFC.text_of body)) as [B|y] eqn:EB;
      [|discriminate].
    cbn [app length Nat.ltb Nat.leb JS.join]. intros H.
    apply reader_write_ok in H.
    exists (str "?" ++ str "body=" ++ B).
    split; [exact H|].
    rewrite !count_app.
    rewrite !(encoded_count _ B _ EB) by reflexivity.
    repeat split.
  - cbn [app length Nat.ltb Nat.leb JS.join]. intros H.
    apply reader_write_ok in H.
    exists []. rewrite app_nil_r. split; [exact H|]. repeat split.
Qed.

Lemma mailto_witness :
  NFC.writeEmailToNFC (str "a@b.c") (Some (str "Hi & bye?")) (Some (str "x=1"))
    chrome_on_android
  = (Ok tt,
     NFC.mkBrowser (Some true) (fun _ => None)
       [[url_record
           (str "mailto:a@b.c?subject=Hi%20%26%20bye%3F&body=x%3D1")]])
  /\ exists query,
       [[url_record (str "mailto:a@b.c?subject=Hi%20%26%20bye%3F&body=x%3D1")]]
       = [url_record (str "mailto:" ++ str "a@b.c" ++ query)] :: []
       /\ count 38 query = 1%nat.
Proof.
  assert (NFC.writeEmailToNFC (str "a@b.c") (Some (str "Hi & bye?"))
            (Some (str "x=1")) chrome_on_android
          = (Ok tt,
             NFC.mkBrowser (Some true) (fun _ => None)
               [[url_record
                   (str "mailto:a@b.c?subject=Hi%20%26%20bye%3F&body=x%3D1")]]))
    as H by (vm_compute; reflexivity).
  split; [exact H|].
  destruct (mailto_parameters_stay_apart _ _ _ _ _ H)
    as (query & Hw & _ & Hamp & _).
  exists query. split; [exact Hw|exact Hamp].
Defined.

(** The query of the [sms:] URL that [writeSMSToNFC] writes has one
    [?] and one [=] when there is a message, and no [&], [#] or space,
    whatever the message contains. *)
Theorem sms_body_stays_apart (phone : jsstring) (message : option jsstring)
        (b b' : NFC.Browser) :
  NFC.writeSMSToNFC phone message b = (Ok tt, b') ->
  exists query,
    NFC.written b' = [url_record (str "sms:" ++ phone ++ query)] :: NFC.written b
    /\ count 63 query = (if NFC.truthy message then 1 else 0)%nat
    /\ count 61 query = (if NFC.truthy message then 1 else 0)%nat
    /\ count 38 query = 0%nat /\ count 35 query = 0%nat
    /\ count 32 query = 0%nat.
Proof.
  unfold NFC.writeSMSToNFC.
  destruct (negb (NFC.isNFCSupported b)); [discriminate|].
  destruct (NFC.truthy message) eqn:Hm.
  - destruct (JS.encodeURIComponent (NFC.text_of message)) as [M|x] eqn:EM;
      [|discriminate].
    intros H. apply reader_write_ok in H.
    exists (str "?body=" ++ M). split; [exact H|].
    rewrite !count_app.
    rewrite !(encoded_count _ M _ EM) by reflexivity.
    repeat split.
  - intros H. apply reader_write_ok in H.
    exists []. rewrite app_nil_r. split; [exact H|]. repeat split.
Qed.

Lemma sms_witness :
  NFC.writeSMSToNFC (str "+15550100") (Some (str "a&b")) chrome_on_android
  = (Ok tt,
     NFC.mkBrowser (Some true) (fun _ => None)
       [[url_record (str "sms:+15550100?body=a%26b")]])
  /\ exists query,
       [[url_record (str "sms:+15550100?body=a%26b")]]
       = [url_record (str "sms:" ++ str "+15550100" ++ query)] :: []
       /\ count 38 query = 0%nat.
Proof.
  assert (NFC.writeSMSToNFC (str "+15550100") (Some (str "a&b"))
            chrome_on_android
          = (Ok tt,
             NFC.mkBrowser (Some true) (fun _ => None)
               [[url_record (str "sms:+15550100?body=a%26b")]]))
    as H by (vm_compute; reflexivity).
  split; [exact H|].
  destruct (sms_body_stays_apart _ _ _ _ H) as (query & Hw & _ & _ & Hamp & _).
  exists query. split; [exact Hw|exact Hamp].
Defined.

(** [writeWiFiToNFC] does not escape its arguments: moving the text
    [;P:] and what follows it from the name of the network to the
    password gives a different pair and the same write. *)
Theorem wifi_config_is_ambiguous (ssid middle password : jsstring)
        (authType : option NFC.AuthType) (b : NFC.Browser) :
  NFC.writeWiFiToNFC (ssid ++ str ";P:" ++ middle) password authType b
  = NFC.writeWiFiToNFC ssid (middle ++ str ";P:" ++ password) authType b
  /\ password <> middle ++ str ";P:" ++ password.
Proof.
  split.
  - unfold NFC.writeWiFiToNFC.
    destruct (negb (NFC.isNFCSupported b)); [reflexivity|].
    rewrite <- !app_assoc. reflexivity.
  - intros H. apply (f_equal (@length Z)) in H.
    rewrite !length_app in H. cbn [str length] in H.
    change (length (str ";P:")) with 3%nat in H. lia.
Qed.

Lemma high_surrogate_reserved (c : Z) :
  JS.is_high_surrogate c = true ->
  JS.is_unreserved c = false /\ JS.is_low_surrogate c = false.
Proof.
  unfold JS.is_high_surrogate, JS.is_unreserved, JS.is_low_surrogate.
  intros H. apply andb_true_iff in H. destruct H as [H1 H2].
  apply Z.leb_le in H1. apply Z.leb_le in H2.
  split.
  - replace (c <=? 90) with false by (symmetry; apply Z.leb_gt; lia).
    replace (c <=? 122) with false by (symmetry; apply Z.leb_gt; lia).
    replace (c <=? 57) with false by (symmetry; apply Z.leb_gt; lia).
    repeat match goal with
           | |- context [c =? ?b] =>
               replace (c =? b) with false by (symmetry; apply Z.eqb_neq; lia)
           end.
    rewrite !andb_false_r. reflexivity.
  - apply andb_false_iff. left. apply Z.leb_gt. lia.
Qed.

Lemma cut_pair_is_malformed (s : jsstring) (c : Z) :
  JS.is_high_surrogate c = true ->
  JS.encodeURIComponent (s ++ [c]) = Throw JS.URIError.
Proof.
  intros Hc. destruct (high_surrogate_reserved c Hc) as [Hu Hl].
  remember (length s) as n eqn:Hn. revert s Hn.
  induction n as [n IH] using lt_wf_ind. intros s Hn.
  destruct s as [|a rest]; cbn [app JS.encodeURIComponent].
  - rewrite Hu, Hl, Hc. reflexivity.
  - assert (JS.encodeURIComponent (rest ++ [c]) = Throw JS.URIError) as Hrest
      by (apply (IH (length rest)); [subst n; cbn [length]; lia|reflexivity]).
    destruct (JS.is_unreserved a); [rewrite Hrest; reflexivity|].
    destruct (JS.is_low_surrogate a); [reflexivity|].
    destruct (JS.is_high_surrogate a); [|rewrite Hrest; reflexivity].
    destruct rest as [|d rest']; cbn [app].
    + rewrite Hl. reflexivity.
    + destruct (JS.is_low_surrogate d); [|reflexivity].
      rewrite (IH (length rest')); [reflexivity| |reflexivity].
      subst n. cbn [length]. lia.
Qed.

(** A subject or a message that ends in the first half of a surrogate
    pair makes [encodeURIComponent] throw, and the writer stops before
    anything is written. *)
Theorem cut_surrogate_pair_stops_the_write (email phone s : jsstring) (c : Z)
        (body : option jsstring) (b : NFC.Browser) :
  NFC.isNFCSupported b = true -> JS.is_high_surrogate c = true ->
  NFC.writeEmailToNFC email (Some (s ++ [c])) body b = (Throw JS.URIError, b)
  /\ NFC.writeSMSToNFC phone (Some (s ++ [c])) b = (Throw JS.URIError, b).
Proof.
  intros Hb Hc.
  assert (NFC.truthy (Some (s ++ [c])) = true) as Ht by (destruct s; reflexivity).
  unfold NFC.writeEmailToNFC, NFC.writeSMSToNFC.
  rewrite Hb, Ht. cbn [negb NFC.text_of].
  rewrite (cut_pair_is_malformed s c Hc). split; reflexivity.
Qed.

Lemma cut_surrogate_pair_witness :
  NFC.isNFCSupported chrome_on_android = true
  /\ JS.is_high_surrogate 55357 = true
  /\ NFC.writeSMSToNFC (str "+15550100") (Some (str "hi" ++ [55357]))
       chrome_on_android
     = (Throw JS.URIError, chrome_on_android).
Proof.
  assert (NFC.isNFCSupported chrome_on_android = true) as H1 by reflexivity.
  assert (JS.is_high_surrogate 55357 = true) as H2 by reflexivity.
  split; [exact H1|]. split; [exact H2|].
  exact (proj2 (cut_surrogate_pair_stops_the_write [] (str "+15550100")
                  (str "hi") 55357 None chrome_on_android H1 H2)).
Defined.
